(** * Transactional banking API: a model of server.js and its rollback logic

    The development embeds the two Express servers of the repository:

    - [Tx]: the transactional server (BEGIN / COMMIT / ROLLBACK around every
      balance mutation, plus a [transactions] history table);
    - [Simple]: the earlier server whose routes update balances directly;
    - [Demo]: the route of the transactional server that fails on purpose;
    - [Auth]: the middleware, registration, login and start-up of the
      servers.

    Both talk to one shared sqlite3 connection.  Every [await]ed database call
    is one statement executed atomically by SQLite; a handler is therefore a
    finite tree of statements ([prog]), interpreted against the database
    ([run]) or interleaved with other handlers at its [await] points
    ([run_schedule]).

    Numbers.  JavaScript numbers and SQLite REAL values are binary64.  A
    finite one is carried as the rational it denotes, and [+] and [-] round
    the exact result to the nearest binary64 value ([round64]); the zero with
    a minus sign is not told apart from zero.  SQLite has no NaN: binding NaN
    stores NULL.  A REAL column holding [NaN] stands for NULL and reads back
    as [null]. *)

From Stdlib Require Import ZArith QArith Qabs Qpower Lqa Lia Bool List String.
From Stdlib Require Import Permutation Sorted.
From ExtLib Require Import Structures.Monad Structures.MonadExc.
Import ListNotations.
Import MonadNotation.

Local Open Scope Z_scope.
Local Open Scope monad_scope.

(** ** JavaScript numbers *)

Inductive num : Type :=
| NaN
| PInf
| NInf
| Fin (q : Q).

Definition num_neg (a : num) : num :=
  match a with
  | NaN => NaN
  | PInf => NInf
  | NInf => PInf
  | Fin q => Fin (Qopp q)
  end.

(** *** Rounding to binary64

    [+] and [-] return the binary64 value nearest to the exact result, ties
    going to the value with an even significand: 53 significant bits,
    exponents from -1022 to 1023, gradual underflow down to [2^-1074], and
    Infinity from [2^1024 - 2^970] on. *)

(** Whether [2^e <= n/d], for positive [n] and [d]. *)
Definition at_least_pow (e n d : Z) : bool :=
  if 0 <=? e then d * 2 ^ e <=? n else d <=? n * 2 ^ (- e).

(** The exponent of [n/d]: the [e] with [2^e <= n/d < 2^(e+1)]. *)
Definition floor_log2 (n d : Z) : Z :=
  let c := Z.log2 n - Z.log2 d in
  if at_least_pow c n d then c else c - 1.

(** [N/D] rounded to the nearest integer, a half going to the even one. *)
Definition round_half_even (N D : Z) : Z :=
  let f := N / D in
  match 2 * (N mod D) ?= D with
  | Lt => f
  | Gt => f + 1
  | Eq => if Z.even f then f else f + 1
  end.

(** The binary64 value nearest to [n/d > 0]: [k * 2^s], where [2^s] is the
    spacing of binary64 values around [n/d]. *)
Definition round_pos (n d : Z) : num :=
  let s := Z.max (floor_log2 n d) (-1022) - 52 in
  if 0 <=? s then
    let k := round_half_even n (d * 2 ^ s) in
    if 2 ^ 1024 <=? k * 2 ^ s then PInf else Fin (inject_Z (k * 2 ^ s))
  else
    let k := round_half_even (n * 2 ^ (- s)) d in
    Fin (Qred (k # Z.to_pos (2 ^ (- s)))).

Definition round64 (q : Q) : num :=
  match Qnum q with
  | 0 => Fin 0
  | Z.pos p => round_pos (Z.pos p) (Z.pos (Qden q))
  | Z.neg p => num_neg (round_pos (Z.pos p) (Z.pos (Qden q)))
  end.

Arguments round64 : simpl never.

(** [a + b] on numbers. *)
Definition num_add (a b : num) : num :=
  match a, b with
  | NaN, _ | _, NaN => NaN
  | PInf, NInf | NInf, PInf => NaN
  | PInf, _ | _, PInf => PInf
  | NInf, _ | _, NInf => NInf
  | Fin x, Fin y => round64 (Qplus x y)
  end.

(** [a - b] on numbers. *)
Definition num_sub (a b : num) : num :=
  match a, b with
  | NaN, _ | _, NaN => NaN
  | PInf, PInf | NInf, NInf => NaN
  | PInf, _ | _, NInf => PInf
  | NInf, _ | _, PInf => NInf
  | Fin x, Fin y => round64 (Qminus x y)
  end.

(** *** What rounding has to achieve

    The binary64 values, written without reference to [round64]: a
    significand of at most 53 bits times a power of two between [2^-1074]
    and [2^971]. *)
Definition binary64 (x : Q) : Prop :=
  exists k e : Z,
    Z.abs k < 2 ^ 53 /\ -1074 <= e <= 971 /\ (x == inject_Z k * 2 ^ e)%Q.

(** The first magnitude that rounds to Infinity: half a step above the
    largest binary64 value. *)
Definition overflow_threshold : Q := inject_Z (2 ^ 1024 - 2 ^ 970).

(** [v] is a nearest binary64 value of the exact result [x]: below the
    threshold a binary64 value no further from [x] than any other, and from
    the threshold on the infinity of [x]'s sign. *)
Definition nearest64 (x : Q) (v : num) : Prop :=
  match v with
  | Fin r =>
      (Qabs x < overflow_threshold)%Q /\
      binary64 r /\
      forall y : Q, binary64 y -> (Qabs (x - r) <= Qabs (x - y))%Q
  | PInf => (overflow_threshold <= x)%Q
  | NInf => (x <= - overflow_threshold)%Q
  | NaN => False
  end.

(** Where another binary64 value [y] is as near to [x] as the answer [r],
    [r] is the one with the even significand: an even multiple of the
    distance [y - r] between the two neighbours. *)
Definition ties_to_even (x : Q) (v : num) : Prop :=
  match v with
  | Fin r =>
      forall y : Q,
        binary64 y -> ~ (y == r)%Q -> (Qabs (x - y) == Qabs (x - r))%Q ->
        exists j : Z, (r == inject_Z (2 * j) * (y - r))%Q
  | _ => True
  end.

(** What [+] and [-] owe for an exact result [x] (IEEE 754, round to nearest,
    ties to even): a nearest binary64 value, the even one of two, and so
    [x] itself whenever [x] is a binary64 value. *)
Definition rounded (x : Q) (v : num) : Prop :=
  nearest64 x v /\
  ties_to_even x v /\
  (binary64 x -> exists z : Q, v = Fin z /\ (z == x)%Q).

Definition Qltb (x y : Q) : bool := negb (Qle_bool y x).

(** [a < b]: false as soon as one side is NaN. *)
Definition num_ltb (a b : num) : bool :=
  match a, b with
  | NaN, _ | _, NaN => false
  | _, NInf => false
  | NInf, _ => true
  | PInf, _ => false
  | _, PInf => true
  | Fin x, Fin y => Qltb x y
  end.

(** [a <= b]: false as soon as one side is NaN. *)
Definition num_leb (a b : num) : bool :=
  match a, b with
  | NaN, _ | _, NaN => false
  | NInf, _ => true
  | _, PInf => true
  | _, NInf => false
  | PInf, _ => false
  | Fin x, Fin y => Qle_bool x y
  end.

(** [a === b] on numbers. *)
Definition num_eqb (a b : num) : bool :=
  match a, b with
  | PInf, PInf | NInf, NInf => true
  | Fin x, Fin y => Qeq_bool x y
  | _, _ => false
  end.

Definition num_is_nan (a : num) : bool :=
  match a with NaN => true | _ => false end.

Definition num_is_finite (a : num) : bool :=
  match a with Fin _ => true | _ => false end.

Definition zero : num := Fin 0.

Definition of_Z (z : Z) : num := Fin (inject_Z z).

(** ** JavaScript values found in a JSON request body

    [amount] is whatever [express.json()] parsed: it may be absent
    ([undefined]), [null], a boolean or a number.  [JSON.parse] maps a literal
    such as [1e999] to [Infinity], so [JNum PInf] is a value a client can
    send; [JNum NaN] is not, but the handlers are defined on it all the same.
    Strings, arrays and objects are coerced by every use the handlers make of
    [amount] and are left out. *)

Inductive jsval : Type :=
| JUndefined
| JNull
| JBool (b : bool)
| JNum (n : num).

(** The abstract operation ToNumber, which [Number(v)], [isNaN(v)] and the
    relational operators apply to their operands. *)
Definition Number (v : jsval) : num :=
  match v with
  | JUndefined => NaN
  | JNull => zero
  | JBool true => of_Z 1
  | JBool false => zero
  | JNum n => n
  end.

(** Truthiness, as tested by [!v] and [if (v)]. *)
Definition truthy (v : jsval) : bool :=
  match v with
  | JUndefined | JNull => false
  | JBool b => b
  | JNum NaN => false
  | JNum (Fin q) => negb (Qeq_bool q 0)
  | JNum _ => true
  end.

Definition isNaN (v : jsval) : bool := num_is_nan (Number v).

Definition js_lt (a b : jsval) : bool := num_ltb (Number a) (Number b).
Definition js_le (a b : jsval) : bool := num_leb (Number a) (Number b).
Definition js_ge (a b : jsval) : bool := num_leb (Number b) (Number a).

(** A request field that should hold a string ([toUsername]); [None] when the
    field is absent.  The empty string is falsy. *)
Definition truthy_str (s : option string) : bool :=
  match s with
  | None => false
  | Some s => negb (String.eqb s EmptyString)
  end.

(** ** The SQLite database

    Two tables, as created by [initDb]:
    [users (id, username, password, balance REAL)] and
    [transactions (id AUTOINCREMENT, type, from_user, to_user, amount REAL NOT
    NULL, status, created_at, note)] with [PRAGMA foreign_keys = ON]. *)

Record user : Type := mkUser {
  user_id : Z;
  username : string;
  password : string;
  balance_col : num   (* REAL; [NaN] stands for NULL *)
}.

(** A REAL column as the JavaScript value sqlite3 hands back. *)
Definition read_real (b : num) : jsval :=
  if num_is_nan b then JNull else JNum b.

(** [row.balance]. *)
Definition balance (u : user) : jsval := read_real (balance_col u).

Inductive tx_type : Type := TDeposit | TWithdraw | TTransfer.
Inductive tx_status : Type := Committed | Rolledback.

(** The [note] column.  Template strings are kept in structured form. *)
Inductive tx_note : Type :=
| NoteText (s : string)
| NoteTransfer (amount : jsval) (from_name to_name : string)
| NoteError (message : string).

Record tx_row : Type := mkTx {
  tx_id : Z;
  type : tx_type;
  from_user : option Z;
  to_user : option Z;
  amount_col : num;
  status : tx_status;
  created_at : Z;
  note : tx_note
}.

(** The argument object of [insertTransactionRecord]. *)
Record tx_params : Type := mkParams {
  p_type : tx_type;
  p_from_user : option Z;
  p_to_user : option Z;
  p_amount : jsval;
  p_status : tx_status;
  p_note : tx_note
}.

(** Contents of the database file; [tx_seq] is the AUTOINCREMENT counter of
    [transactions] (kept in [sqlite_sequence], hence transactional too). *)
Record tables : Type := mkTables {
  users : list user;
  transactions : list tx_row;
  tx_seq : Z
}.

(** The single connection [db]: the current contents and, while a
    transaction is open, the contents to return to on ROLLBACK. *)
Record conn : Type := mkConn {
  live : tables;
  saved : option tables
}.

Definition has_id (i : Z) (u : user) : bool := Z.eqb (user_id u) i.
Definition has_name (n : string) (u : user) : bool := String.eqb (username u) n.

(** [SELECT * FROM users WHERE id = ?] through [db.get]: the first row. *)
Definition select_user_by_id (i : Z) (t : tables) : option user :=
  find (has_id i) (users t).

(** [SELECT * FROM users WHERE username = ?] through [db.get]; an absent
    name is bound as NULL, which no row equals. *)
Definition select_user_by_name (n : option string) (t : tables) : option user :=
  match n with
  | Some n => find (has_name n) (users t)
  | None => None
  end.

Definition set_balance (b : num) (u : user) : user :=
  mkUser (user_id u) (username u) (password u) b.

(** [UPDATE users SET balance = ? WHERE id = ?]. *)
Definition update_balance (b : num) (i : Z) (t : tables) : tables :=
  mkTables
    (map (fun u => if has_id i u then set_balance b u else u) (users t))
    (transactions t) (tx_seq t).

(** [x || null] on a user id. *)
Definition or_null (x : option Z) : option Z :=
  match x with
  | Some i => if Z.eqb i 0 then None else Some i
  | None => None
  end.

(** The value bound for [tx.amount]: NULL ([NaN]) for null and undefined. *)
Definition bind_amount (v : jsval) : num :=
  match v with
  | JUndefined | JNull => NaN
  | _ => Number v
  end.

(** A foreign key is satisfied by NULL or by an existing user id. *)
Definition fk_ok (k : option Z) (t : tables) : bool :=
  match k with
  | None => true
  | Some i => existsb (has_id i) (users t)
  end.

(** [INSERT INTO transactions (type, from_user, to_user, amount, status, note)
    VALUES (...)]: fails on a NULL amount or a dangling user reference,
    otherwise appends a row stamped with the current time and returns its
    id. *)
Definition insert_tx (now : Z) (p : tx_params) (t : tables) : (Z + string) * tables :=
  let a := bind_amount (p_amount p) in
  if num_is_nan a then
    (inr "SQLITE_CONSTRAINT: NOT NULL constraint failed: transactions.amount"%string, t)
  else if negb (fk_ok (or_null (p_from_user p)) t && fk_ok (or_null (p_to_user p)) t) then
    (inr "SQLITE_CONSTRAINT: FOREIGN KEY constraint failed"%string, t)
  else
    let i := tx_seq t + 1 in
    (inl i,
     mkTables (users t)
       (transactions t ++
        [mkTx i (p_type p) (or_null (p_from_user p)) (or_null (p_to_user p))
           a (p_status p) now (p_note p)])
       i).

(** *** Reading the history: [GET /api/transactions] *)

Record tx_view : Type := mkView {
  v_row : tx_row;
  from_username : option string;
  to_username : option string
}.

(** [LEFT JOIN users u ON key = u.id]: one result per matching user, or a
    single NULL when none matches. *)
Definition left_join (key : option Z) (us : list user) : list (option string) :=
  match key with
  | None => [None]
  | Some i =>
      match filter (has_id i) us with
      | [] => [None]
      | ms => map (fun u => Some (username u)) ms
      end
  end.

Definition joined (us : list user) (r : tx_row) : list tx_view :=
  flat_map (fun f => map (fun t => mkView r f t) (left_join (to_user r) us))
           (left_join (from_user r) us).

(** [WHERE t.from_user = ? OR t.to_user = ?]; NULL never compares equal. *)
Definition participates (i : Z) (r : tx_row) : bool :=
  match from_user r with Some f => Z.eqb f i | None => false end
  || match to_user r with Some t => Z.eqb t i | None => false end.

(** [ORDER BY t.created_at DESC], as a stable insertion sort. *)
Fixpoint insert_desc (v : tx_view) (l : list tx_view) : list tx_view :=
  match l with
  | [] => [v]
  | w :: l' =>
      if Z.leb (created_at (v_row w)) (created_at (v_row v))
      then v :: l
      else w :: insert_desc v l'
  end.

Definition order_by_created_at_desc (l : list tx_view) : list tx_view :=
  fold_right insert_desc [] l.

(** The two SELECTs of the route.  [userId] is the id the query parameter
    denotes, [None] when the parameter is absent or empty ([if (userId)]). *)
Definition select_transactions (userId : option Z) (t : tables) : list tx_view :=
  let rows :=
    match userId with
    | Some i => filter (participates i) (transactions t)
    | None => transactions t
    end in
  order_by_created_at_desc (flat_map (joined (users t)) rows).

(** ** Statements and the connection

    The SQL texts the handlers send, indexed by the type of what the promise
    resolves to. *)

Inductive txn_cmd : Type := BEGIN | COMMIT | ROLLBACK.

Inductive stmt : Type -> Type :=
| Exec (c : txn_cmd) : stmt unit
| SELECT_user_by_id (i : Z) : stmt (option user)
| SELECT_user_by_username (n : option string) : stmt (option user)
| UPDATE_balance (b : num) (i : Z) : stmt unit
| INSERT_transaction (p : tx_params) : stmt Z
| SELECT_transactions (userId : option Z) : stmt (list tx_view).

Definition modify (f : tables -> tables) (c : conn) : conn :=
  mkConn (f (live c)) (saved c).

(** What SQLite does with one statement on the connection.  Outside a
    transaction every statement commits on its own. *)
Definition sql {X : Type} (now : Z) (s : stmt X) (c : conn) : (X + string) * conn :=
  match s in stmt X return (X + string) * conn with
  | Exec BEGIN =>
      match saved c with
      | Some _ =>
          (inr "SQLITE_ERROR: cannot start a transaction within a transaction"%string, c)
      | None => (inl tt, mkConn (live c) (Some (live c)))
      end
  | Exec COMMIT =>
      match saved c with
      | Some _ => (inl tt, mkConn (live c) None)
      | None => (inr "SQLITE_ERROR: cannot commit - no transaction is active"%string, c)
      end
  | Exec ROLLBACK =>
      match saved c with
      | Some t => (inl tt, mkConn t None)
      | None => (inr "SQLITE_ERROR: cannot rollback - no transaction is active"%string, c)
      end
  | SELECT_user_by_id i => (inl (select_user_by_id i (live c)), c)
  | SELECT_user_by_username n => (inl (select_user_by_name n (live c)), c)
  | UPDATE_balance b i => (inl tt, modify (update_balance b i) c)
  | INSERT_transaction p =>
      let (r, t) := insert_tx now p (live c) in (r, mkConn t (saved c))
  | SELECT_transactions userId => (inl (select_transactions userId (live c)), c)
  end.

(** The statements issued so far, with their success. *)
Inductive kind : Type := KBegin | KCommit | KRollback | KSelect | KUpdate | KInsert.

Definition kind_of {X : Type} (s : stmt X) : kind :=
  match s with
  | Exec BEGIN => KBegin
  | Exec COMMIT => KCommit
  | Exec ROLLBACK => KRollback
  | SELECT_user_by_id _ | SELECT_user_by_username _ | SELECT_transactions _ => KSelect
  | UPDATE_balance _ _ => KUpdate
  | INSERT_transaction _ => KInsert
  end.

Definition is_rollback (k : kind) : bool :=
  match k with KRollback => true | _ => false end.

Definition succeeded {X : Type} (r : X + string) : bool :=
  match r with inl _ => true | inr _ => false end.

(** The environment of a run: [fault n] tells whether the [n]-th statement
    sent to the connection fails with an I/O error, leaving the database as
    it was; [clock n] is CURRENT_TIMESTAMP when it runs.  ROLLBACK of an open
    transaction cannot fail. *)
Record env : Type := mkEnv {
  fault : nat -> bool;
  clock : nat -> Z
}.

Record world : Type := mkWorld {
  db : conn;
  trace : list (kind * bool)
}.

Definition perform {X : Type} (e : env) (s : stmt X) (w : world) : (X + string) * world :=
  let n := List.length (trace w) in
  if negb (is_rollback (kind_of s)) && fault e n then
    (inr "SQLITE_IOERR: disk I/O error"%string,
     mkWorld (db w) (trace w ++ [(kind_of s, false)]))
  else
    let (r, c) := sql (clock e n) s (db w) in
    (r, mkWorld c (trace w ++ [(kind_of s, succeeded r)])).

(** ** Handlers as programs

    An [async] function body: it returns, throws, or awaits a statement and
    continues with the promise's outcome. *)

Inductive prog (R : Type) : Type :=
| Ret (r : R)
| Throw (message : string)
| Await {X : Type} (s : stmt X) (k : X + string -> prog R).

Arguments Ret {R} r.
Arguments Throw {R} message.
Arguments Await {R X} s k.

Fixpoint prog_bind {A B : Type} (p : prog A) (f : A -> prog B) : prog B :=
  match p with
  | Ret a => f a
  | Throw m => Throw m
  | Await s k => Await s (fun r => prog_bind (k r) f)
  end.

(** [try { p } catch (err) { h err }]. *)
Fixpoint try_catch {A : Type} (p : prog A) (h : string -> prog A) : prog A :=
  match p with
  | Ret a => Ret a
  | Throw m => h m
  | Await s k => Await s (fun r => try_catch (k r) h)
  end.

#[global] Instance Monad_prog : Monad prog :=
  {| ret := @Ret; bind := @prog_bind |}.

#[global] Instance MonadExc_prog : MonadExc string prog :=
  {| raise := @Throw; catch := @try_catch |}.

(** [await] of a promise: its value, or a throw when it rejects. *)
Definition await {X : Type} (s : stmt X) : prog X :=
  Await s (fun r => match r with inl x => Ret x | inr m => Throw m end).

(** How a handler ends: with a value, or with an exception nobody caught. *)
Inductive outcome (R : Type) : Type :=
| Returned (r : R)
| Unhandled (message : string).

Arguments Returned {R} r.
Arguments Unhandled {R} message.

(** One handler run from start to end with nothing else in between. *)
Fixpoint run {R : Type} (e : env) (p : prog R) (w : world) : outcome R * world :=
  match p with
  | Ret r => (Returned r, w)
  | Throw m => (Unhandled m, w)
  | Await s k => let (r, w') := perform e s w in run e (k r) w'
  end.

(** The promisified helpers of server.js. *)
Definition execAsync (c : txn_cmd) : prog unit := await (Exec c).
Definition getAsync (s : stmt (option user)) : prog (option user) := await s.
Definition runAsync (s : stmt unit) : prog unit := await s.
Definition allAsync (s : stmt (list tx_view)) : prog (list tx_view) := await s.

Definition findUserByUsername (n : option string) : prog (option user) :=
  getAsync (SELECT_user_by_username n).
Definition findUserById (i : Z) : prog (option user) :=
  getAsync (SELECT_user_by_id i).
Definition updateBalance (i : Z) (newBalance : num) : prog unit :=
  runAsync (UPDATE_balance newBalance i).
Definition insertTransactionRecord (tx : tx_params) : prog Z :=
  await (INSERT_transaction tx).

(** ** HTTP responses *)

Inductive json : Type :=
| Error (error : string)
| Balance (balance : num)
| Balances (fromBalance toBalance : num)
| Rows (rows : list tx_view).

Record response : Type := mkResponse {
  code : Z;
  body : json
}.

(** [res.status(c).json(b)]; [res.json(b)] answers 200. *)
Definition res_status_json (c : Z) (b : json) : prog response := ret (mkResponse c b).
Definition res_json (b : json) : prog response := ret (mkResponse 200 b).

Definition TypeError_balance : string :=
  "TypeError: Cannot read properties of undefined (reading 'balance')".

(** ** The transactional server *)

Module Tx.

(** [POST /api/transfer], body [{ toUsername, amount }], caller
    [req.user.id = fromUserId]. *)
Definition transfer (fromUserId : Z) (toUsername : option string) (amount : jsval)
  : prog response :=
  if negb (truthy_str toUsername) || negb (truthy amount) || isNaN amount
     || js_le amount (JNum zero)
  then res_status_json 400 (Error "Invalid input")
  else
    catch
      (toUser <- findUserByUsername toUsername ;;
       match toUser with
       | None => res_status_json 404 (Error "Recipient not found")
       | Some toUser =>
           execAsync BEGIN ;;
           fromUser <- getAsync (SELECT_user_by_id fromUserId) ;;
           freshToUser <- getAsync (SELECT_user_by_id (user_id toUser)) ;;
           match fromUser with
           | None =>
               execAsync ROLLBACK ;;
               res_status_json 404 (Error "Sender not found")
           | Some fromUser =>
               if js_lt (balance fromUser) amount then
                 insertTransactionRecord
                   (mkParams TTransfer (Some fromUserId) (Some (user_id toUser))
                      amount Rolledback (NoteText "insufficient funds")) ;;
                 execAsync ROLLBACK ;;
                 res_status_json 400 (Error "Insufficient funds")
               else
                 match freshToUser with
                 | None => raise TypeError_balance
                 | Some freshToUser =>
                     let newFromBal :=
                       num_sub (Number (balance fromUser)) (Number amount) in
                     let newToBal :=
                       num_add (Number (balance freshToUser)) (Number amount) in
                     runAsync (UPDATE_balance newFromBal (user_id fromUser)) ;;
                     runAsync (UPDATE_balance newToBal (user_id freshToUser)) ;;
                     insertTransactionRecord
                       (mkParams TTransfer (Some (user_id fromUser))
                          (Some (user_id freshToUser)) amount Committed
                          (NoteTransfer amount (username fromUser)
                             (username freshToUser))) ;;
                     execAsync COMMIT ;;
                     res_json (Balances newFromBal newToBal)
                 end
           end
       end)
      (fun err =>
         catch
           (execAsync ROLLBACK ;;
            catch
              (insertTransactionRecord
                 (mkParams TTransfer (Some fromUserId) None amount Rolledback
                    (NoteError err)) ;;
               ret tt)
              (fun recErr => ret tt))
           (fun rbErr => ret tt) ;;
         res_status_json 500 (Error "Transfer failed, rolled back")).

(** [POST /api/deposit-tx], body [{ amount }]. *)
Definition deposit_tx (uid : Z) (amount : jsval) : prog response :=
  if negb (truthy amount) || isNaN amount || js_le amount (JNum zero)
  then res_status_json 400 (Error "Invalid amount")
  else
    catch
      (execAsync BEGIN ;;
       user <- getAsync (SELECT_user_by_id uid) ;;
       match user with
       | None =>
           execAsync ROLLBACK ;;
           res_status_json 404 (Error "User not found")
       | Some user =>
           let newBal := num_add (Number (balance user)) (Number amount) in
           runAsync (UPDATE_balance newBal uid) ;;
           insertTransactionRecord
             (mkParams TDeposit None (Some uid) amount Committed
                (NoteText "deposit via deposit-tx")) ;;
           execAsync COMMIT ;;
           res_json (Balance newBal)
       end)
      (fun err =>
         catch (execAsync ROLLBACK) (fun e => ret tt) ;;
         res_status_json 500 (Error "Deposit failed, rolled back")).

(** [POST /api/withdraw-tx], body [{ amount }]. *)
Definition withdraw_tx (uid : Z) (amount : jsval) : prog response :=
  if negb (truthy amount) || isNaN amount || js_le amount (JNum zero)
  then res_status_json 400 (Error "Invalid amount")
  else
    catch
      (execAsync BEGIN ;;
       user <- getAsync (SELECT_user_by_id uid) ;;
       match user with
       | None =>
           execAsync ROLLBACK ;;
           res_status_json 404 (Error "User not found")
       | Some user =>
           if js_lt (balance user) amount then
             insertTransactionRecord
               (mkParams TWithdraw (Some uid) None amount Rolledback
                  (NoteText "insufficient funds for withdraw")) ;;
             execAsync ROLLBACK ;;
             res_status_json 400 (Error "Insufficient funds")
           else
             let newBal := num_sub (Number (balance user)) (Number amount) in
             runAsync (UPDATE_balance newBal uid) ;;
             insertTransactionRecord
               (mkParams TWithdraw (Some uid) None amount Committed
                  (NoteText "withdraw via withdraw-tx")) ;;
             execAsync COMMIT ;;
             res_json (Balance newBal)
       end)
      (fun err =>
         catch (execAsync ROLLBACK) (fun e => ret tt) ;;
         res_status_json 500 (Error "Withdraw failed, rolled back")).

(** [GET /api/transactions?userId=]. *)
Definition list_transactions (userId : option Z) : prog response :=
  catch
    (rows <- allAsync (SELECT_transactions userId) ;;
     res_json (Rows rows))
    (fun err => res_status_json 500 (Error "server error")).

(** [GET /api/balance]: the row's balance as stored ([NaN] for null). *)
Definition get_balance (uid : Z) : prog response :=
  catch
    (user <- findUserById uid ;;
     match user with
     | None => res_status_json 404 (Error "User not found")
     | Some user => res_json (Balance (balance_col user))
     end)
    (fun err => res_status_json 500 (Error "server error")).

(** A balance-affecting request to this server. *)
Inductive request : Type :=
| Deposit (uid : Z) (amount : jsval)
| Withdraw (uid : Z) (amount : jsval)
| Transfer (fromUserId : Z) (toUsername : option string) (amount : jsval).

Definition handle (r : request) : prog response :=
  match r with
  | Deposit uid amount => deposit_tx uid amount
  | Withdraw uid amount => withdraw_tx uid amount
  | Transfer fromUserId toUsername amount => transfer fromUserId toUsername amount
  end.

(** Requests served one after the other on the same connection. *)
Fixpoint serve (e : env) (rs : list request) (w : world) : world :=
  match rs with
  | [] => w
  | r :: rs' => serve e rs' (snd (run e (handle r) w))
  end.

End Tx.

(** ** The server without transactions

    Its routes have no [try]: a rejected promise or a TypeError leaves the
    handler with an unhandled exception. *)

Module Simple.

(** [POST /api/deposit]. *)
Definition deposit (uid : Z) (amount : jsval) : prog response :=
  if negb (truthy amount) || js_le amount (JNum zero)
  then res_status_json 400 (Error "Invalid amount")
  else
    user <- findUserById uid ;;
    match user with
    | None => raise TypeError_balance
    | Some user =>
        let newBalance := num_add (Number (balance user)) (Number amount) in
        updateBalance (user_id user) newBalance ;;
        res_json (Balance newBalance)
    end.

(** [POST /api/withdraw]. *)
Definition withdraw (uid : Z) (amount : jsval) : prog response :=
  if negb (truthy amount) || js_le amount (JNum zero)
  then res_status_json 400 (Error "Invalid amount")
  else
    user <- findUserById uid ;;
    match user with
    | None => raise TypeError_balance
    | Some user =>
        if js_lt (balance user) amount
        then res_status_json 400 (Error "Insufficient funds")
        else
          let newBalance := num_sub (Number (balance user)) (Number amount) in
          updateBalance (user_id user) newBalance ;;
          res_json (Balance newBalance)
    end.

(** [POST /api/transfer]. *)
Definition transfer (uid : Z) (toUsername : option string) (amount : jsval)
  : prog response :=
  if negb (truthy_str toUsername) || negb (truthy amount)
     || js_le amount (JNum zero)
  then res_status_json 400 (Error "Invalid input")
  else
    fromUser <- findUserById uid ;;
    toUser <- findUserByUsername toUsername ;;
    match toUser with
    | None => res_status_json 404 (Error "Recipient not found")
    | Some toUser =>
        match fromUser with
        | None => raise TypeError_balance
        | Some fromUser =>
            if js_lt (balance fromUser) amount
            then res_status_json 400 (Error "Insufficient funds")
            else
              let newFromBal :=
                num_sub (Number (balance fromUser)) (Number amount) in
              let newToBal :=
                num_add (Number (balance toUser)) (Number amount) in
              updateBalance (user_id fromUser) newFromBal ;;
              updateBalance (user_id toUser) newToBal ;;
              res_json (Balances newFromBal newToBal)
        end
    end.

End Simple.

(** ** Handlers in flight together

    Express starts a handler per request; each runs until its next [await]
    and resumes when its statement has been executed.  All of them share the
    connection, so their statements reach SQLite in some interleaved order.
    A schedule names, step by step, the handler whose pending statement is
    executed next. *)

Definition finished (p : prog response) : bool :=
  match p with
  | Await _ _ => false
  | _ => true
  end.

(** Execute the pending statement of one handler and resume it. *)
Definition advance (e : env) (p : prog response) (w : world)
  : prog response * world :=
  match p with
  | Await s k => let (r, w') := perform e s w in (k r, w')
  | _ => (p, w)
  end.

Fixpoint set_nth (i : nat) (p : prog response) (ps : list (prog response))
  : list (prog response) :=
  match ps, i with
  | [], _ => []
  | _ :: ps', O => p :: ps'
  | q :: ps', S i' => q :: set_nth i' p ps'
  end.

Fixpoint run_schedule (e : env) (schedule : list nat)
    (ps : list (prog response)) (w : world) : list (prog response) * world :=
  match schedule with
  | [] => (ps, w)
  | i :: rest =>
      match nth_error ps i with
      | Some p =>
          let (p', w') := advance e p w in
          run_schedule e rest (set_nth i p' ps) w'
      | None => run_schedule e rest ps w
      end
  end.

(** The database right after [initDb] on a fresh file: alice and bob. *)
Definition initial_tables : tables :=
  mkTables
    [mkUser 1 "alice" "$2b$10$alice" (of_Z 1000);
     mkUser 2 "bob" "$2b$10$bob" (of_Z 500)]
    [] 0.

Definition initial_world : world := mkWorld (mkConn initial_tables None) [].

(** An environment in which no statement fails and the clock ticks with
    every statement. *)
Definition calm : env := mkEnv (fun _ => false) (fun n => Z.of_nat n).

(** ** Specification vocabulary *)

(** No transaction is open on the connection: the state between requests. *)
Definition idle (w : world) : Prop := saved (db w) = None.

(** The amount test shared by the three routes passes. *)
Definition accepted (amount : jsval) : Prop :=
  negb (truthy amount) || isNaN amount || js_le amount (JNum zero) = false.

(** A positive amount: [amount > 0] after coercion. *)
Definition positive (amount : jsval) : Prop :=
  num_ltb zero (Number amount) = true.

(** [balance >= 0], evaluated on the value the handlers read. *)
Definition nonneg (b : num) : Prop := js_ge (read_real b) (JNum zero) = true.

(** [balance < 0], likewise. *)
Definition negative (b : num) : Prop := js_lt (read_real b) (JNum zero) = true.

Definition balances_nonneg (w : world) : Prop :=
  Forall (fun u => nonneg (balance_col u)) (users (live (db w))).

(** The statements a handler added to the trace. *)
Definition issued (w w' : world) : list (kind * bool) :=
  skipn (List.length (trace w)) (trace w').

(** The row an INSERT appends. *)
Definition new_row (now : Z) (p : tx_params) (t : tables) : tx_row :=
  mkTx (tx_seq t + 1) (p_type p) (or_null (p_from_user p)) (or_null (p_to_user p))
    (bind_amount (p_amount p)) (p_status p) now (p_note p).

Definition appended (r : tx_row) (t : tables) : tables :=
  mkTables (users t) (transactions t ++ [r]) (tx_id r).

(** ** What one request can do to an idle connection *)

(** The request failed: an error response, the connection idle again, the
    users table as before, and at most rolled-back rows added to the log. *)
Inductive failed (t : tables) : outcome response * world -> Prop :=
| failed_intro (c : Z) (msg : string) (w' : world) (l : list tx_row) :
    c <> 200 ->
    saved (db w') = None ->
    users (live (db w')) = users t ->
    transactions (live (db w')) = transactions t ++ l ->
    Forall (fun r => status r = Rolledback) l ->
    (List.length l <= 1)%nat ->
    failed t (Returned (mkResponse c (Error msg)), w').

(** The request went through: answer [b], the connection idle again, the
    users table as [us], and one committed row of type [ty] added. *)
Inductive applied (t : tables) (ty : tx_type) (us : list user) (b : json)
  : outcome response * world -> Prop :=
| applied_intro (w' : world) (r : tx_row) :
    saved (db w') = None ->
    users (live (db w')) = us ->
    transactions (live (db w')) = transactions t ++ [r] ->
    status r = Committed ->
    type r = ty ->
    applied t ty us b (Returned (mkResponse 200 b), w').

(** The users table after the two UPDATEs of a transfer. *)
Definition transferred (fromUser freshToUser : user) (amount : jsval) (t : tables)
  : tables :=
  update_balance (num_add (Number (balance freshToUser)) (Number amount))
    (user_id freshToUser)
    (update_balance (num_sub (Number (balance fromUser)) (Number amount))
       (user_id fromUser) t).

(** Every request to the transactional server either fails or is applied;
    [handle_effect] gathers the three routes. *)
Definition request_applied (r : Tx.request) (t : tables)
  : outcome response * world -> Prop :=
  match r with
  | Tx.Deposit uid amount =>
      fun res =>
        match select_user_by_id uid t with
        | Some user =>
            let newBal := num_add (Number (balance user)) (Number amount) in
            accepted amount /\
            applied t TDeposit (users (update_balance newBal uid t))
              (Balance newBal) res
        | None => False
        end
  | Tx.Withdraw uid amount =>
      fun res =>
        match select_user_by_id uid t with
        | Some user =>
            let newBal := num_sub (Number (balance user)) (Number amount) in
            accepted amount /\ js_lt (balance user) amount = false /\
            applied t TWithdraw (users (update_balance newBal uid t))
              (Balance newBal) res
        | None => False
        end
  | Tx.Transfer fromUserId toUsername amount =>
      fun res =>
        match select_user_by_name toUsername t with
        | Some toUser =>
            match select_user_by_id fromUserId t,
                  select_user_by_id (user_id toUser) t with
            | Some fromUser, Some freshToUser =>
                accepted amount /\ js_lt (balance fromUser) amount = false /\
                applied t TTransfer
                  (users (transferred fromUser freshToUser amount t))
                  (Balances (num_sub (Number (balance fromUser)) (Number amount))
                     (num_add (Number (balance freshToUser)) (Number amount)))
                  res
            | _, _ => False
            end
        | None => False
        end
  end.

Definition quiet (e : env) : Prop := forall n, fault e n = false.

(** The balance a caller sees for account [i]. *)
Definition balance_of (i : Z) (t : tables) : num :=
  match select_user_by_id i t with
  | Some u => Number (balance u)
  | None => NaN
  end.

(** The request passes the input test of its route. *)
Definition well_formed (r : Tx.request) : Prop :=
  match r with
  | Tx.Deposit _ amount | Tx.Withdraw _ amount => accepted amount
  | Tx.Transfer _ toUsername amount =>
      truthy_str toUsername = true /\ accepted amount
  end.

(** The source or the destination account of the request does not exist. *)
Definition party_missing (r : Tx.request) (t : tables) : Prop :=
  match r with
  | Tx.Deposit uid _ | Tx.Withdraw uid _ => select_user_by_id uid t = None
  | Tx.Transfer fromUserId toUsername _ =>
      select_user_by_name toUsername t = None \/
      select_user_by_id fromUserId t = None
  end.

(** The request reaches the sufficiency test and fails it. *)
Definition insufficient (r : Tx.request) (t : tables) : Prop :=
  match r with
  | Tx.Deposit _ _ => False
  | Tx.Withdraw uid amount =>
      exists user,
        select_user_by_id uid t = Some user /\ js_lt (balance user) amount = true
  | Tx.Transfer fromUserId toUsername amount =>
      exists toUser fromUser,
        select_user_by_name toUsername t = Some toUser /\
        select_user_by_id fromUserId t = Some fromUser /\
        js_lt (balance fromUser) amount = true
  end.

Definition amount_of (r : Tx.request) : jsval :=
  match r with
  | Tx.Deposit _ amount | Tx.Withdraw _ amount | Tx.Transfer _ _ amount => amount
  end.

(** Ways an amount can be unfit, in the words of the error taxonomy. *)
Definition missing (amount : jsval) : Prop :=
  amount = JUndefined \/ amount = JNull.
Definition non_numeric (amount : jsval) : Prop :=
  num_is_nan (Number amount) = true.
Definition non_positive (amount : jsval) : Prop :=
  num_leb (Number amount) zero = true.
Definition not_finite (amount : jsval) : Prop :=
  num_is_finite (Number amount) = false.

(** Requests whose amount is [unfit] are answered 400 before any statement is
    sent: the world, trace included, is untouched. *)
Definition rejects_up_front (unfit : jsval -> Prop) : Prop :=
  forall (e : env) (r : Tx.request) (w : world),
    unfit (amount_of r) ->
    exists msg,
      run e (Tx.handle r) w = (Returned (mkResponse 400 (Error msg)), w).

(** The display name a history row resolves to. *)
Definition name_of (us : list user) (k : option Z) : option string :=
  match k with
  | Some i => option_map username (find (has_id i) us)
  | None => None
  end.

Definition enrich (us : list user) (r : tx_row) : tx_view :=
  mkView r (name_of us (from_user r)) (name_of us (to_user r)).

(** The rows a participant filter keeps. *)
Definition appears (userId : option Z) (r : tx_row) : bool :=
  match userId with
  | Some i => participates i r
  | None => true
  end.

Definition newer_or_same (a b : tx_view) : Prop :=
  created_at (v_row b) <= created_at (v_row a).

(** [id] is the PRIMARY KEY of [users]. *)
Definition primary_key (t : tables) : Prop := NoDup (map user_id (users t)).

(** Every complete interleaving of the handlers of [rs] ends with the users
    table some one-after-the-other order of [rs] would produce. *)
Definition serializable (e : env) (rs : list Tx.request) (w : world) : Prop :=
  forall schedule ps' w',
    run_schedule e schedule (map Tx.handle rs) w = (ps', w') ->
    forallb finished ps' = true ->
    exists order,
      Permutation order rs /\
      users (live (db w')) = users (live (db (Tx.serve e order w))).

(** ** Vocabulary for whole runs *)

(** What identifies an account: everything but its balance. *)
Definition identity (u : user) : Z * string * string :=
  (user_id u, username u, password u).

Definition accounts (t : tables) : list (Z * string * string) :=
  map identity (users t).

(** The accounts are [U], in the current contents and in the contents a
    ROLLBACK would restore. *)
Definition accounts_are (U : list (Z * string * string)) (c : conn) : Prop :=
  accounts (live c) = U /\ forall s, saved c = Some s -> accounts s = U.

(** Row ids of the history grow strictly along the table and stay below the
    AUTOINCREMENT counter. *)
Definition ids_increase (t : tables) : Prop :=
  StronglySorted Z.lt (map tx_id (transactions t)) /\
  Forall (fun i => i <= tx_seq t) (map tx_id (transactions t)).

Definition log_in_order (c : conn) : Prop :=
  ids_increase (live c) /\ forall s, saved c = Some s -> ids_increase s.

(** A property of the connection that every statement keeps. *)
Definition kept_by_statements (I : conn -> Prop) : Prop :=
  forall (X : Type) (s : stmt X) (now : Z) (c : conn),
    I c -> I (snd (sql now s c)).

(** Requests to the server without transactions. *)
Inductive simple_request : Type :=
| SDeposit (uid : Z) (amount : jsval)
| SWithdraw (uid : Z) (amount : jsval)
| STransfer (uid : Z) (toUsername : option string) (amount : jsval).

Definition simple_handle (r : simple_request) : prog response :=
  match r with
  | SDeposit uid amount => Simple.deposit uid amount
  | SWithdraw uid amount => Simple.withdraw uid amount
  | STransfer uid toUsername amount => Simple.transfer uid toUsername amount
  end.

(** The [type] column a route writes. *)
Definition type_of (r : Tx.request) : tx_type :=
  match r with
  | Tx.Deposit _ _ => TDeposit
  | Tx.Withdraw _ _ => TWithdraw
  | Tx.Transfer _ _ _ => TTransfer
  end.

(** ** The demonstration route

    [POST /api/transfer-fail] debits the sender, writes a row and then throws
    on purpose.  Its second INSERT goes through [runAsync] with the ids as
    they are; the statement model writes NULL for an id of 0 where that
    INSERT writes 0, a value no AUTOINCREMENT id takes. *)

Module Demo.

Definition simulated : string :=
  "Simulated mid-transaction failure — testing rollback".

Definition transfer_fail (fromUserId : Z) (toUsername : option string)
    (amount : jsval) : prog response :=
  if negb (truthy_str toUsername) || negb (truthy amount) || isNaN amount
     || js_le amount (JNum zero)
  then res_status_json 400 (Error "Invalid input")
  else
    catch
      (toUser <- findUserByUsername toUsername ;;
       match toUser with
       | None => res_status_json 404 (Error "Recipient not found")
       | Some toUser =>
           execAsync BEGIN ;;
           fromUser <- getAsync (SELECT_user_by_id fromUserId) ;;
           match fromUser with
           | None =>
               execAsync ROLLBACK ;;
               res_status_json 404 (Error "Sender not found")
           | Some fromUser =>
               if js_lt (balance fromUser) amount then
                 insertTransactionRecord
                   (mkParams TTransfer (Some fromUserId) (Some (user_id toUser))
                      amount Rolledback
                      (NoteText "insufficient funds (fail demo)")) ;;
                 execAsync ROLLBACK ;;
                 res_status_json 400 (Error "Insufficient funds")
               else
                 let newFromBal :=
                   num_sub (Number (balance fromUser)) (Number amount) in
                 runAsync (UPDATE_balance newFromBal (user_id fromUser)) ;;
                 await
                   (INSERT_transaction
                      (mkParams TTransfer (Some (user_id fromUser))
                         (Some (user_id toUser)) amount Rolledback
                         (NoteText "simulated failure mid-transaction"))) ;;
                 raise simulated
           end
       end)
      (fun err =>
         catch (execAsync ROLLBACK) (fun rbErr => ret tt) ;;
         res_status_json 500
           (Error "Simulated failure occurred — transaction rolled back")).

End Demo.

(** The input test of the routes without transactions. *)
Definition simple_accepted (amount : jsval) : Prop :=
  negb (truthy amount) || js_le amount (JNum zero) = false.

(** The caller of a request to the server without transactions has no row,
    while the request passes the input test and, for a transfer, names an
    existing recipient. *)
Definition caller_missing (r : simple_request) (t : tables) : Prop :=
  match r with
  | SDeposit uid amount | SWithdraw uid amount =>
      simple_accepted amount /\ select_user_by_id uid t = None
  | STransfer uid toUsername amount =>
      truthy_str toUsername = true /\ simple_accepted amount /\
      select_user_by_id uid t = None /\
      select_user_by_name toUsername t <> None
  end.

(** ** Accounts and sessions

    The routes that create accounts and sessions lean on two libraries:
    bcrypt ([hash], salted, so its result is an input here, and [compare])
    and jsonwebtoken ([sign] and [verify]).  They are parameters of the
    model.  These routes send one statement at a time, outside any
    transaction, and are written by explicit state passing over the tables;
    [fails k] tells whether the [k]-th awaited call of the handler rejects. *)

Module Auth.

(** What a token carries: [{ id, username }]. *)
Record payload : Type := mkPayload {
  pl_id : Z;
  pl_username : string
}.

Record library : Type := mkLibrary {
  hashed : string;                        (* what bcrypt.hash resolves to *)
  compare : string -> string -> bool;     (* bcrypt.compare(password, hash) *)
  sign : payload -> string;               (* jwt.sign(payload, secret, 1h) *)
  verify : string -> option payload;      (* jwt.verify(token, secret) *)
  fails : nat -> bool
}.

(** [s.split(sep)] for a one-character separator. *)
Fixpoint split (sep : Ascii.ascii) (s : string) : list string :=
  match s with
  | EmptyString => [EmptyString]
  | String c s' =>
      if Ascii.eqb c sep then EmptyString :: split sep s'
      else
        match split sep s' with
        | [] => [String c EmptyString]
        | h :: t => String c h :: t
        end
  end.

Definition space : Ascii.ascii := Ascii.Ascii false false false false false true false false.

(** [req.headers.authorization] as a string, read once it is known to be
    present. *)
Definition header (authorization : option string) : string :=
  match authorization with Some a => a | None => EmptyString end.

(** What a middleware does with the request: let it through with
    [req.user], or answer itself. *)
Inductive verdict : Type :=
| Next (user : payload)
| Deny (r : response).

(** [authMiddleware] of the transactional server. *)
Definition authMiddleware (lib : library) (authorization : option string) : verdict :=
  if negb (truthy_str authorization)
  then Deny (mkResponse 401 (Error "Missing Authorization header"))
  else
    let parts := split space (header authorization) in
    if negb (Nat.eqb (List.length parts) 2)
    then Deny (mkResponse 401 (Error "Invalid Authorization header"))
    else
      let token := nth 1 parts EmptyString in
      match verify lib token with
      | None => Deny (mkResponse 401 (Error "Invalid or expired token"))
      | Some decoded => Next decoded
      end.

(** [authMiddleware] of the server without transactions: the second piece
    of the header, whatever follows it; [jwt.verify] refuses a missing
    token. *)
Definition authMiddleware_simple (lib : library) (authorization : option string)
  : verdict :=
  if negb (truthy_str authorization)
  then Deny (mkResponse 401 (Error "Missing token"))
  else
    let parts := split space (header authorization) in
    match nth_error parts 1 with
    | None => Deny (mkResponse 401 (Error "Invalid token"))
    | Some token =>
        match verify lib token with
        | None => Deny (mkResponse 401 (Error "Invalid token"))
        | Some decoded => Next decoded
        end
    end.

(** The rowid AUTOINCREMENT gives the next row of [users]: one more than the
    largest id used so far, which is the largest id in the table since no
    route deletes a user. *)
Definition next_user_id (t : tables) : Z :=
  fold_right Z.max 0 (map user_id (users t)) + 1.

(** [INSERT INTO users (username, password, balance) VALUES (?, ?, 0)]. *)
Definition insert_user (name pass : string) (t : tables) : (Z + string) * tables :=
  if existsb (has_name name) (users t) then
    (inr "SQLITE_CONSTRAINT: UNIQUE constraint failed: users.username"%string, t)
  else
    let i := next_user_id t in
    (inl i,
     mkTables (users t ++ [mkUser i name pass zero]) (transactions t) (tx_seq t)).

(** Bodies of the answers of register and login. *)
Inductive session_json : Type :=
| Failure (error : string)
| Session (token : string) (id : Z) (name : string) (balance : jsval).

Record session_response : Type := mkSession {
  s_code : Z;
  s_body : session_json
}.

Definition signToken (lib : library) (u_id : Z) (u_name : string) : string :=
  sign lib (mkPayload u_id u_name).

Definition server_error : session_response :=
  mkSession 500 (Failure "server error").

(** A body field as a string; only read once it is known to be present. *)
Definition text (s : option string) : string :=
  match s with Some a => a | None => EmptyString end.

Definition row_username (u : user) : string := username u.
Definition row_password (u : user) : string := password u.

(** [POST /api/register], body [{ username, password }]. *)
Definition register (lib : library) (username password : option string)
    (t : tables) : session_response * tables :=
  if negb (truthy_str username) || negb (truthy_str password)
  then (mkSession 400 (Failure "username & password required"), t)
  else if fails lib 0 then (server_error, t)
  else
    match select_user_by_name username t with
    | Some existing => (mkSession 409 (Failure "username taken"), t)
    | None =>
        if fails lib 1 then (server_error, t)
        else if fails lib 2 then (server_error, t)
        else
          match insert_user (text username) (hashed lib) t with
          | (inl lastID, t') =>
              (mkSession 200
                 (Session (signToken lib lastID (text username)) lastID
                    (text username) (JNum zero)),
               t')
          | (inr err, t') => (server_error, t')
          end
    end.

(** [POST /api/login], body [{ username, password }].  [bcrypt.compare]
    rejects when the password is missing. *)
Definition login (lib : library) (username password : option string)
    (t : tables) : session_response :=
  if fails lib 0 then server_error
  else
    match select_user_by_name username t with
    | None => mkSession 401 (Failure "Invalid credentials")
    | Some user =>
        match password with
        | None => server_error
        | Some pass =>
            if fails lib 1 then server_error
            else if negb (compare lib pass (row_password user))
            then mkSession 401 (Failure "Invalid credentials")
            else
              mkSession 200
                (Session (signToken lib (user_id user) (row_username user))
                   (user_id user) (row_username user) (balance user))
        end
    end.

(** [INSERT OR IGNORE INTO users (id, username, password, balance) VALUES
    (...)]: nothing happens when the id or the username is taken. *)
Definition insert_or_ignore (u : user) (t : tables) : tables :=
  if existsb (has_id (user_id u)) (users t)
     || existsb (has_name (row_username u)) (users t)
  then t
  else mkTables (users t ++ [u]) (transactions t) (tx_seq t).

(** The two demo users of [initDb], when its statements go through; the
    tables exist already or are created empty. *)
Definition initDb (aliceHash bobHash : string) (t : tables) : tables :=
  insert_or_ignore (mkUser 2 "bob" bobHash (of_Z 500))
    (insert_or_ignore (mkUser 1 "alice" aliceHash (of_Z 1000)) t).

End Auth.

Definition empty_tables : tables := mkTables [] [] 0.

(** No character of [s] is [c]. *)
Fixpoint free_of (c : Ascii.ascii) (s : string) : bool :=
  match s with
  | EmptyString => true
  | String d s' => negb (Ascii.eqb d c) && free_of c s'
  end.

(** [pieces.join(sep)]. *)
Fixpoint join (sep : Ascii.ascii) (pieces : list string) : string :=
  match pieces with
  | [] => EmptyString
  | [p] => p
  | p :: rest => (p ++ String sep (join sep rest))%string
  end.

(** [username] is UNIQUE in [users]. *)
Definition usernames_unique (t : tables) : Prop :=
  NoDup (map username (users t)).

(** The id or the username of [u] is in use. *)
Definition taken (u : user) (t : tables) : bool :=
  existsb (has_id (user_id u)) (users t)
  || existsb (has_name (Auth.row_username u)) (users t).

(** Requests to the server without transactions, one after the other; a
    handler that ends with an exception leaves the connection as it is. *)
Fixpoint simple_serve (e : env) (rs : list simple_request) (w : world) : world :=
  match rs with
  | [] => w
  | r :: rs' => simple_serve e rs' (snd (run e (simple_handle r) w))
  end.

(** ** Scenarios on the initial database *)

(** alice 1000, bob 500; alice transfers 200 to bob. *)
Example transfer_200 :
  let res := run calm (Tx.transfer 1 (Some "bob"%string) (JNum (of_Z 200)))
               initial_world in
  fst res = Returned (mkResponse 200 (Balances (of_Z 800) (of_Z 700))) /\
  balance_of 1 (live (db (snd res))) = of_Z 800 /\
  balance_of 2 (live (db (snd res))) = of_Z 700 /\
  map status (transactions (live (db (snd res)))) = [Committed].
Proof. vm_compute. repeat split; reflexivity. Qed.

(** A deposit of 150 by bob. *)
Example deposit_150 :
  let res := run calm (Tx.deposit_tx 2 (JNum (of_Z 150))) initial_world in
  fst res = Returned (mkResponse 200 (Balance (of_Z 650))) /\
  map (fun r => (type r, from_user r, to_user r, status r))
    (transactions (live (db (snd res)))) = [(TDeposit, None, Some 2, Committed)].
Proof. vm_compute. repeat split; reflexivity. Qed.

(** A withdrawal above the balance: refused, and the history stays empty. *)
Example withdraw_2000 :
  run calm (Tx.withdraw_tx 1 (JNum (of_Z 2000))) initial_world =
  (Returned (mkResponse 400 (Error "Insufficient funds")),
   mkWorld (db initial_world)
     [(KBegin, true); (KSelect, true); (KInsert, true); (KRollback, true)]).
Proof. vm_compute. reflexivity. Qed.

(** A statement that fails in the middle of a transfer (here the second
    UPDATE): balances are restored and one rolled-back row is written after
    the ROLLBACK. *)
Example transfer_fault :
  let e := mkEnv (fun n => Nat.eqb n 5) (fun n => Z.of_nat n) in
  let res := run e (Tx.transfer 1 (Some "bob"%string) (JNum (of_Z 200)))
               initial_world in
  fst res = Returned (mkResponse 500 (Error "Transfer failed, rolled back")) /\
  users (live (db (snd res))) = users initial_tables /\
  map (fun r => (status r, note r)) (transactions (live (db (snd res)))) =
    [(Rolledback, NoteError "SQLITE_IOERR: disk I/O error")].
Proof. vm_compute. repeat split; reflexivity. Qed.

(** ** Facts about numbers *)

Lemma Qltb_lt (x y : Q) : Qltb x y = true <-> (x < y)%Q.
Proof.
  unfold Qltb. rewrite negb_true_iff.
  split; intros H.
  - apply Qnot_le_lt. intros Hle. apply Qle_bool_iff in Hle. congruence.
  - destruct (Qle_bool y x) eqn:E; [|reflexivity].
    apply Qle_bool_iff in E. exfalso. apply (Qlt_not_le x y); assumption.
Qed.

Lemma Qltb_ge (x y : Q) : Qltb x y = false <-> (y <= x)%Q.
Proof.
  unfold Qltb. rewrite negb_false_iff. apply Qle_bool_iff.
Qed.

Lemma positive_accepted (amount : jsval) : positive amount <-> accepted amount.
Proof.
  unfold positive, accepted, isNaN, js_le.
  destruct amount as [| |[|]|[| | |q]]; cbn; try (split; congruence).
  rewrite Qltb_lt. unfold Qltb.
  split.
  - intros H. destruct (Qeq_bool q 0) eqn:E.
    + apply Qeq_bool_iff in E. exfalso. lra.
    + cbn. destruct (Qle_bool q 0) eqn:E'; [|reflexivity].
      apply Qle_bool_iff in E'. exfalso. lra.
  - intros H. apply orb_false_iff in H. destruct H as [_ H].
    apply Qnot_le_lt. intros Hle. apply Qle_bool_iff in Hle. congruence.
Qed.

Lemma accepted_bind (amount : jsval) :
  accepted amount ->
  bind_amount amount = Number amount /\ num_is_nan (Number amount) = false.
Proof.
  unfold accepted, isNaN.
  destruct amount as [| |[|]|[| | |q]]; cbn; try discriminate; auto.
Qed.

(** ** Rounding returns the nearest binary64 value, ties going to even *)

Lemma two_pow_pos (e : Z) : (0 < 2 ^ e)%Q.
Proof. apply Qpower_0_lt. reflexivity. Qed.

Lemma two_pow_add (a b : Z) : (2 ^ (a + b) == 2 ^ a * 2 ^ b)%Q.
Proof. apply Qpower_plus. discriminate. Qed.

Lemma two_pow_Z (e : Z) : 0 <= e -> (inject_Z (2 ^ e) == 2 ^ e)%Q.
Proof. intros He. apply (Zpower_Qpower 2 e He). Qed.

Lemma two_pow_le (a b : Z) : a <= b -> (2 ^ a <= 2 ^ b)%Q.
Proof. intros H. apply Qpower_le_compat_l; [exact H|discriminate]. Qed.

Lemma two_pow_lt (a b : Z) : a < b -> (2 ^ a < 2 ^ b)%Q.
Proof. intros H. apply Qpower_lt_compat_l; [exact H|reflexivity]. Qed.

Lemma two_pow_succ (a : Z) : (2 ^ (a + 1) == 2 * 2 ^ a)%Q.
Proof. rewrite two_pow_add. change (2 ^ 1)%Q with 2%Q. ring. Qed.

Lemma round_half_even_near (N D : Z) :
  0 < D -> - D <= 2 * (N - round_half_even N D * D) <= D.
Proof.
  intros HD. unfold round_half_even.
  pose proof (Z.div_mod N D ltac:(lia)) as Hdm.
  pose proof (Z.mod_pos_bound N D HD) as Hm.
  set (f := N / D) in *. set (m := N mod D) in *.
  destruct (Z.compare_spec (2 * m) D); [destruct (Z.even f)|..]; lia.
Qed.

Lemma round_half_even_tie (N D : Z) :
  0 < D -> 2 * Z.abs (N - round_half_even N D * D) = D ->
  Z.even (round_half_even N D) = true.
Proof.
  intros HD. unfold round_half_even.
  pose proof (Z.div_mod N D ltac:(lia)) as Hdm.
  pose proof (Z.mod_pos_bound N D HD) as Hm.
  set (f := N / D) in *. set (m := N mod D) in *.
  destruct (Z.compare_spec (2 * m) D); [destruct (Z.even f) eqn:Hf|..];
    intros Htie; try lia.
  - exact Hf.
  - rewrite Z.even_add, Hf. reflexivity.
Qed.

Lemma scale_le (a b c : Q) : (0 < c -> a * c <= b * c -> a <= b)%Q.
Proof. intros Hc H. apply (Qmult_le_r a b c Hc). exact H. Qed.

Lemma scale_lt (a b c : Q) : (0 < c -> a * c < b * c -> a < b)%Q.
Proof. intros Hc H. apply (Qmult_lt_r a b c Hc). exact H. Qed.

Ltac to_Q H :=
  first [rewrite Zle_Qle in H | rewrite Zlt_Qlt in H];
  unfold Z.sub in H;
  repeat first [ rewrite inject_Z_plus in H | rewrite inject_Z_mult in H
               | rewrite inject_Z_opp in H ].

Lemma scaled_near (N D k : Z) (x P c : Q) :
  (0 < c)%Q -> (inject_Z N == x * c)%Q -> (inject_Z D == P * c)%Q ->
  - D <= 2 * (N - k * D) <= D ->
  (Qabs (x - inject_Z k * P) <= P / 2)%Q.
Proof.
  intros Hc HN HD [Hlo Hhi].
  to_Q Hlo. to_Q Hhi. rewrite HN, HD in Hlo, Hhi.
  assert (Hh : (P / 2 == P * (1 # 2))%Q) by (unfold Qdiv; reflexivity).
  rewrite Hh.
  apply Qabs_Qle_condition. split.
  - apply (scale_le _ _ c Hc). change (inject_Z 2) with 2%Q in *. lra.
  - apply (scale_le _ _ c Hc). change (inject_Z 2) with 2%Q in *. lra.
Qed.

Lemma scaled_tie (N D k : Z) (x P c : Q) :
  (0 < c)%Q -> (inject_Z N == x * c)%Q -> (inject_Z D == P * c)%Q ->
  (Qabs (x - inject_Z k * P) == P / 2)%Q ->
  2 * Z.abs (N - k * D) = D.
Proof.
  intros Hc HN HD H.
  assert (Hh : (P / 2 == P * (1 # 2))%Q) by (unfold Qdiv; reflexivity).
  rewrite Hh in H.
  assert (E : (inject_Z (N - k * D) == (x - inject_Z k * P) * c)%Q).
  { unfold Z.sub. rewrite inject_Z_plus, inject_Z_opp, inject_Z_mult, HN, HD.
    ring. }
  apply inject_Z_injective.
  rewrite inject_Z_mult.
  change (inject_Z (Z.abs (N - k * D))) with (Qabs (inject_Z (N - k * D))).
  rewrite E, Qabs_Qmult, H, HD.
  rewrite (Qabs_pos c) by (apply Qlt_le_weak; exact Hc).
  change (inject_Z 2) with 2%Q. ring.
Qed.

Lemma two_pow_cancel (e : Z) : (2 ^ e * 2 ^ (- e) == 1)%Q.
Proof. rewrite <- two_pow_add. rewrite Z.add_opp_diag_r. reflexivity. Qed.

Lemma at_least_pow_iff (e n d : Z) (x : Q) :
  0 < d -> (inject_Z n == x * inject_Z d)%Q ->
  at_least_pow e n d = true <-> (2 ^ e <= x)%Q.
Proof.
  intros Hd Hx. unfold at_least_pow.
  assert (Hdq : (0 < inject_Z d)%Q) by (change 0%Q with (inject_Z 0); rewrite <- Zlt_Qlt; exact Hd).
  pose proof (two_pow_pos e) as Hp. pose proof (two_pow_pos (- e)) as Hm.
  pose proof (two_pow_cancel e) as Hc.
  destruct (0 <=? e) eqn:He.
  - apply Z.leb_le in He. rewrite Z.leb_le, Zle_Qle, inject_Z_mult.
    rewrite (two_pow_Z e He), Hx. split; intros H.
    + apply (scale_le _ _ (inject_Z d) Hdq). lra.
    + apply (Qmult_le_r _ _ (inject_Z d) Hdq) in H. lra.
  - apply Z.leb_gt in He. rewrite Z.leb_le, Zle_Qle, inject_Z_mult.
    rewrite (two_pow_Z (- e)) by lia. rewrite Hx.
    set (P := (2 ^ e)%Q) in *. set (M := (2 ^ (- e))%Q) in *.
    set (c := inject_Z d) in *.
    split; intros H.
    + apply (scale_le _ _ (c * M)).
      * apply Qmult_lt_0_compat; assumption.
      * setoid_replace (P * (c * M))%Q with (c * (P * M))%Q by ring.
        rewrite Hc. lra.
    + apply (Qmult_le_r _ _ (c * M)) in H.
      * setoid_replace (P * (c * M))%Q with (c * (P * M))%Q in H by ring.
        rewrite Hc in H. lra.
      * apply Qmult_lt_0_compat; assumption.
Qed.

Lemma log2_bounds (n : Z) :
  0 < n -> (2 ^ Z.log2 n <= inject_Z n < 2 ^ (Z.log2 n + 1))%Q.
Proof.
  intros Hn. pose proof (Z.log2_spec n Hn) as [Hlo Hhi].
  pose proof (Z.log2_nonneg n) as H0.
  rewrite Zle_Qle in Hlo. rewrite Zlt_Qlt in Hhi.
  rewrite two_pow_Z in Hlo by exact H0.
  replace (Z.succ (Z.log2 n)) with (Z.log2 n + 1) in Hhi by lia.
  rewrite two_pow_Z in Hhi by lia.
  split; assumption.
Qed.

Lemma floor_log2_spec (n d : Z) (x : Q) :
  0 < n -> 0 < d -> (inject_Z n == x * inject_Z d)%Q ->
  (2 ^ floor_log2 n d <= x < 2 ^ (floor_log2 n d + 1))%Q.
Proof.
  intros Hn Hd Hx. unfold floor_log2.
  pose proof (log2_bounds n Hn) as [Hn1 Hn2].
  pose proof (log2_bounds d Hd) as [Hd1 Hd2].
  set (a := Z.log2 n) in *. set (b := Z.log2 d) in *.
  assert (Hdq : (0 < inject_Z d)%Q) by (change 0%Q with (inject_Z 0); rewrite <- Zlt_Qlt; exact Hd).
  rewrite Hx in Hn1, Hn2. set (c := inject_Z d) in *.
  assert (Hlow : (2 ^ (a - b - 1) <= x)%Q).
  { apply (scale_le _ _ c Hdq).
    pose proof (two_pow_add (a - b - 1) (b + 1)) as E.
    replace (a - b - 1 + (b + 1)) with a in E by lia.
    pose proof (two_pow_pos (a - b - 1)) as Hp.
    apply Qle_trans with (2 ^ (a - b - 1) * 2 ^ (b + 1))%Q.
    - apply Qmult_le_l; [exact Hp|]. apply Qlt_le_weak. exact Hd2.
    - rewrite <- E. exact Hn1. }
  assert (Hhigh : (x < 2 ^ (a - b + 1))%Q).
  { apply (scale_lt _ _ c Hdq).
    pose proof (two_pow_add (a - b + 1) b) as E.
    replace (a - b + 1 + b) with (a + 1) in E by lia.
    pose proof (two_pow_pos (a - b + 1)) as Hp.
    apply Qlt_le_trans with (2 ^ (a - b + 1) * 2 ^ b)%Q.
    - rewrite <- E. exact Hn2.
    - apply Qmult_le_l; [exact Hp|]. exact Hd1. }
  destruct (at_least_pow (a - b) n d) eqn:Hc.
  - apply (at_least_pow_iff _ _ _ x Hd Hx) in Hc. split; assumption.
  - replace (a - b - 1 + 1) with (a - b) by lia. split; [exact Hlow|].
    apply Qnot_le_lt. intros H.
    apply (at_least_pow_iff _ _ _ x Hd Hx) in H. congruence.
Qed.

Lemma Zpos_Qpos (z : Z) : 0 < z -> (0 < inject_Z z)%Q.
Proof. intros H. change 0%Q with (inject_Z 0). rewrite <- Zlt_Qlt. exact H. Qed.

(** [round_pos] returns [k * 2^s] for an integer [k] within half a step of
    [x / 2^s]. *)
Lemma round_pos_cases (n d : Z) (x : Q) :
  0 < n -> 0 < d -> (inject_Z n == x * inject_Z d)%Q ->
  let s := Z.max (floor_log2 n d) (-1022) - 52 in
  exists k : Z,
    (Qabs (x - inject_Z k * 2 ^ s) <= 2 ^ s / 2)%Q /\
    ((Qabs (x - inject_Z k * 2 ^ s) == 2 ^ s / 2)%Q -> Z.even k = true) /\
    ((round_pos n d = PInf /\ 0 <= s /\ (2 ^ 1024 <= inject_Z k * 2 ^ s)%Q) \/
     (exists r : Q,
        round_pos n d = Fin r /\ (r == inject_Z k * 2 ^ s)%Q /\
        (0 <= s -> (inject_Z k * 2 ^ s < 2 ^ 1024)%Q))).
Proof.
  intros Hn Hd Hx s. unfold round_pos. fold s.
  pose proof (Zpos_Qpos d Hd) as Hdq.
  destruct (0 <=? s) eqn:Hs.
  - apply Z.leb_le in Hs.
    assert (HD : (inject_Z (d * 2 ^ s) == 2 ^ s * inject_Z d)%Q).
    { rewrite inject_Z_mult, (two_pow_Z s Hs). ring. }
    assert (HDpos : 0 < d * 2 ^ s).
    { apply Z.mul_pos_pos; [exact Hd|]. apply Z.pow_pos_nonneg; lia. }
    exists (round_half_even n (d * 2 ^ s)). split; [|split].
    + apply (scaled_near n (d * 2 ^ s) _ x _ (inject_Z d) Hdq Hx HD).
      apply round_half_even_near. exact HDpos.
    + intros Htie. apply (round_half_even_tie _ _ HDpos).
      apply (scaled_tie n (d * 2 ^ s) _ x _ (inject_Z d) Hdq Hx HD Htie).
    + set (k := round_half_even n (d * 2 ^ s)).
      destruct (2 ^ 1024 <=? k * 2 ^ s) eqn:Ho.
      * left. split; [reflexivity|]. split; [exact Hs|].
        apply Z.leb_le in Ho. rewrite Zle_Qle, inject_Z_mult in Ho.
        rewrite (two_pow_Z s Hs) in Ho.
        rewrite (two_pow_Z 1024) in Ho by lia. exact Ho.
      * right. exists (inject_Z (k * 2 ^ s)). split; [reflexivity|]. split.
        -- rewrite inject_Z_mult, (two_pow_Z s Hs). reflexivity.
        -- intros _. apply Z.leb_gt in Ho. rewrite Zlt_Qlt, inject_Z_mult in Ho.
           rewrite (two_pow_Z s Hs) in Ho.
           rewrite (two_pow_Z 1024) in Ho by lia. exact Ho.
  - apply Z.leb_gt in Hs.
    assert (Hm : 0 < 2 ^ (- s)) by (apply Z.pow_pos_nonneg; lia).
    pose proof (two_pow_cancel s) as Hc.
    pose proof (two_pow_pos s) as Hp. pose proof (two_pow_pos (- s)) as Hq.
    assert (Hcq : (0 < inject_Z d * 2 ^ (- s))%Q)
      by (apply Qmult_lt_0_compat; assumption).
    assert (HN : (inject_Z (n * 2 ^ (- s)) == x * (inject_Z d * 2 ^ (- s)))%Q).
    { rewrite inject_Z_mult, (two_pow_Z (- s)) by lia. rewrite Hx. ring. }
    assert (HD : (inject_Z d == 2 ^ s * (inject_Z d * 2 ^ (- s)))%Q).
    { setoid_replace (2 ^ s * (inject_Z d * 2 ^ (- s)))%Q
        with (inject_Z d * (2 ^ s * 2 ^ (- s)))%Q by ring.
      rewrite Hc. ring. }
    exists (round_half_even (n * 2 ^ (- s)) d). split; [|split].
    + apply (scaled_near (n * 2 ^ (- s)) d _ x _ _ Hcq HN HD).
      apply round_half_even_near. exact Hd.
    + intros Htie. apply (round_half_even_tie _ _ Hd).
      apply (scaled_tie (n * 2 ^ (- s)) d _ x _ _ Hcq HN HD Htie).
    + right. eexists. split; [reflexivity|]. split; [|lia].
      rewrite Qred_correct, Qmake_Qdiv, Z2Pos.id by exact Hm.
      rewrite (two_pow_Z (- s)) by lia.
      unfold Qdiv.
      setoid_replace (/ 2 ^ (- s))%Q with (2 ^ s)%Q; [reflexivity|].
      rewrite Qpower_opp. apply Qinv_involutive.
Qed.

Lemma nearest_multiple (x P : Q) (k j : Z) :
  (0 < P)%Q -> (Qabs (x - inject_Z k * P) <= P / 2)%Q ->
  (Qabs (x - inject_Z k * P) <= Qabs (x - inject_Z j * P))%Q.
Proof.
  intros HP Hk.
  assert (Hh : (P / 2 == P * (1 # 2))%Q) by (unfold Qdiv; reflexivity).
  rewrite Hh in Hk.
  destruct (Z.eq_dec j k) as [->|Hjk]; [apply Qle_refl|].
  eapply Qle_trans; [exact Hk|].
  apply Qabs_Qle_condition in Hk. destruct Hk as [Hlo Hhi].
  destruct (Z_lt_le_dec j k) as [Hlt|Hge].
  - assert (H : (inject_Z j * P <= inject_Z k * P - P)%Q).
    { assert (Hz : j <= k + - (1)) by lia. to_Q Hz.
      apply (Qmult_le_r _ _ P HP) in Hz.
      change (inject_Z 1) with 1%Q in Hz. lra. }
    eapply Qle_trans; [|apply Qle_Qabs]. lra.
  - assert (H : (inject_Z k * P + P <= inject_Z j * P)%Q).
    { assert (Hz : k + 1 <= j) by lia. to_Q Hz.
      apply (Qmult_le_r _ _ P HP) in Hz.
      change (inject_Z 1) with 1%Q in Hz. lra. }
    rewrite <- Qabs_opp. eapply Qle_trans; [|apply Qle_Qabs]. lra.
Qed.

Lemma below_pow_Z (k e : Z) (P : Q) :
  0 <= e -> (0 < P)%Q -> (inject_Z k * P < 2 ^ e * P + P * (1 # 2))%Q ->
  k <= 2 ^ e.
Proof.
  intros He HP H.
  assert (Hq : (inject_Z k < inject_Z (2 ^ e) + 1)%Q).
  { rewrite (two_pow_Z e He). apply (scale_lt _ _ P HP). lra. }
  change 1%Q with (inject_Z 1) in Hq.
  rewrite <- inject_Z_plus, <- Zlt_Qlt in Hq. lia.
Qed.

Lemma above_pow_Z (k e : Z) (P : Q) :
  0 <= e -> (0 < P)%Q -> (2 ^ e * P - P * (1 # 2) <= inject_Z k * P)%Q ->
  2 ^ e <= k.
Proof.
  intros He HP H.
  assert (Hq : (inject_Z (2 ^ e) + - inject_Z 1 < inject_Z k)%Q).
  { rewrite (two_pow_Z e He). apply (scale_lt _ _ P HP).
    change (inject_Z 1) with 1%Q. lra. }
  rewrite <- inject_Z_opp, <- inject_Z_plus, <- Zlt_Qlt in Hq. lia.
Qed.

Lemma nonneg_Z (k : Z) (P : Q) :
  (0 < P)%Q -> (- (P * (1 # 2)) <= inject_Z k * P)%Q -> 0 <= k.
Proof.
  intros HP H.
  assert (Hq : (inject_Z (- (1)) < inject_Z k)%Q).
  { apply (scale_lt _ _ P HP). change (inject_Z (- (1))) with (- (1))%Q. lra. }
  rewrite <- Zlt_Qlt in Hq. lia.
Qed.

#[local] Instance binary64_comp : Proper (Qeq ==> iff) binary64.
Proof.
  intros x y E. unfold binary64.
  split; intros (k & e & Hk & He & H); exists k, e;
    (split; [exact Hk|split; [exact He|]]).
  - apply Qeq_trans with x; [apply Qeq_sym; exact E|exact H].
  - apply Qeq_trans with y; assumption.
Qed.

Lemma round_pos_nearest (n d : Z) (x : Q) :
  0 < n -> 0 < d -> (inject_Z n == x * inject_Z d)%Q ->
  nearest64 x (round_pos n d).
Proof.
  intros Hn Hd Hx.
  destruct (round_pos_cases n d x Hn Hd Hx) as (k & Hk & Heven & Hcases).
  destruct (floor_log2_spec n d x Hn Hd Hx) as [Hlo Hhi].
  set (e0 := floor_log2 n d) in *.
  set (s := Z.max e0 (-1022) - 52) in *.
  pose proof (two_pow_pos s) as HP.
  assert (Hh : (2 ^ s / 2 == 2 ^ s * (1 # 2))%Q) by (unfold Qdiv; reflexivity).
  pose proof Hk as Hnear. rewrite Hh in Hk.
  apply Qabs_Qle_condition in Hk. destruct Hk as [Hk1 Hk2].
  assert (Hx0 : (0 < x)%Q).
  { eapply Qlt_le_trans; [apply (two_pow_pos e0)|exact Hlo]. }
  assert (HA : (x < 2 ^ 53 * 2 ^ s)%Q).
  { rewrite <- two_pow_add. eapply Qlt_le_trans; [exact Hhi|].
    apply two_pow_le. lia. }
  assert (HB : k <= 2 ^ 53) by (apply (below_pow_Z k 53 (2 ^ s)%Q); [lia|exact HP|lra]).
  assert (H0 : 0 <= k) by (apply (nonneg_Z k (2 ^ s)%Q HP); lra).
  assert (HC : -1022 <= e0 -> (2 ^ 52 * 2 ^ s <= x)%Q /\ 2 ^ 52 <= k).
  { intros He. assert (Hc : (2 ^ 52 * 2 ^ s <= x)%Q).
    { rewrite <- two_pow_add. replace (52 + s) with e0 by lia. exact Hlo. }
    split; [exact Hc|].
    apply (above_pow_Z k 52 (2 ^ s)%Q); [lia|exact HP|lra]. }
  destruct Hcases as [(-> & Hs & Ho)|(r & -> & Hr & Hfin)]; cbn [nearest64].
  - (* overflow *)
    destruct (HC ltac:(lia)) as [Hc1 Hc2].
    assert (Hs1 : 971 <= s).
    { assert (Hq : (2 ^ 1024 <= 2 ^ (53 + s))%Q).
      { rewrite two_pow_add. eapply Qle_trans; [exact Ho|].
        apply Qmult_le_compat_r; [|apply Qlt_le_weak; exact HP].
        rewrite <- (two_pow_Z 53) by lia. rewrite <- Zle_Qle. exact HB. }
      apply Qpower_le_compat_l_inv in Hq; [lia|reflexivity]. }
    assert (Ht : (overflow_threshold == 2 ^ 1024 - 2 ^ 970)%Q).
    { unfold overflow_threshold, Z.sub.
      rewrite inject_Z_plus, inject_Z_opp, !two_pow_Z by lia. ring. }
    rewrite Ht.
    destruct (Z.eq_dec s 971) as [E|E].
    + rewrite E in *. pose proof (two_pow_succ 970) as E2.
      change (970 + 1) with 971 in E2. pose proof (two_pow_pos 970). lra.
    + assert (Hq : (2 ^ 1024 <= 2 ^ (52 + s))%Q) by (apply two_pow_le; lia).
      rewrite two_pow_add in Hq. pose proof (two_pow_pos 970). lra.
  - (* a finite result *)
    assert (Hs1 : s <= 971).
    { destruct (Z_lt_le_dec s 0) as [|Hs]; [lia|].
      destruct (HC ltac:(lia)) as [Hc1 Hc2]. specialize (Hfin Hs).
      assert (Hq : (2 ^ (52 + s) < 2 ^ 1024)%Q).
      { rewrite two_pow_add. eapply Qle_lt_trans; [|exact Hfin].
        apply Qmult_le_compat_r; [|apply Qlt_le_weak; exact HP].
        rewrite <- (two_pow_Z 52) by lia. rewrite <- Zle_Qle. exact Hc2. }
      apply Qpower_lt_compat_l_inv in Hq; [lia|reflexivity]. }
    split; [|split].
    + rewrite (Qabs_pos x) by (apply Qlt_le_weak; exact Hx0).
      assert (Ht : (overflow_threshold == 2 ^ 1024 - 2 ^ 970)%Q).
      { unfold overflow_threshold, Z.sub.
        rewrite inject_Z_plus, inject_Z_opp, !two_pow_Z by lia. ring. }
      rewrite Ht.
      pose proof (two_pow_succ 1023) as E1. change (1023 + 1) with 1024 in E1.
      pose proof (two_pow_le 970 1023 ltac:(lia)) as E2.
      destruct (Z.eq_dec s 971) as [E|E].
      * rewrite E in *. clear E.
        pose proof (two_pow_succ 970) as E3. change (970 + 1) with 971 in E3.
        pose proof (two_pow_add 53 971) as E4. change (53 + 971) with 1024 in E4.
        specialize (Hfin ltac:(lia)).
        assert (Hk53 : k <= 2 ^ 53 - 1).
        { assert (Hq : (inject_Z k < inject_Z (2 ^ 53))%Q).
          { rewrite (two_pow_Z 53) by lia.
            apply (scale_lt _ _ (2 ^ 971)%Q HP). lra. }
          rewrite <- Zlt_Qlt in Hq. lia. }
        apply Qnot_le_lt. intros Hge.
        assert (Hkq : (inject_Z k * 2 ^ 971 <=
                       (2 ^ 53 - 1) * 2 ^ 971)%Q).
        { apply Qmult_le_compat_r; [|lra].
          assert (Hz : k <= 2 ^ 53 + - (1)) by lia. to_Q Hz.
          rewrite (two_pow_Z 53) in Hz by lia.
          change (inject_Z 1) with 1%Q in Hz. lra. }
        assert (Htie : (Qabs (x - inject_Z k * 2 ^ 971) == 2 ^ 971 / 2)%Q).
        { rewrite Hh. rewrite Qabs_pos by lra. lra. }
        apply Heven in Htie.
        assert (Hk52 : 2 ^ 53 - 1 <= k).
        { assert (Hq : (inject_Z (2 ^ 53) + - inject_Z 1 <= inject_Z k)%Q).
          { rewrite (two_pow_Z 53) by lia. change (inject_Z 1) with 1%Q.
            apply (scale_le _ _ (2 ^ 971)%Q HP). lra. }
          rewrite <- inject_Z_opp, <- inject_Z_plus, <- Zle_Qle in Hq. lia. }
        assert (Ek : k = 2 ^ 53 - 1) by lia.
        rewrite Ek in Htie. discriminate Htie.
      * assert (Hq : (2 ^ (53 + s) <= 2 ^ 1023)%Q) by (apply two_pow_le; lia).
        rewrite two_pow_add in Hq. lra.
    + rewrite Hr. destruct (Z.eq_dec k (2 ^ 53)) as [E|E].
      * exists (2 ^ 52), (s + 1). split; [lia|]. split.
        -- split; [lia|]. destruct (Z_lt_le_dec s 0) as [|Hs]; [lia|].
           specialize (Hfin Hs). rewrite E in Hfin.
           rewrite (two_pow_Z 53) in Hfin by lia.
           rewrite <- two_pow_add in Hfin.
           apply Qpower_lt_compat_l_inv in Hfin; [lia|reflexivity].
        -- rewrite E, two_pow_succ, !two_pow_Z by lia.
           pose proof (two_pow_succ 52) as E2. change (52 + 1) with 53 in E2.
           rewrite E2. ring.
      * exists k, s. split; [lia|]. split; [lia|]. reflexivity.
    + intros y (j & t & Hj & Ht & Hy). rewrite Hy, Hr.
      destruct (Z_le_gt_dec j 0) as [Hj0|Hj0].
      * eapply Qle_trans; [apply (nearest_multiple x _ k 0 HP Hnear)|].
        assert (Hy0 : (inject_Z j * 2 ^ t <= 0)%Q).
        { pose proof (two_pow_pos t) as Hpt.
          setoid_replace 0%Q with (0 * 2 ^ t)%Q by ring.
          apply Qmult_le_compat_r; [|lra].
          change 0%Q with (inject_Z 0). rewrite <- Zle_Qle. exact Hj0. }
        rewrite Qabs_pos by (change (inject_Z 0) with 0%Q; lra).
        eapply Qle_trans; [|apply Qle_Qabs].
        change (inject_Z 0) with 0%Q. lra.
      * destruct (Z_le_gt_dec s t) as [Hst|Hst].
        -- assert (E : (inject_Z j * 2 ^ t ==
                        inject_Z (j * 2 ^ (t - s)) * 2 ^ s)%Q).
           { rewrite inject_Z_mult, two_pow_Z by lia.
             rewrite <- Qmult_assoc, <- two_pow_add.
             replace (t - s + s) with t by lia. reflexivity. }
           rewrite E. apply (nearest_multiple x _ k _ HP Hnear).
        -- destruct (HC ltac:(lia)) as [Hc1 Hc2].
           eapply Qle_trans;
             [apply (nearest_multiple x _ k (2 ^ 52) HP Hnear)|].
           rewrite (two_pow_Z 52) by lia.
           rewrite Qabs_pos by lra.
           eapply Qle_trans; [|apply Qle_Qabs].
           assert (Hy1 : (inject_Z j * 2 ^ t <= 2 ^ 52 * 2 ^ s)%Q).
           { rewrite <- two_pow_add.
             apply Qle_trans with (2 ^ 53 * 2 ^ t)%Q.
             - apply Qmult_le_compat_r;
                 [|apply Qlt_le_weak; apply two_pow_pos].
               rewrite <- (two_pow_Z 53) by lia. rewrite <- Zle_Qle. lia.
             - rewrite <- two_pow_add. apply two_pow_le. lia. }
           lra.
Qed.

Lemma round_pos_ties (n d : Z) (x : Q) :
  0 < n -> 0 < d -> (inject_Z n == x * inject_Z d)%Q ->
  ties_to_even x (round_pos n d).
Proof.
  intros Hn Hd Hx.
  destruct (round_pos_cases n d x Hn Hd Hx) as (k & Hk & Heven & Hcases).
  destruct (floor_log2_spec n d x Hn Hd Hx) as [Hlo Hhi].
  set (e0 := floor_log2 n d) in *.
  set (s := Z.max e0 (-1022) - 52) in *.
  pose proof (two_pow_pos s) as HP.
  assert (Hh : (2 ^ s / 2 == 2 ^ s * (1 # 2))%Q) by (unfold Qdiv; reflexivity).
  pose proof Hk as Hnear. rewrite Hh in Hk.
  apply Qabs_Qle_condition in Hk. destruct Hk as [Hk1 Hk2].
  destruct Hcases as [(-> & _)|(r & -> & Hr & _)]; cbn [ties_to_even];
    [exact I|].
  intros y (j & t & Hj & Ht & Hy) Hne Htie.
  assert (Hne' : ~ (inject_Z j * 2 ^ t == inject_Z k * 2 ^ s)%Q).
  { intros E. apply Hne. rewrite Hy, Hr. exact E. }
  assert (Htie' : (Qabs (x - inject_Z j * 2 ^ t) ==
                   Qabs (x - inject_Z k * 2 ^ s))%Q).
  { rewrite <- Hy, <- Hr. exact Htie. }
  destruct (Z_le_gt_dec s t) as [Hst|Hst].
  - assert (E : (inject_Z j * 2 ^ t ==
                 inject_Z (j * 2 ^ (t - s)) * 2 ^ s)%Q).
    { rewrite inject_Z_mult, two_pow_Z by lia.
      rewrite <- Qmult_assoc, <- two_pow_add.
      replace (t - s + s) with t by lia. reflexivity. }
    set (j' := j * 2 ^ (t - s)) in *.
    rewrite E in Hne', Htie'.
    assert (Hjk : j' <> k) by (intros ->; apply Hne'; reflexivity).
    assert (Hj' : (Qabs (x - inject_Z j' * 2 ^ s) <= 2 ^ s * (1 # 2))%Q).
    { rewrite Htie', <- Hh. exact Hnear. }
    apply Qabs_Qle_condition in Hj'. destruct Hj' as [Hj1 Hj2].
    destruct (Z_lt_le_dec j' k) as [Hlt|Hge].
    + assert (Hstep : (inject_Z j' * 2 ^ s <= inject_Z k * 2 ^ s - 2 ^ s)%Q).
      { assert (Hz : j' <= k + - (1)) by lia. to_Q Hz.
        apply (Qmult_le_r _ _ (2 ^ s)%Q HP) in Hz.
        change (inject_Z 1) with 1%Q in Hz. lra. }
      assert (Hhalf : (Qabs (x - inject_Z k * 2 ^ s) == 2 ^ s / 2)%Q).
      { rewrite Hh, Qabs_neg by lra. lra. }
      apply Heven, Z.even_spec in Hhalf. destruct Hhalf as [m Em].
      exists (- m). rewrite Hy, Hr, E.
      assert (Eq1 : (inject_Z (2 * - m) == - inject_Z k)%Q).
      { rewrite Em, !inject_Z_mult, inject_Z_opp. ring. }
      assert (Eq2 : (inject_Z j' * 2 ^ s == inject_Z k * 2 ^ s - 2 ^ s)%Q) by lra.
      rewrite Eq1, Eq2. ring.
    + assert (Hstep : (inject_Z k * 2 ^ s + 2 ^ s <= inject_Z j' * 2 ^ s)%Q).
      { assert (Hz : k + 1 <= j') by lia. to_Q Hz.
        apply (Qmult_le_r _ _ (2 ^ s)%Q HP) in Hz.
        change (inject_Z 1) with 1%Q in Hz. lra. }
      assert (Hhalf : (Qabs (x - inject_Z k * 2 ^ s) == 2 ^ s / 2)%Q).
      { rewrite Hh, Qabs_pos by lra. lra. }
      apply Heven, Z.even_spec in Hhalf. destruct Hhalf as [m Em].
      exists m. rewrite Hy, Hr, E.
      assert (Eq1 : (inject_Z (2 * m) == inject_Z k)%Q) by (rewrite Em; reflexivity).
      assert (Eq2 : (inject_Z j' * 2 ^ s == inject_Z k * 2 ^ s + 2 ^ s)%Q) by lra.
      rewrite Eq1, Eq2. ring.
  - exfalso.
    assert (Hc : (2 ^ 52 * 2 ^ s <= x)%Q).
    { rewrite <- two_pow_add. replace (52 + s) with e0 by lia. exact Hlo. }
    pose proof (nearest_multiple x _ k (2 ^ 52) HP Hnear) as Hn52.
    rewrite (two_pow_Z 52) in Hn52 by lia.
    rewrite (Qabs_pos (x - 2 ^ 52 * 2 ^ s)) in Hn52 by lra.
    assert (Hy1 : (inject_Z j * 2 ^ t < 2 ^ 52 * 2 ^ s)%Q).
    { rewrite <- two_pow_add.
      apply Qlt_le_trans with (2 ^ 53 * 2 ^ t)%Q.
      - apply Qmult_lt_r; [apply two_pow_pos|].
        rewrite <- (two_pow_Z 53) by lia. rewrite <- Zlt_Qlt. lia.
      - rewrite <- two_pow_add. apply two_pow_le. lia. }
    pose proof (Qle_Qabs (x - inject_Z j * 2 ^ t)) as Habs.
    rewrite Htie' in Habs. lra.
Qed.

Lemma binary64_opp (x : Q) : binary64 x -> binary64 (- x).
Proof.
  intros (k & e & Hk & He & H). exists (- k), e.
  split; [lia|]. split; [exact He|].
  rewrite H, inject_Z_opp. ring.
Qed.

Lemma nearest64_opp (x : Q) (v : num) :
  nearest64 x v -> nearest64 (- x) (num_neg v).
Proof.
  destruct v as [| | |r]; cbn [nearest64 num_neg]; try tauto.
  - intros H. lra.
  - intros H. lra.
  - intros (Hx & Hr & Hn). split; [rewrite Qabs_opp; exact Hx|].
    split; [apply binary64_opp; exact Hr|].
    intros y Hy. specialize (Hn (- y)%Q (binary64_opp y Hy)).
    setoid_replace (- x - - r)%Q with (- (x - r))%Q by ring.
    setoid_replace (- x - y)%Q with (- (x - - y))%Q by ring.
    rewrite !Qabs_opp. exact Hn.
Qed.

#[local] Instance nearest64_comp : Proper (Qeq ==> eq ==> iff) nearest64.
Proof.
  intros x y E v ? <-.
  destruct v as [| | |r]; cbn [nearest64]; try tauto.
  - rewrite E. tauto.
  - rewrite E. tauto.
  - split; intros (Hx & Hr & Hn).
    + split; [rewrite <- E; exact Hx|]. split; [exact Hr|].
      intros z Hz. rewrite <- E. exact (Hn z Hz).
    + split; [rewrite E; exact Hx|]. split; [exact Hr|].
      intros z Hz. rewrite E. exact (Hn z Hz).
Qed.

Lemma ties_to_even_opp (x : Q) (v : num) :
  ties_to_even x v -> ties_to_even (- x) (num_neg v).
Proof.
  destruct v as [| | |r]; cbn [ties_to_even num_neg]; try tauto.
  intros H y Hy Hne Htie.
  destruct (H (- y)%Q (binary64_opp y Hy)) as [j Hj].
  - intros E. apply Hne. rewrite <- (Qopp_involutive y), E. reflexivity.
  - setoid_replace (x - - y)%Q with (- (- x - y))%Q by ring.
    setoid_replace (x - r)%Q with (- (- x - - r))%Q by ring.
    rewrite !Qabs_opp. exact Htie.
  - exists j.
    apply Qeq_trans with (- (inject_Z (2 * j) * (- y - r)))%Q;
      [rewrite <- Hj; reflexivity|ring].
Qed.

(** [round64] returns a binary64 value nearest to its argument. *)
Lemma round64_nearest (q : Q) : nearest64 q (round64 q).
Proof.
  unfold round64. destruct q as [n d]. cbn [Qnum Qden].
  destruct n as [|p|p].
  - split; [reflexivity|]. split.
    + exists 0, 0. split; [reflexivity|]. split; [lia|]. reflexivity.
    + intros y _. setoid_replace (0 # d) with 0%Q by reflexivity.
      setoid_replace (0 - 0)%Q with 0%Q by ring. apply Qabs_nonneg.
  - apply round_pos_nearest; try reflexivity.
    rewrite (Qmake_Qdiv (Z.pos p) d). field. discriminate.
  - setoid_replace (Z.neg p # d) with (- (Z.pos p # d))%Q by reflexivity.
    apply nearest64_opp. apply round_pos_nearest; try reflexivity.
    rewrite (Qmake_Qdiv (Z.pos p) d). field. discriminate.
Qed.

(** Of two nearest values [round64] returns the even one. *)
Lemma round64_ties (q : Q) : ties_to_even q (round64 q).
Proof.
  unfold round64. destruct q as [n d]. cbn [Qnum Qden].
  destruct n as [|p|p].
  - intros y Hy Hne Htie. exists 0. change (inject_Z (2 * 0)) with 0%Q. ring.
  - apply round_pos_ties; try reflexivity.
    rewrite (Qmake_Qdiv (Z.pos p) d). field. discriminate.
  - assert (E : (Z.neg p # d == - (Z.pos p # d))%Q) by reflexivity.
    pose proof (ties_to_even_opp (Z.pos p # d) (round_pos (Z.pos p) (Z.pos d)))
      as H.
    destruct (num_neg (round_pos (Z.pos p) (Z.pos d))) as [| | |r];
      cbn [ties_to_even] in *; try exact I.
    intros y Hy Hne Htie. apply H; try assumption.
    + apply round_pos_ties; try reflexivity.
      rewrite (Qmake_Qdiv (Z.pos p) d). field. discriminate.
Qed.

Lemma binary64_bound (x : Q) :
  binary64 x -> (Qabs x <= inject_Z (2 ^ 1024 - 2 ^ 971))%Q.
Proof.
  intros (k & e & Hk & He & H). rewrite H, Qabs_Qmult.
  rewrite (Qabs_pos (2 ^ e)) by (apply Qlt_le_weak, two_pow_pos).
  change (Qabs (inject_Z k)) with (inject_Z (Z.abs k)).
  assert (E : (inject_Z (2 ^ 1024 - 2 ^ 971) ==
               inject_Z (2 ^ 53 - 1) * 2 ^ 971)%Q).
  { rewrite <- (two_pow_Z 971) by lia. rewrite <- inject_Z_mult.
    apply inject_Z_injective. reflexivity. }
  rewrite E.
  apply Qle_trans with (inject_Z (2 ^ 53 - 1) * 2 ^ e)%Q.
  - apply Qmult_le_compat_r; [|apply Qlt_le_weak, two_pow_pos].
    rewrite <- Zle_Qle. lia.
  - apply Qmult_le_l; [apply Zpos_Qpos; lia|]. apply two_pow_le. lia.
Qed.

(** A result that is a binary64 value is returned as it is. *)
Lemma round64_exact (x : Q) :
  binary64 x -> exists z : Q, round64 x = Fin z /\ (z == x)%Q.
Proof.
  intros Hx. pose proof (round64_nearest x) as H.
  pose proof (binary64_bound x Hx) as Hb.
  assert (Hlt : (inject_Z (2 ^ 1024 - 2 ^ 971) < overflow_threshold)%Q).
  { unfold overflow_threshold. rewrite <- Zlt_Qlt. reflexivity. }
  apply Qabs_Qle_condition in Hb. destruct Hb as [Hb1 Hb2].
  destruct (round64 x) as [| | |r]; cbn [nearest64] in H.
  - contradiction.
  - lra.
  - lra.
  - exists r. split; [reflexivity|]. destruct H as (_ & _ & Hn).
    specialize (Hn x Hx).
    setoid_replace (x - x)%Q with 0%Q in Hn by ring.
    change (Qabs 0) with 0%Q in Hn.
    apply Qabs_Qle_condition in Hn. lra.
Qed.

Lemma round64_rounded (x : Q) : rounded x (round64 x).
Proof.
  split; [apply round64_nearest|]. split; [apply round64_ties|].
  apply round64_exact.
Qed.

(** The three requirements leave one answer. *)
Lemma rounded_unique (x : Q) (v v' : num) :
  rounded x v -> rounded x v' -> num_eqb v v' = true.
Proof.
  intros (Hn & Ht & _) (Hn' & Ht' & _).
  assert (Hpos : (0 < overflow_threshold)%Q)
    by (unfold overflow_threshold; apply Zpos_Qpos; reflexivity).
  destruct v as [| | |r], v' as [| | |r']; cbn [nearest64 ties_to_even] in *;
    try contradiction; try reflexivity.
  - exfalso. lra.
  - exfalso. destruct Hn' as (Hx & _). apply Qabs_Qlt_condition in Hx.
    destruct Hx as [Hx1 Hx2]. lra.
  - exfalso. lra.
  - exfalso. destruct Hn' as (Hx & _). apply Qabs_Qlt_condition in Hx.
    destruct Hx as [Hx1 Hx2]. lra.
  - exfalso. destruct Hn as (Hx & _). apply Qabs_Qlt_condition in Hx.
    destruct Hx as [Hx1 Hx2]. lra.
  - exfalso. destruct Hn as (Hx & _). apply Qabs_Qlt_condition in Hx.
    destruct Hx as [Hx1 Hx2]. lra.
  - cbn. apply Qeq_bool_iff.
    destruct Hn as (_ & Hb & Hnear), Hn' as (_ & Hb' & Hnear').
    destruct (Qeq_dec r r') as [E|E]; [exact E|exfalso].
    assert (Htie : (Qabs (x - r') == Qabs (x - r))%Q).
    { apply Qle_antisym; [apply Hnear'|apply Hnear]; assumption. }
    destruct (Ht r' Hb') as [j Hj];
      [intros E'; apply E; rewrite E'; reflexivity|exact Htie|].
    destruct (Ht' r Hb) as [j' Hj'];
      [exact E|rewrite Htie; reflexivity|].
    assert (Hd : ~ (r' - r == 0)%Q) by (intros E'; apply E; lra).
    assert (Hsum : ((inject_Z (2 * j) + inject_Z (2 * j') + 1) * (r' - r)
                    == 0)%Q).
    { setoid_replace
        ((inject_Z (2 * j) + inject_Z (2 * j') + 1) * (r' - r))%Q
        with (inject_Z (2 * j) * (r' - r) - inject_Z (2 * j') * (r - r')
              + (r' - r))%Q by ring.
      rewrite <- Hj, <- Hj'. ring. }
    apply Qmult_integral in Hsum. destruct Hsum as [Hz|Hz]; [|contradiction].
    change 1%Q with (inject_Z 1) in Hz.
    rewrite <- !inject_Z_plus in Hz.
    unfold Qeq in Hz. cbn [Qnum Qden inject_Z] in Hz. lia.
Qed.

Lemma num_add_rounded (a b : num) (x y : Q) :
  a = Fin x -> b = Fin y -> rounded (x + y) (num_add a b).
Proof. intros -> ->. apply round64_rounded. Qed.

Lemma num_sub_rounded (a b : num) (x y : Q) :
  a = Fin x -> b = Fin y -> rounded (x - y) (num_sub a b).
Proof. intros -> ->. apply round64_rounded. Qed.

Lemma whole_binary64 (z : Z) : Z.abs z < 2 ^ 53 -> binary64 (inject_Z z).
Proof.
  intros H. exists z, 0. split; [exact H|]. split; [lia|].
  change (2 ^ 0)%Q with 1%Q. ring.
Qed.

(** *** Sums and differences that binary64 cannot hold *)

(** [2^53 + 1] is [2^53]. *)
Example add_one_at_2_53 :
  num_add (of_Z (2 ^ 53)) (of_Z 1) = of_Z (2 ^ 53).
Proof. vm_compute. reflexivity. Qed.

(** [1000 - 0.1] is [999.9], the binary64 value
    [8795213412905779 / 2^43], where [0.1] is the binary64 value
    [3602879701896397 / 2^55]. *)
Example sub_tenth_from_1000 :
  num_sub (of_Z 1000) (round64 (1 # 10)) = Fin (8795213412905779 # 8796093022208)
  /\ round64 (1 # 10) = Fin (3602879701896397 # 36028797018963968).
Proof. vm_compute. split; reflexivity. Qed.

(** [(1000 + 24.1) - 24.1] is [999.9999999999999], not [1000]. *)
Example add_then_sub_24_1 :
  let m := round64 (241 # 10) in
  m = Fin (3391773469363405 # 140737488355328) /\
  num_sub (num_add (of_Z 1000) m) m = Fin (8796093022207999 # 8796093022208).
Proof. vm_compute. split; reflexivity. Qed.

(** Past the largest binary64 value a sum is [Infinity]. *)
Example add_overflows :
  let top := of_Z (2 ^ 1024 - 2 ^ 971) in
  num_add top top = PInf /\ num_add top (of_Z (2 ^ 970)) = PInf /\
  num_add top (of_Z (2 ^ 970 - 1)) = top.
Proof. vm_compute. repeat split; reflexivity. Qed.

(** *** Rounding keeps the sign *)

Lemma round_half_even_nonneg (N D : Z) :
  0 <= N -> 0 < D -> 0 <= round_half_even N D.
Proof.
  intros HN HD. unfold round_half_even.
  assert (Hf : 0 <= N / D) by (apply Z.div_pos; assumption).
  destruct (2 * (N mod D) ?= D); [destruct (Z.even (N / D))|..]; lia.
Qed.

Lemma round_pos_sign (n d : Z) :
  0 < n -> 0 < d ->
  match round_pos n d with
  | Fin r => (0 <= r)%Q
  | PInf => True
  | _ => False
  end.
Proof.
  intros Hn Hd. unfold round_pos.
  destruct (0 <=? Z.max (floor_log2 n d) (-1022) - 52) eqn:Hs.
  - apply Z.leb_le in Hs.
    assert (Hp : 0 < 2 ^ (Z.max (floor_log2 n d) (-1022) - 52))
      by (apply Z.pow_pos_nonneg; lia).
    assert (Hk : 0 <= round_half_even n
                        (d * 2 ^ (Z.max (floor_log2 n d) (-1022) - 52)))
      by (apply round_half_even_nonneg; nia).
    destruct (2 ^ 1024 <=? _); [exact I|].
    unfold Qle; cbn. nia.
  - assert (Hk : 0 <= round_half_even
                        (n * 2 ^ (- (Z.max (floor_log2 n d) (-1022) - 52))) d).
    { apply round_half_even_nonneg; [|exact Hd].
      apply Z.mul_nonneg_nonneg; [lia|]. apply Z.pow_nonneg. lia. }
    rewrite Qred_correct. unfold Qle; cbn. lia.
Qed.

Lemma round64_nonneg (q : Q) : (0 <= q)%Q -> nonneg (round64 q).
Proof.
  intros Hq. unfold round64.
  destruct q as [n d]. unfold Qle in Hq; cbn in Hq. cbn [Qnum Qden].
  destruct n as [|p|p]; [reflexivity| |lia].
  pose proof (round_pos_sign (Z.pos p) (Z.pos d) eq_refl eq_refl) as H.
  destruct (round_pos (Z.pos p) (Z.pos d)) as [| | |r]; try contradiction.
  - reflexivity.
  - unfold nonneg, js_ge, read_real; cbn. apply Qle_bool_iff. exact H.
Qed.

Lemma nonneg_deposit (b : num) (amount : jsval) :
  nonneg b -> accepted amount ->
  nonneg (num_add (Number (read_real b)) (Number amount)).
Proof.
  intros Hb Ha. apply positive_accepted in Ha.
  destruct b as [| | |x], (Number amount) as [| | |y] eqn:Hy;
    unfold positive in Ha; rewrite ?Hy in Ha;
    unfold nonneg, js_ge, read_real in Hb; cbn in Ha, Hb;
    try discriminate; try reflexivity.
  - cbn. apply round64_nonneg. apply Qltb_lt in Ha. lra.
  - cbn. apply round64_nonneg.
    apply Qltb_lt in Ha. apply Qle_bool_iff in Hb. lra.
Qed.

Lemma nonneg_withdraw (b : num) (amount : jsval) :
  nonneg b -> accepted amount -> js_lt (read_real b) amount = false ->
  nonneg (num_sub (Number (read_real b)) (Number amount)).
Proof.
  intros Hb Ha Hlt. apply positive_accepted in Ha.
  unfold js_lt in Hlt.
  destruct b as [| | |x], (Number amount) as [| | |y] eqn:Hy;
    unfold positive in Ha; rewrite ?Hy in Ha;
    unfold nonneg, js_ge, read_real in Hb; cbn in Ha, Hb, Hlt;
    try discriminate; try reflexivity.
  - apply Qltb_lt in Ha. apply Qltb_ge in Hlt. exfalso. lra.
  - cbn. apply round64_nonneg. apply Qltb_ge in Hlt. lra.
Qed.

Lemma nonneg_not_negative (b : num) : nonneg b -> ~ negative b.
Proof.
  unfold nonneg, negative, js_ge, js_lt, read_real.
  destruct b as [| | |x]; cbn; try discriminate.
  intros H1 H2. apply Qle_bool_iff in H1. apply Qltb_lt in H2. lra.
Qed.

(** ** Facts about the tables *)

Lemma find_has_id (i : Z) (us : list user) (u : user) :
  find (has_id i) us = Some u -> user_id u = i /\ In u us.
Proof.
  intros H. apply find_some in H. destruct H as [Hin H].
  unfold has_id in H. apply Z.eqb_eq in H. auto.
Qed.

Lemma find_existsb (i : Z) (us : list user) (u : user) :
  find (has_id i) us = Some u -> existsb (has_id i) us = true.
Proof.
  intros H. apply find_some in H. apply existsb_exists. exists u. exact H.
Qed.

Lemma has_id_set_balance (i : Z) (b : num) (u : user) :
  has_id i (set_balance b u) = has_id i u.
Proof. reflexivity. Qed.

Lemma existsb_update (i j : Z) (b : num) (t : tables) :
  existsb (has_id i) (users (update_balance b j t)) = existsb (has_id i) (users t).
Proof.
  unfold update_balance; cbn. induction (users t) as [|u us IH]; cbn; [reflexivity|].
  rewrite IH. destruct (has_id j u); reflexivity.
Qed.

(** Reading a row back after an UPDATE. *)
Lemma select_update (i j : Z) (b : num) (t : tables) :
  select_user_by_id i (update_balance b j t) =
  if Z.eqb i j then option_map (set_balance b) (select_user_by_id i t)
  else select_user_by_id i t.
Proof.
  unfold select_user_by_id, update_balance, has_id; cbn.
  destruct (Z.eqb_spec i j) as [Hij|Hij].
  - subst j. induction (users t) as [|u us IH]; cbn; [reflexivity|].
    destruct (Z.eqb_spec (user_id u) i); cbn.
    + destruct (Z.eqb_spec (user_id u) i); [reflexivity|contradiction].
    + destruct (Z.eqb_spec (user_id u) i); [contradiction|exact IH].
  - induction (users t) as [|u us IH]; cbn; [reflexivity|].
    destruct (Z.eqb_spec (user_id u) j); cbn.
    + destruct (Z.eqb_spec (user_id u) i); [congruence|exact IH].
    + destruct (Z.eqb_spec (user_id u) i); [reflexivity|exact IH].
Qed.

Lemma select_update_other (i j : Z) (b : num) (t : tables) :
  j <> i -> select_user_by_id j (update_balance b i t) = select_user_by_id j t.
Proof.
  intros H. rewrite select_update.
  destruct (Z.eqb_spec j i); [contradiction|reflexivity].
Qed.

Lemma select_appended (i : Z) (r : tx_row) (t : tables) :
  select_user_by_id i (appended r t) = select_user_by_id i t.
Proof. reflexivity. Qed.

Lemma update_keeps_nonneg (b : num) (i : Z) (t : tables) :
  nonneg b ->
  Forall (fun u => nonneg (balance_col u)) (users t) ->
  Forall (fun u => nonneg (balance_col u)) (users (update_balance b i t)).
Proof.
  intros Hb H. unfold update_balance; cbn.
  induction H as [|u us Hu Hus IH]; cbn; constructor; auto.
  destruct (has_id i u); assumption.
Qed.

Lemma insert_tx_cases (now : Z) (p : tx_params) (t : tables) :
  (exists m, insert_tx now p t = (inr m, t)) \/
  insert_tx now p t = (inl (tx_seq t + 1), appended (new_row now p t) t).
Proof.
  unfold insert_tx.
  destruct (num_is_nan _); [left; eauto|].
  destruct (negb _); [left; eauto|].
  right. reflexivity.
Qed.

Lemma insert_tx_ok (now : Z) (p : tx_params) (t : tables) :
  accepted (p_amount p) ->
  fk_ok (or_null (p_from_user p)) t = true ->
  fk_ok (or_null (p_to_user p)) t = true ->
  insert_tx now p t = (inl (tx_seq t + 1), appended (new_row now p t) t).
Proof.
  intros Ha Hf Ht. unfold insert_tx.
  destruct (accepted_bind _ Ha) as [Hb Hn]. rewrite Hb, Hn, Hf, Ht. cbn.
  unfold appended, new_row. rewrite Hb. reflexivity.
Qed.

Lemma fk_ok_found (i : Z) (t : tables) (u : user) :
  select_user_by_id i t = Some u -> fk_ok (or_null (Some i)) t = true.
Proof.
  intros H. cbn. destruct (Z.eqb i 0); [reflexivity|].
  cbn. eapply find_existsb; exact H.
Qed.

Lemma fk_ok_update (k : option Z) (b : num) (j : Z) (t : tables) :
  fk_ok k (update_balance b j t) = fk_ok k t.
Proof. destruct k; cbn; [apply existsb_update|reflexivity]. Qed.

(** ** Running a handler symbolically *)

Arguments insert_tx : simpl never.
Arguments update_balance : simpl never.
Arguments select_user_by_id : simpl never.
Arguments select_user_by_name : simpl never.
Arguments select_transactions : simpl never.
Arguments issued : simpl never.

Ltac split_on_environment :=
  match goal with
  | H : select_user_by_id ?i ?t = _ |- context [select_user_by_id ?i ?t] =>
      rewrite H
  | H : select_user_by_name ?n ?t = _ |- context [select_user_by_name ?n ?t] =>
      rewrite H
  | H : js_lt ?a ?b = _ |- context [js_lt ?a ?b] => rewrite H
  | H : forall n, fault ?e n = false |- context [fault ?e ?n] => rewrite (H n)
  | |- context [fault ?e ?n] => destruct (fault e n) eqn:?
  | |- context [select_user_by_name ?n ?t] =>
      destruct (select_user_by_name n t) eqn:?
  | |- context [select_user_by_id ?i ?t] =>
      destruct (select_user_by_id i t) eqn:?
  | |- context [insert_tx ?n ?p ?t] =>
      let H := fresh "Hins" in
      destruct (insert_tx_cases n p t) as [[? H]|H]; rewrite H
  | |- context [if js_lt ?a ?b then _ else _] => destruct (js_lt a b) eqn:?
  end.

Ltac run_handler :=
  repeat first [ progress cbn | progress unfold perform | split_on_environment ].

Ltac close_failed :=
  first
    [ apply failed_intro with (l := []); cbn;
      [discriminate | reflexivity | reflexivity
      | symmetry; apply app_nil_r | constructor | lia]
    | eapply failed_intro with (l := [_]); cbn;
      [discriminate | reflexivity | reflexivity
      | reflexivity | repeat constructor | lia] ].

Ltac close_applied :=
  eapply applied_intro; cbn; reflexivity.

Lemma deposit_tx_effect (e : env) (uid : Z) (amount : jsval) (t : tables)
    (tr : list (kind * bool)) :
  let res := run e (Tx.deposit_tx uid amount) (mkWorld (mkConn t None) tr) in
  failed t res \/
  match select_user_by_id uid t with
  | Some user =>
      let newBal := num_add (Number (balance user)) (Number amount) in
      accepted amount /\
      applied t TDeposit (users (update_balance newBal uid t)) (Balance newBal) res
  | None => False
  end.
Proof.
  cbv zeta. unfold Tx.deposit_tx.
  destruct (_ || _) eqn:Hv.
  - left. cbn. close_failed.
  - destruct (select_user_by_id uid t) as [user|] eqn:Hu;
      run_handler; try (left; close_failed).
    right. split; [exact Hv|]. close_applied.
Qed.

Lemma withdraw_tx_effect (e : env) (uid : Z) (amount : jsval) (t : tables)
    (tr : list (kind * bool)) :
  let res := run e (Tx.withdraw_tx uid amount) (mkWorld (mkConn t None) tr) in
  failed t res \/
  match select_user_by_id uid t with
  | Some user =>
      let newBal := num_sub (Number (balance user)) (Number amount) in
      accepted amount /\ js_lt (balance user) amount = false /\
      applied t TWithdraw (users (update_balance newBal uid t)) (Balance newBal) res
  | None => False
  end.
Proof.
  cbv zeta. unfold Tx.withdraw_tx.
  destruct (_ || _) eqn:Hv.
  - left. cbn. close_failed.
  - destruct (select_user_by_id uid t) as [user|] eqn:Hu;
      [destruct (js_lt (balance user) amount) eqn:Hlt|];
      run_handler; try (left; close_failed).
    right. split; [exact Hv|]. split; [reflexivity|]. close_applied.
Qed.

Lemma transfer_accepted (toUsername : option string) (amount : jsval) :
  negb (truthy_str toUsername) || negb (truthy amount) || isNaN amount
    || js_le amount (JNum zero) = false ->
  truthy_str toUsername = true /\ accepted amount.
Proof.
  unfold accepted. destruct (truthy_str toUsername); cbn; [auto|discriminate].
Qed.

Lemma transfer_effect (e : env) (fromUserId : Z) (toUsername : option string)
    (amount : jsval) (t : tables) (tr : list (kind * bool)) :
  let res :=
    run e (Tx.transfer fromUserId toUsername amount) (mkWorld (mkConn t None) tr) in
  failed t res \/
  match select_user_by_name toUsername t with
  | Some toUser =>
      match select_user_by_id fromUserId t, select_user_by_id (user_id toUser) t with
      | Some fromUser, Some freshToUser =>
          accepted amount /\ js_lt (balance fromUser) amount = false /\
          applied t TTransfer (users (transferred fromUser freshToUser amount t))
            (Balances (num_sub (Number (balance fromUser)) (Number amount))
               (num_add (Number (balance freshToUser)) (Number amount)))
            res
      | _, _ => False
      end
  | None => False
  end.
Proof.
  cbv zeta. unfold Tx.transfer.
  destruct (_ || _) eqn:Hv.
  - left. cbn. close_failed.
  - apply transfer_accepted in Hv. destruct Hv as [_ Hv].
    destruct (select_user_by_name toUsername t) as [toUser|] eqn:Hto.
    2: { run_handler; left; close_failed. }
    destruct (select_user_by_id fromUserId t) as [fromUser|] eqn:Hfrom.
    2: { destruct (select_user_by_id (user_id toUser) t) eqn:Hfresh;
         run_handler; left; close_failed. }
    destruct (js_lt (balance fromUser) amount) eqn:Hlt.
    { destruct (select_user_by_id (user_id toUser) t) eqn:Hfresh;
        run_handler; left; close_failed. }
    destruct (select_user_by_id (user_id toUser) t) as [freshToUser|] eqn:Hfresh.
    2: { run_handler; left; close_failed. }
    run_handler; try (left; close_failed).
    right. split; [exact Hv|]. split; [reflexivity|]. close_applied.
Qed.

Lemma handle_effect (e : env) (r : Tx.request) (w : world) :
  idle w ->
  let res := run e (Tx.handle r) w in
  failed (live (db w)) res \/ request_applied r (live (db w)) res.
Proof.
  destruct w as [[t sv] tr]. unfold idle; cbn [db saved live]. intros ->.
  destruct r as [uid amount|uid amount|fromUserId toUsername amount];
    cbn [Tx.handle request_applied].
  - apply deposit_tx_effect.
  - apply withdraw_tx_effect.
  - apply transfer_effect.
Qed.

Lemma applied_code (t : tables) (ty : tx_type) (us : list user) (b : json)
    (o : outcome response) (w' : world) :
  applied t ty us b (o, w') -> exists resp, o = Returned resp /\ code resp = 200.
Proof. intros H. inversion H; subst. eexists; split; reflexivity. Qed.

Lemma request_applied_code (r : Tx.request) (t : tables)
    (o : outcome response) (w' : world) :
  request_applied r t (o, w') -> exists resp, o = Returned resp /\ code resp = 200.
Proof.
  destruct r; cbn.
  - destruct (select_user_by_id _ _); [|contradiction].
    intros [_ H]. eapply applied_code; exact H.
  - destruct (select_user_by_id _ _); [|contradiction].
    intros [_ [_ H]]. eapply applied_code; exact H.
  - destruct (select_user_by_name _ _); [|contradiction].
    destruct (select_user_by_id _ _); [|contradiction].
    destruct (select_user_by_id _ _); [|contradiction].
    intros [_ [_ H]]. eapply applied_code; exact H.
Qed.

(** ** Errors leave the balances alone *)

(** C4.  Whenever deposit, withdraw or transfer answers with an error (400
    invalid input or insufficient funds, 404 not found, 500 internal failure,
    under any pattern of failing statements), the users table after the call
    is the users table before it, hence so is every balance; the connection
    is idle again, and the history gained nothing but rolled-back rows. *)
Theorem error_leaves_balances (e : env) (r : Tx.request) (w w' : world)
    (resp : response) :
  idle w ->
  run e (Tx.handle r) w = (Returned resp, w') ->
  code resp <> 200 ->
  users (live (db w')) = users (live (db w)) /\
  idle w' /\
  exists l,
    transactions (live (db w')) = transactions (live (db w)) ++ l /\
    Forall (fun x => status x = Rolledback) l.
Proof.
  intros Hidle Hrun Hcode.
  destruct (handle_effect e r w Hidle) as [H|H]; cbv zeta in H; rewrite Hrun in H.
  - inversion H; subst. unfold idle. eauto.
  - apply request_applied_code in H. destruct H as [resp' [Heq H200]].
    inversion Heq; subst. contradiction.
Qed.

Lemma error_leaves_balances_witness :
  let w' :=
    snd (run calm (Tx.handle (Tx.Transfer 1 (Some "bob"%string) (JNum (of_Z 5000))))
           initial_world) in
  users (live (db w')) = users (live (db initial_world)) /\
  idle w' /\
  exists l,
    transactions (live (db w')) = transactions (live (db initial_world)) ++ l /\
    Forall (fun x => status x = Rolledback) l.
Proof.
  apply (error_leaves_balances calm
           (Tx.Transfer 1 (Some "bob"%string) (JNum (of_Z 5000))) initial_world _
           (mkResponse 400 (Error "Insufficient funds"))).
  - reflexivity.
  - vm_compute. reflexivity.
  - cbn. discriminate.
Defined.

(** ** Balances never become negative *)

Lemma selected_nonneg (i : Z) (t : tables) (u : user) :
  Forall (fun u => nonneg (balance_col u)) (users t) ->
  select_user_by_id i t = Some u -> nonneg (balance_col u).
Proof.
  intros Hall Hsel. apply find_has_id in Hsel. destruct Hsel as [_ Hin].
  rewrite Forall_forall in Hall. apply Hall. exact Hin.
Qed.

Lemma handle_keeps_invariant (e : env) (r : Tx.request) (w : world) :
  idle w -> balances_nonneg w ->
  idle (snd (run e (Tx.handle r) w)) /\
  balances_nonneg (snd (run e (Tx.handle r) w)).
Proof.
  intros Hidle Hnn. unfold balances_nonneg in *.
  destruct (handle_effect e r w Hidle) as [H|H]; cbv zeta in H;
    destruct (run e (Tx.handle r) w) as [o w'] eqn:Hrun; cbn [snd].
  - inversion H; subst. split; [assumption|]. congruence.
  - destruct r as [uid amount|uid amount|fromUserId toUsername amount];
      cbn [request_applied] in H.
    + destruct (select_user_by_id uid (live (db w))) as [user|] eqn:Hu;
        [|contradiction].
      destruct H as [Ha H]. inversion H; subst. split; [assumption|].
      match goal with Hus : users _ = _ |- _ => rewrite Hus end.
      apply update_keeps_nonneg; [|assumption].
      apply nonneg_deposit; [|assumption].
      eapply selected_nonneg; eassumption.
    + destruct (select_user_by_id uid (live (db w))) as [user|] eqn:Hu;
        [|contradiction].
      destruct H as [Ha [Hlt H]]. inversion H; subst. split; [assumption|].
      match goal with Hus : users _ = _ |- _ => rewrite Hus end.
      apply update_keeps_nonneg; [|assumption].
      apply nonneg_withdraw; [|assumption|assumption].
      eapply selected_nonneg; eassumption.
    + destruct (select_user_by_name toUsername (live (db w))) as [toUser|];
        [|contradiction].
      destruct (select_user_by_id fromUserId (live (db w))) as [fromUser|] eqn:Hf;
        [|contradiction].
      destruct (select_user_by_id (user_id toUser) (live (db w)))
        as [freshToUser|] eqn:Ht; [|contradiction].
      destruct H as [Ha [Hlt H]]. inversion H; subst. split; [assumption|].
      match goal with Hus : users _ = _ |- _ => rewrite Hus end.
      unfold transferred.
      apply update_keeps_nonneg.
      * apply nonneg_deposit; [|assumption]. eapply selected_nonneg; eassumption.
      * apply update_keeps_nonneg; [|assumption].
        apply nonneg_withdraw; [|assumption|assumption].
        eapply selected_nonneg; eassumption.
Qed.

(** C5.  Starting from an idle connection whose balances all satisfy
    [balance >= 0], after any sequence of deposit, withdraw and transfer
    requests served one after the other, with any arguments and under any
    pattern of failing statements, the connection is idle and every stored
    balance still satisfies [balance >= 0]; none is negative. *)
Theorem balances_stay_nonneg (e : env) (rs : list Tx.request) (w : world) :
  idle w -> balances_nonneg w ->
  idle (Tx.serve e rs w) /\
  balances_nonneg (Tx.serve e rs w) /\
  Forall (fun u => ~ negative (balance_col u)) (users (live (db (Tx.serve e rs w)))).
Proof.
  revert w. induction rs as [|r rs IH]; intros w Hidle Hnn; cbn [Tx.serve].
  - split; [assumption|]. split; [assumption|].
    eapply Forall_impl; [|exact Hnn]. intros u. apply nonneg_not_negative.
  - destruct (handle_keeps_invariant e r w Hidle Hnn) as [Hidle' Hnn'].
    apply IH; assumption.
Qed.

Lemma balances_stay_nonneg_witness :
  let rs :=
    [Tx.Transfer 1 (Some "bob"%string) (JNum (of_Z 600));
     Tx.Withdraw 1 (JNum (of_Z 600));
     Tx.Deposit 2 (JNum (of_Z 150))] in
  idle (Tx.serve calm rs initial_world) /\
  balances_nonneg (Tx.serve calm rs initial_world) /\
  Forall (fun u => ~ negative (balance_col u))
    (users (live (db (Tx.serve calm rs initial_world)))).
Proof.
  apply (balances_stay_nonneg calm).
  - reflexivity.
  - unfold balances_nonneg; cbn. repeat constructor.
Defined.

(** ** Runs in which no statement fails *)


Lemma calm_quiet : quiet calm.
Proof. intros n. reflexivity. Qed.

Lemma issued_app (c c' : conn) (tr l : list (kind * bool)) :
  issued (mkWorld c tr) (mkWorld c' (tr ++ l)) = l.
Proof.
  unfold issued; cbn. rewrite skipn_app, skipn_all, Nat.sub_diag. reflexivity.
Qed.

Lemma named_user_has_id (n : option string) (t : tables) (u : user) :
  select_user_by_name n t = Some u ->
  exists u', select_user_by_id (user_id u) t = Some u'.
Proof.
  unfold select_user_by_name, select_user_by_id. destruct n as [n|]; [|discriminate].
  intros H. apply find_some in H. destruct H as [Hin _].
  destruct (find (has_id (user_id u)) (users t)) as [u'|] eqn:E; [eauto|].
  exfalso. apply (find_none _ _ E) in Hin. unfold has_id in Hin.
  rewrite Z.eqb_refl in Hin. discriminate.
Qed.

Ltac solve_insert_side :=
  cbn [p_from_user p_to_user p_amount];
  first
    [ assumption
    | reflexivity
    | rewrite ?fk_ok_update; eapply fk_ok_found; eassumption ].

Ltac run_quiet :=
  repeat first
    [ progress cbn
    | progress unfold perform
    | rewrite insert_tx_ok by solve_insert_side
    | split_on_environment ].

Ltac tidy_trace :=
  rewrite <- ?app_assoc; cbn [app];
  rewrite ?length_app; cbn [List.length];
  rewrite <- ?Nat.add_assoc; cbn [Nat.add].

(** ** Deposit *)

Lemma deposit_tx_run (e : env) (uid : Z) (amount : jsval) (user : user)
    (t : tables) (tr : list (kind * bool)) :
  quiet e ->
  select_user_by_id uid t = Some user ->
  accepted amount ->
  let newBal := num_add (Number (balance user)) (Number amount) in
  run e (Tx.deposit_tx uid amount) (mkWorld (mkConn t None) tr) =
  (Returned (mkResponse 200 (Balance newBal)),
   mkWorld
     (mkConn
        (appended
           (mkTx (tx_seq t + 1) TDeposit None (or_null (Some uid)) (Number amount)
              Committed (clock e (List.length tr + 3))
              (NoteText "deposit via deposit-tx"))
           (update_balance newBal uid t))
        None)
     (tr ++ [(KBegin, true); (KSelect, true); (KUpdate, true); (KInsert, true);
             (KCommit, true)])).
Proof.
  intros Hq Hu Ha. unfold quiet in Hq.
  pose proof Ha as Hv. unfold accepted in Hv.
  destruct (accepted_bind _ Ha) as [Hbind _].
  cbv zeta. unfold Tx.deposit_tx. rewrite Hv.
  run_quiet. tidy_trace.
  unfold new_row; cbn. rewrite Hbind. reflexivity.
Qed.

(** C7 as amended.  For an existing account with balance [b] and an
    accepted positive amount [m], when no statement fails, deposit answers
    [{ balance: v }] where [v] is the binary64 sum of [b] and [m]: the
    binary64 value nearest to [b + m] (the even one of two), hence [b + m]
    itself whenever that is a binary64 value, and Infinity from
    [2^1024 - 2^970] on.  The account's row then holds [v], every other
    account's row is as it was, and the history has gained exactly one row,
    a committed deposit with no source (from_user NULL); all between one
    successful BEGIN and one successful COMMIT, which leaves no transaction
    open. *)
Theorem deposit_commits (e : env) (uid : Z) (amount : jsval) (user : user)
    (w : world) :
  quiet e -> idle w ->
  select_user_by_id uid (live (db w)) = Some user ->
  positive amount ->
  let t := live (db w) in
  let out := run e (Tx.deposit_tx uid amount) w in
  let v := num_add (Number (balance user)) (Number amount) in
  (forall b m : Q,
     Number (balance user) = Fin b -> Number amount = Fin m ->
     rounded (b + m) v) /\
  fst out = Returned (mkResponse 200 (Balance v)) /\
  select_user_by_id uid (live (db (snd out))) =
    Some (mkUser (user_id user) (username user) (password user) v) /\
  (forall j : Z,
     j <> uid ->
     select_user_by_id j (live (db (snd out))) = select_user_by_id j t) /\
  transactions (live (db (snd out))) =
    transactions t ++
    [mkTx (tx_seq t + 1) TDeposit None (if uid =? 0 then None else Some uid)
       (Number amount) Committed (clock e (List.length (trace w) + 3))
       (NoteText "deposit via deposit-tx")] /\
  saved (db (snd out)) = None /\
  issued w (snd out) =
    [(KBegin, true); (KSelect, true); (KUpdate, true); (KInsert, true);
     (KCommit, true)].
Proof.
  intros Hq Hidle Hu Hpos.
  destruct w as [[t sv] tr]. unfold idle in Hidle; cbn in Hidle, Hu; subst sv.
  apply positive_accepted in Hpos.
  cbv zeta. rewrite (deposit_tx_run e uid amount user t tr Hq Hu Hpos).
  cbn [fst snd db live trace saved].
  split; [intros b m Hb Hm; apply (num_add_rounded _ _ b m Hb Hm)|].
  split; [reflexivity|]. split.
  - rewrite select_appended, select_update, Z.eqb_refl, Hu. reflexivity.
  - split; [intros j Hj; rewrite select_appended;
            apply select_update_other; exact Hj|].
    split; [reflexivity|]. split; [reflexivity|]. apply issued_app.
Qed.

Lemma deposit_commits_witness :
  let out := run calm (Tx.deposit_tx 1 (JNum (of_Z 150))) initial_world in
  fst out = Returned (mkResponse 200 (Balance (of_Z 1150))) /\
  select_user_by_id 1 (live (db (snd out))) =
    Some (mkUser 1 "alice" "$2b$10$alice" (of_Z 1150)) /\
  select_user_by_id 2 (live (db (snd out))) =
    Some (mkUser 2 "bob" "$2b$10$bob" (of_Z 500)) /\
  transactions (live (db (snd out))) =
    [mkTx 1 TDeposit None (Some 1) (of_Z 150) Committed (clock calm 3)
       (NoteText "deposit via deposit-tx")] /\
  saved (db (snd out)) = None /\
  issued initial_world (snd out) =
    [(KBegin, true); (KSelect, true); (KUpdate, true); (KInsert, true);
     (KCommit, true)].
Proof.
  destruct (deposit_commits calm 1 (JNum (of_Z 150))
              (mkUser 1 "alice" "$2b$10$alice" (of_Z 1000)) initial_world
              calm_quiet eq_refl eq_refl eq_refl)
    as (_ & Hans & Hrow & Hothers & Hlog & Hsaved & Hissued).
  split; [exact Hans|]. split; [exact Hrow|].
  split; [exact (Hothers 2 ltac:(discriminate))|].
  split; [exact Hlog|]. split; [exact Hsaved|exact Hissued].
Defined.

(** C7 as stated does not hold: the sum is a binary64 sum.  Starting from
    the initial database, alice (1000) deposits [2^53 - 1000], which brings
    her to [2^53]; a further deposit of 1 answers [2^53] and stores [2^53],
    which is not [2^53 + 1]. *)
Lemma deposit_sum_is_rounded :
  let b := 2 ^ 53 in
  let w := snd (run calm (Tx.deposit_tx 1 (JNum (of_Z (b - 1000)))) initial_world) in
  let out := run calm (Tx.deposit_tx 1 (JNum (of_Z 1))) w in
  positive (JNum (of_Z 1)) /\
  idle w /\
  option_map balance_col (select_user_by_id 1 (live (db w))) = Some (of_Z b) /\
  fst out = Returned (mkResponse 200 (Balance (of_Z b))) /\
  option_map balance_col (select_user_by_id 1 (live (db (snd out)))) =
    Some (of_Z b) /\
  ~ (inject_Z b == inject_Z b + 1)%Q.
Proof.
  vm_compute. repeat split; try reflexivity. intros H. discriminate H.
Qed.

(** ** Unknown accounts *)

Ltac read_issued :=
  tidy_trace;
  rewrite issued_app.

(** C8.  When the request passes its input test, no statement fails and the
    source or the destination account does not exist, the answer is 404, the
    database is exactly as before (no balance changed, no row written, no
    transaction left open), and the statements sent were either the lookup
    alone or a BEGIN closed by a ROLLBACK around lookups. *)
Theorem not_found_aborts (e : env) (r : Tx.request) (w : world) :
  quiet e -> idle w -> well_formed r -> party_missing r (live (db w)) ->
  let res := run e (Tx.handle r) w in
  exists msg,
    fst res = Returned (mkResponse 404 (Error msg)) /\
    db (snd res) = db w /\
    In (issued w (snd res))
      [[(KSelect, true)];
       [(KBegin, true); (KSelect, true); (KRollback, true)];
       [(KSelect, true); (KBegin, true); (KSelect, true); (KSelect, true);
        (KRollback, true)]].
Proof.
  intros Hq Hidle Hwf Hmiss. unfold quiet in Hq.
  destruct w as [[t sv] tr]. unfold idle in Hidle; cbn in Hidle, Hmiss; subst sv.
  cbv zeta.
  destruct r as [uid amount|uid amount|fromUserId toUsername amount];
    cbn [well_formed party_missing Tx.handle] in *.
  - unfold accepted in Hwf. unfold Tx.deposit_tx. rewrite Hwf.
    run_quiet. eexists. split; [reflexivity|]. split; [reflexivity|].
    read_issued. cbn; auto.
  - unfold accepted in Hwf. unfold Tx.withdraw_tx. rewrite Hwf.
    run_quiet. eexists. split; [reflexivity|]. split; [reflexivity|].
    read_issued. cbn; auto.
  - destruct Hwf as [Hto Hwf]. unfold accepted in Hwf. unfold Tx.transfer.
    rewrite Hto. cbn [negb orb]. rewrite Hwf.
    destruct (select_user_by_name toUsername t) as [toUser|] eqn:Hname.
    + destruct Hmiss as [Hmiss|Hmiss]; [discriminate|].
      run_quiet; eexists; (split; [reflexivity|]); (split; [reflexivity|]);
        read_issued; cbn; auto.
    + run_quiet. eexists. split; [reflexivity|]. split; [reflexivity|].
      read_issued. cbn; auto.
Qed.

Lemma not_found_aborts_witness :
  let r := Tx.Transfer 7 (Some "bob"%string) (JNum (of_Z 10)) in
  let res := run calm (Tx.handle r) initial_world in
  exists msg,
    fst res = Returned (mkResponse 404 (Error msg)) /\
    db (snd res) = db initial_world /\
    In (issued initial_world (snd res))
      [[(KSelect, true)];
       [(KBegin, true); (KSelect, true); (KRollback, true)];
       [(KSelect, true); (KBegin, true); (KSelect, true); (KSelect, true);
        (KRollback, true)]].
Proof.
  apply (not_found_aborts calm
           (Tx.Transfer 7 (Some "bob"%string) (JNum (of_Z 10))) initial_world).
  - exact calm_quiet.
  - reflexivity.
  - split; reflexivity.
  - right. reflexivity.
Defined.

(** ** Unfit amounts *)

Lemma unfit_fails_test (amount : jsval) :
  missing amount \/ non_numeric amount \/ non_positive amount ->
  negb (truthy amount) || isNaN amount || js_le amount (JNum zero) = true.
Proof.
  unfold missing, non_numeric, non_positive, isNaN, js_le.
  intros [[H|H]|[H|H]]; subst; try reflexivity.
  - rewrite H. rewrite orb_true_r. reflexivity.
  - cbn [Number]. rewrite H. apply orb_true_r.
Qed.

(** C6 as amended.  A deposit, withdraw or transfer request whose amount is
    missing (undefined or null), is not a number after coercion, or is not
    positive is answered 400 before any statement is sent: no transaction is
    opened, no balance changes, no row is written.  Nothing tests finiteness;
    +Infinity passes as a positive amount. *)
Theorem unfit_amount_rejected (e : env) (r : Tx.request) (w : world) :
  missing (amount_of r) \/ non_numeric (amount_of r) \/ non_positive (amount_of r) ->
  exists msg,
    run e (Tx.handle r) w = (Returned (mkResponse 400 (Error msg)), w).
Proof.
  intros H. apply unfit_fails_test in H.
  destruct r as [uid amount|uid amount|fromUserId toUsername amount];
    cbn [amount_of Tx.handle] in *.
  - unfold Tx.deposit_tx. rewrite H. eexists. reflexivity.
  - unfold Tx.withdraw_tx. rewrite H. eexists. reflexivity.
  - unfold Tx.transfer.
    assert (Hall : negb (truthy_str toUsername) || negb (truthy amount)
                   || isNaN amount || js_le amount (JNum zero) = true).
    { destruct (truthy_str toUsername); cbn [negb orb]; [exact H|].
      reflexivity. }
    rewrite Hall. eexists. reflexivity.
Qed.

Lemma unfit_amount_rejected_witness :
  exists msg,
    run calm (Tx.handle (Tx.Withdraw 1 (JNum (of_Z (-5))))) initial_world
    = (Returned (mkResponse 400 (Error msg)), initial_world).
Proof.
  apply (unfit_amount_rejected calm (Tx.Withdraw 1 (JNum (of_Z (-5)))) initial_world).
  right. right. reflexivity.
Defined.

(** C6 as stated fails: an amount that is not finite is not rejected.  A
    deposit of Infinity (the JSON number 1e999) is accepted and sets the
    balance to Infinity. *)
Lemma infinite_amount_accepted :
  ~ rejects_up_front
      (fun a => missing a \/ non_numeric a \/ non_positive a \/ not_finite a).
Proof.
  intros H.
  destruct (H calm (Tx.Deposit 1 (JNum PInf)) initial_world) as [msg Hrun].
  - right. right. right. reflexivity.
  - vm_compute in Hrun. discriminate Hrun.
Qed.

(** ** Insufficient funds *)

Lemma ends_with_app {A : Type} (tr pre l : list A) :
  exists pre', tr ++ pre ++ l = tr ++ pre' ++ l.
Proof. exists pre. reflexivity. Qed.

(** C1 fails on the rejection path.  When the sufficiency test fails (and no
    statement fails), the rolled-back row is inserted inside the open
    transaction and the ROLLBACK that follows discards it: the answer is 400
    "Insufficient funds" and the database, history included, is exactly as
    before the call. *)
Theorem insufficient_funds_row_discarded (e : env) (r : Tx.request) (w : world) :
  quiet e -> idle w -> well_formed r -> insufficient r (live (db w)) ->
  let res := run e (Tx.handle r) w in
  fst res = Returned (mkResponse 400 (Error "Insufficient funds")) /\
  db (snd res) = db w /\
  transactions (live (db (snd res))) = transactions (live (db w)) /\
  exists pre, issued w (snd res) = pre ++ [(KInsert, true); (KRollback, true)].
Proof.
  intros Hq Hidle Hwf Hins. unfold quiet in Hq.
  destruct w as [[t sv] tr]. unfold idle in Hidle; cbn in Hidle, Hins; subst sv.
  cbv zeta.
  destruct r as [uid amount|uid amount|fromUserId toUsername amount];
    cbn [well_formed insufficient Tx.handle] in *.
  - contradiction.
  - destruct Hins as [user [Hu Hlt]].
    pose proof Hwf as Hv. unfold accepted in Hv. unfold Tx.withdraw_tx. rewrite Hv.
    run_quiet. repeat (split; [reflexivity|]).
    read_issued. exists [(KBegin, true); (KSelect, true)]. reflexivity.
  - destruct Hins as [toUser [fromUser [Hname [Hfrom Hlt]]]].
    destruct Hwf as [Hto Hwf].
    pose proof Hwf as Hv. unfold accepted in Hv. unfold Tx.transfer.
    rewrite Hto. cbn [negb orb]. rewrite Hv.
    destruct (named_user_has_id _ _ _ Hname) as [fresh Hfresh].
    run_quiet. repeat (split; [reflexivity|]).
    read_issued.
    exists [(KSelect, true); (KBegin, true); (KSelect, true); (KSelect, true)].
    reflexivity.
Qed.

Lemma insufficient_funds_row_discarded_witness :
  let r := Tx.Transfer 1 (Some "bob"%string) (JNum (of_Z 5000)) in
  let res := run calm (Tx.handle r) initial_world in
  fst res = Returned (mkResponse 400 (Error "Insufficient funds")) /\
  db (snd res) = db initial_world /\
  transactions (live (db (snd res))) = transactions (live (db initial_world)) /\
  exists pre,
    issued initial_world (snd res) = pre ++ [(KInsert, true); (KRollback, true)].
Proof.
  apply (insufficient_funds_row_discarded calm
           (Tx.Transfer 1 (Some "bob"%string) (JNum (of_Z 5000))) initial_world).
  - exact calm_quiet.
  - reflexivity.
  - split; reflexivity.
  - exists (mkUser 2 "bob" "$2b$10$bob" (of_Z 500)),
      (mkUser 1 "alice" "$2b$10$alice" (of_Z 1000)).
    repeat split; reflexivity.
Defined.

(** ** Transfers that go through *)

Lemma le_not_lt (a b : jsval) : js_le a b = true -> js_lt b a = false.
Proof.
  unfold js_le, js_lt.
  destruct (Number a) as [| | |x], (Number b) as [| | |y]; cbn;
    try discriminate; try reflexivity.
  intros H. unfold Qltb. rewrite H. reflexivity.
Qed.

Lemma transfer_run (e : env) (fromUserId : Z) (toUsername : option string)
    (amount : jsval) (toUser fromUser freshToUser : user) (t : tables)
    (tr : list (kind * bool)) :
  quiet e ->
  truthy_str toUsername = true ->
  accepted amount ->
  select_user_by_name toUsername t = Some toUser ->
  select_user_by_id fromUserId t = Some fromUser ->
  select_user_by_id (user_id toUser) t = Some freshToUser ->
  js_lt (balance fromUser) amount = false ->
  exists row,
    run e (Tx.transfer fromUserId toUsername amount) (mkWorld (mkConn t None) tr) =
    (Returned
       (mkResponse 200
          (Balances (num_sub (Number (balance fromUser)) (Number amount))
             (num_add (Number (balance freshToUser)) (Number amount)))),
     mkWorld
       (mkConn (appended row (transferred fromUser freshToUser amount t)) None)
       (tr ++ [(KSelect, true); (KBegin, true); (KSelect, true); (KSelect, true);
               (KUpdate, true); (KUpdate, true); (KInsert, true);
               (KCommit, true)]))
    /\ status row = Committed /\ type row = TTransfer.
Proof.
  intros Hq Hto Ha Hname Hfrom Hfresh Hlt. unfold quiet in Hq.
  pose proof Ha as Hv. unfold accepted in Hv.
  unfold Tx.transfer. rewrite Hto. cbn [negb orb]. rewrite Hv.
  assert (Hf1 : user_id fromUser = fromUserId)
    by (apply find_has_id in Hfrom; tauto).
  assert (Hf2 : user_id freshToUser = user_id toUser)
    by (apply find_has_id in Hfresh; tauto).
  subst fromUserId.
  pose proof Hfresh as Hfresh'. rewrite <- Hf2 in Hfresh'.
  run_quiet. tidy_trace.
  eexists. split; [reflexivity|]. split; reflexivity.
Qed.

Lemma simple_transfer_run (e : env) (uid : Z) (toUsername : option string)
    (amount : jsval) (toUser fromUser : user) (c : conn)
    (tr : list (kind * bool)) :
  quiet e ->
  truthy_str toUsername = true ->
  accepted amount ->
  select_user_by_name toUsername (live c) = Some toUser ->
  select_user_by_id uid (live c) = Some fromUser ->
  js_lt (balance fromUser) amount = false ->
  run e (Simple.transfer uid toUsername amount) (mkWorld c tr) =
  (Returned
     (mkResponse 200
        (Balances (num_sub (Number (balance fromUser)) (Number amount))
           (num_add (Number (balance toUser)) (Number amount)))),
   mkWorld
     (modify (fun t => transferred fromUser toUser amount t) c)
     (tr ++ [(KSelect, true); (KSelect, true); (KUpdate, true); (KUpdate, true)])).
Proof.
  intros Hq Hto Ha Hname Hfrom Hlt. unfold quiet in Hq.
  assert (Hv : negb (truthy amount) || js_le amount (JNum zero) = false).
  { unfold accepted in Ha. apply orb_false_iff in Ha. destruct Ha as [Ha1 Ha2].
    apply orb_false_iff in Ha1. destruct Ha1 as [Ha1 _]. rewrite Ha1, Ha2.
    reflexivity. }
  unfold Simple.transfer. rewrite Hto. cbn [negb orb]. rewrite Hv.
  destruct c as [t sv]. cbn [live] in *.
  run_quiet. tidy_trace. reflexivity.
Qed.

Lemma select_transferred_self (A : user) (amount : jsval) (t : tables) :
  select_user_by_id (user_id A) t = Some A ->
  select_user_by_id (user_id A) (transferred A A amount t) =
  Some
    (mkUser (user_id A) (username A) (password A)
       (num_add (Number (balance A)) (Number amount))).
Proof.
  intros H. unfold transferred.
  rewrite !select_update, Z.eqb_refl, H. reflexivity.
Qed.

(** C3 as amended.  For an account A with balance [b] and a
    positive amount [m <= b], a transfer whose destination name resolves to A
    itself succeeds (when no statement fails) and answers
    [{ fromBalance: d, toBalance: s }], where [d] and [s] are the binary64
    difference and sum of [b] and [m]: the binary64 values nearest to
    [b - m] and [b + m] (the even one of two), hence these themselves
    whenever they are binary64 values.
    A's row ends up holding [s]: both new balances come from the same read of
    A and the second UPDATE overwrites the first.  This holds for the
    transactional route and for the route without transactions. *)
Theorem self_transfer_credits (e : env) (uid : Z) (toUsername : option string)
    (amount : jsval) (A : user) (w : world) :
  quiet e -> idle w ->
  truthy_str toUsername = true ->
  positive amount ->
  select_user_by_name toUsername (live (db w)) = Some A ->
  select_user_by_id uid (live (db w)) = Some A ->
  js_le amount (balance A) = true ->
  let d := num_sub (Number (balance A)) (Number amount) in
  let s := num_add (Number (balance A)) (Number amount) in
  let credited := mkUser (user_id A) (username A) (password A) s in
  let tx := run e (Tx.transfer uid toUsername amount) w in
  let simple := run e (Simple.transfer uid toUsername amount) w in
  (forall b m : Q,
     Number (balance A) = Fin b -> Number amount = Fin m ->
     rounded (b - m) d /\ rounded (b + m) s) /\
  (fst tx = Returned (mkResponse 200 (Balances d s)) /\
   select_user_by_id uid (live (db (snd tx))) = Some credited) /\
  (fst simple = Returned (mkResponse 200 (Balances d s)) /\
   select_user_by_id uid (live (db (snd simple))) = Some credited).
Proof.
  intros Hq Hidle Hto Hpos Hname Hid Hle.
  destruct w as [[t sv] tr]. unfold idle in Hidle; cbn in Hidle, Hname, Hid; subst sv.
  apply positive_accepted in Hpos. apply le_not_lt in Hle.
  assert (HA : user_id A = uid) by (apply find_has_id in Hid; tauto).
  subst uid. cbv zeta. split; [|split].
  - intros b m Hb Hm. split.
    + apply (num_sub_rounded _ _ b m Hb Hm).
    + apply (num_add_rounded _ _ b m Hb Hm).
  - destruct (transfer_run e (user_id A) toUsername amount A A A t tr
                Hq Hto Hpos Hname Hid Hid Hle) as [row [Hrun _]].
    rewrite Hrun. cbn [fst snd db live]. split; [reflexivity|].
    rewrite select_appended. apply select_transferred_self. exact Hid.
  - rewrite (simple_transfer_run e (user_id A) toUsername amount A A
               (mkConn t None) tr Hq Hto Hpos Hname Hid Hle).
    cbn [fst snd db live modify]. split; [reflexivity|].
    apply select_transferred_self. exact Hid.
Qed.

Lemma self_transfer_credits_witness :
  let amount := JNum (of_Z 200) in
  let credited := mkUser 1 "alice" "$2b$10$alice" (of_Z 1200) in
  let tx := run calm (Tx.transfer 1 (Some "alice"%string) amount) initial_world in
  let simple :=
    run calm (Simple.transfer 1 (Some "alice"%string) amount) initial_world in
  (fst tx = Returned (mkResponse 200 (Balances (of_Z 800) (of_Z 1200))) /\
   select_user_by_id 1 (live (db (snd tx))) = Some credited) /\
  (fst simple = Returned (mkResponse 200 (Balances (of_Z 800) (of_Z 1200))) /\
   select_user_by_id 1 (live (db (snd simple))) = Some credited).
Proof.
  exact (proj2
           (self_transfer_credits calm 1 (Some "alice"%string) (JNum (of_Z 200))
              (mkUser 1 "alice" "$2b$10$alice" (of_Z 1000)) initial_world
              calm_quiet eq_refl eq_refl eq_refl eq_refl eq_refl eq_refl)).
Defined.

(** C3 as stated does not hold: the credit is a binary64 sum.  Starting
    from the initial database, alice (1000) deposits [2^53 - 1000], which
    brings her to [2^53]; a transfer of 1 to herself is then answered
    [{ fromBalance: 2^53 - 1, toBalance: 2^53 }] and leaves her at [2^53],
    which is not [2^53 + 1]; on both servers. *)
Lemma self_transfer_credit_is_rounded :
  let b := 2 ^ 53 in
  let amount := JNum (of_Z 1) in
  let w := snd (run calm (Tx.deposit_tx 1 (JNum (of_Z (b - 1000)))) initial_world) in
  let w' := snd (run calm (Simple.deposit 1 (JNum (of_Z (b - 1000)))) initial_world) in
  let tx := run calm (Tx.transfer 1 (Some "alice"%string) amount) w in
  let simple := run calm (Simple.transfer 1 (Some "alice"%string) amount) w' in
  positive amount /\
  js_le amount (JNum (of_Z b)) = true /\
  (idle w /\
   option_map balance_col (select_user_by_id 1 (live (db w))) = Some (of_Z b) /\
   fst tx = Returned (mkResponse 200 (Balances (of_Z (b - 1)) (of_Z b))) /\
   option_map balance_col (select_user_by_id 1 (live (db (snd tx)))) =
     Some (of_Z b)) /\
  (idle w' /\
   option_map balance_col (select_user_by_id 1 (live (db w'))) = Some (of_Z b) /\
   fst simple = Returned (mkResponse 200 (Balances (of_Z (b - 1)) (of_Z b))) /\
   option_map balance_col (select_user_by_id 1 (live (db (snd simple)))) =
     Some (of_Z b)) /\
  ~ (inject_Z b == inject_Z b + 1)%Q.
Proof.
  vm_compute. repeat split; try reflexivity. intros H. discriminate H.
Qed.

(** ** Conservation *)

Lemma sub_exact (a b : num) (x y : Q) :
  a = Fin x -> b = Fin y -> binary64 (x - y) ->
  exists z : Q, num_sub a b = Fin z /\ (z == x - y)%Q.
Proof. intros Ha Hb. apply (num_sub_rounded a b x y Ha Hb). Qed.

Lemma add_exact (a b : num) (x y : Q) :
  a = Fin x -> b = Fin y -> binary64 (x + y) ->
  exists z : Q, num_add a b = Fin z /\ (z == x + y)%Q.
Proof. intros Ha Hb. apply (num_add_rounded a b x y Ha Hb). Qed.

(** Between two different accounts with balances [b1] and [b2], a transfer
    of [m] whose exact results [b1 - m] and [b2 + m] are binary64 values
    (whole amounts below [2^53], say) answers with these two values and
    stores them in the two rows: the sum of the two balances is kept.  Where
    a result is not a binary64 value it is rounded and the sum is not kept
    ([transfer_loses_a_unit] below). *)
Lemma transfer_between_accounts_conserves (e : env) (fromUserId : Z)
    (toUsername : option string) (amount : jsval)
    (toUser fromUser freshToUser : user) (t : tables) (tr : list (kind * bool))
    (b1 b2 m : Q) :
  quiet e ->
  truthy_str toUsername = true ->
  accepted amount ->
  select_user_by_name toUsername t = Some toUser ->
  select_user_by_id fromUserId t = Some fromUser ->
  select_user_by_id (user_id toUser) t = Some freshToUser ->
  user_id toUser <> fromUserId ->
  js_lt (balance fromUser) amount = false ->
  balance_col fromUser = Fin b1 ->
  balance_col freshToUser = Fin b2 ->
  Number amount = Fin m ->
  binary64 (b1 - m) -> binary64 (b2 + m) ->
  let out :=
    run e (Tx.transfer fromUserId toUsername amount)
      (mkWorld (mkConn t None) tr) in
  exists z1 z2 : Q,
    fst out = Returned (mkResponse 200 (Balances (Fin z1) (Fin z2))) /\
    option_map balance_col
      (select_user_by_id fromUserId (live (db (snd out)))) = Some (Fin z1) /\
    option_map balance_col
      (select_user_by_id (user_id toUser) (live (db (snd out)))) =
      Some (Fin z2) /\
    (z1 == b1 - m)%Q /\ (z2 == b2 + m)%Q /\ (z1 + z2 == b1 + b2)%Q.
Proof.
  intros Hq Hto Ha Hname Hfrom Hfresh Hne Hlt Hb1 Hb2 Hm Hr1 Hr2.
  destruct (transfer_run e fromUserId toUsername amount toUser fromUser
              freshToUser t tr Hq Hto Ha Hname Hfrom Hfresh Hlt)
    as [row [Hrun _]].
  assert (Hf1 : user_id fromUser = fromUserId)
    by (apply find_has_id in Hfrom; tauto).
  assert (Hf2 : user_id freshToUser = user_id toUser)
    by (apply find_has_id in Hfresh; tauto).
  assert (Hn1 : Z.eqb fromUserId (user_id toUser) = false)
    by (apply Z.eqb_neq; congruence).
  assert (Hn2 : Z.eqb (user_id toUser) fromUserId = false)
    by (apply Z.eqb_neq; congruence).
  assert (HB1 : Number (balance fromUser) = Fin b1)
    by (unfold balance, read_real; rewrite Hb1; reflexivity).
  assert (HB2 : Number (balance freshToUser) = Fin b2)
    by (unfold balance, read_real; rewrite Hb2; reflexivity).
  destruct (sub_exact _ _ b1 m HB1 Hm Hr1) as (z1 & E1 & Hz1).
  destruct (add_exact _ _ b2 m HB2 Hm Hr2) as (z2 & E2 & Hz2).
  exists z1, z2.
  cbv zeta. rewrite Hrun. cbn [fst snd db live].
  rewrite !select_appended. unfold transferred.
  rewrite !select_update, Hf1, Hf2, Hn1, Hn2, !Z.eqb_refl, Hfrom, Hfresh.
  cbn [option_map set_balance balance_col]. rewrite E1, E2.
  split; [reflexivity|]. split; [reflexivity|]. split; [reflexivity|].
  split; [exact Hz1|]. split; [exact Hz2|]. rewrite Hz1, Hz2. ring.
Qed.

(** Without that premise the sum is not kept: 1000 sends 1 to an account
    holding [2^53], which stays at [2^53] while the sender goes to 999. *)
Example transfer_loses_a_unit :
  let t :=
    mkTables
      [mkUser 1 "alice" "$2b$10$alice" (of_Z 1000);
       mkUser 2 "bob" "$2b$10$bob" (of_Z (2 ^ 53))]
      [] 0 in
  let out :=
    run calm (Tx.transfer 1 (Some "bob"%string) (JNum (of_Z 1)))
      (mkWorld (mkConn t None) []) in
  fst out = Returned (mkResponse 200 (Balances (of_Z 999) (of_Z (2 ^ 53)))) /\
  balance_of 1 (live (db (snd out))) = of_Z 999 /\
  balance_of 2 (live (db (snd out))) = of_Z (2 ^ 53).
Proof. vm_compute. repeat split; reflexivity. Qed.

(** C2 fails on a transfer to oneself.  alice (balance 1000) transfers 200 to
    "alice": the call succeeds, source and destination are both account 1,
    and the sum of the two participants' balances goes from 1000 + 1000 to
    1200 + 1200.  The route without transactions does the same. *)
Theorem self_transfer_breaks_conservation :
  let amount := JNum (of_Z 200) in
  let tx := run calm (Tx.transfer 1 (Some "alice"%string) amount) initial_world in
  let simple :=
    run calm (Simple.transfer 1 (Some "alice"%string) amount) initial_world in
  let before := balance_of 1 initial_tables in
  (fst tx = Returned (mkResponse 200 (Balances (of_Z 800) (of_Z 1200))) /\
   before = of_Z 1000 /\
   balance_of 1 (live (db (snd tx))) = of_Z 1200 /\
   num_eqb (num_add before before)
     (num_add (balance_of 1 (live (db (snd tx))))
        (balance_of 1 (live (db (snd tx))))) = false) /\
  (fst simple = Returned (mkResponse 200 (Balances (of_Z 800) (of_Z 1200))) /\
   balance_of 1 (live (db (snd simple))) = of_Z 1200 /\
   num_eqb (num_add before before)
     (num_add (balance_of 1 (live (db (snd simple))))
        (balance_of 1 (live (db (snd simple))))) = false).
Proof. vm_compute. repeat split; reflexivity. Qed.

(** ** Reading the history *)

Lemma filter_absent (i : Z) (us : list user) :
  ~ In i (map user_id us) -> filter (has_id i) us = [].
Proof.
  induction us as [|u us IH]; cbn; [reflexivity|].
  intros H. destruct (has_id i u) eqn:E.
  - exfalso. apply H. left. apply Z.eqb_eq. exact E.
  - apply IH. intros Hin. apply H. right. exact Hin.
Qed.

(** With [id] a key, the rows matching an id are the one [find] returns. *)
Lemma filter_by_key (i : Z) (us : list user) :
  NoDup (map user_id us) ->
  filter (has_id i) us =
  match find (has_id i) us with Some u => [u] | None => [] end.
Proof.
  induction us as [|u us IH]; cbn; [reflexivity|].
  intros H. inversion H as [|x l Hnotin Hnodup]; subst.
  destruct (has_id i u) eqn:E.
  - apply Z.eqb_eq in E. subst i. rewrite (filter_absent _ _ Hnotin). reflexivity.
  - apply IH. exact Hnodup.
Qed.

Lemma left_join_key (k : option Z) (us : list user) :
  NoDup (map user_id us) -> left_join k us = [name_of us k].
Proof.
  intros H. destruct k as [i|]; cbn; [|reflexivity].
  rewrite (filter_by_key i us H).
  destruct (find (has_id i) us); reflexivity.
Qed.

Lemma joined_key (us : list user) (r : tx_row) :
  NoDup (map user_id us) -> joined us r = [enrich us r].
Proof.
  intros H. unfold joined. rewrite !(left_join_key _ us H). reflexivity.
Qed.

Lemma flat_map_joined (us : list user) (rows : list tx_row) :
  NoDup (map user_id us) -> flat_map (joined us) rows = map (enrich us) rows.
Proof.
  intros H. induction rows as [|r rows IH]; cbn; [reflexivity|].
  rewrite (joined_key us r H), IH. reflexivity.
Qed.

Lemma insert_desc_perm (v : tx_view) (l : list tx_view) :
  Permutation (insert_desc v l) (v :: l).
Proof.
  induction l as [|w l IH]; cbn; [reflexivity|].
  destruct (Z.leb _ _); [reflexivity|].
  rewrite IH. apply perm_swap.
Qed.

Lemma insert_desc_hd (u v : tx_view) (l : list tx_view) :
  newer_or_same u v -> HdRel newer_or_same u l ->
  HdRel newer_or_same u (insert_desc v l).
Proof.
  intros Huv Hl. destruct l as [|w l]; cbn.
  - constructor. exact Huv.
  - destruct (Z.leb _ _); constructor; [exact Huv|].
    inversion Hl; assumption.
Qed.

Lemma insert_desc_sorted (v : tx_view) (l : list tx_view) :
  Sorted newer_or_same l -> Sorted newer_or_same (insert_desc v l).
Proof.
  induction 1 as [|w l Hs IH Hhd]; cbn.
  - repeat constructor.
  - destruct (Z.leb_spec (created_at (v_row w)) (created_at (v_row v))) as [Hle|Hgt].
    + constructor; [constructor; assumption|]. constructor. exact Hle.
    + constructor; [exact IH|].
      apply insert_desc_hd; [|exact Hhd]. unfold newer_or_same. lia.
Qed.

Lemma order_by_perm (l : list tx_view) :
  Permutation (order_by_created_at_desc l) l.
Proof.
  induction l as [|v l IH]; cbn; [reflexivity|].
  rewrite insert_desc_perm. constructor. exact IH.
Qed.

Lemma order_by_sorted (l : list tx_view) :
  Sorted newer_or_same (order_by_created_at_desc l).
Proof.
  induction l as [|v l IH]; cbn; [constructor|].
  apply insert_desc_sorted. exact IH.
Qed.

Lemma filter_all {A : Type} (l : list A) : filter (fun _ => true) l = l.
Proof. induction l as [|x l IH]; cbn; [|rewrite IH]; reflexivity. Qed.

Lemma participates_iff (i : Z) (r : tx_row) :
  participates i r = true <-> from_user r = Some i \/ to_user r = Some i.
Proof.
  unfold participates. rewrite orb_true_iff.
  destruct (from_user r) as [f|], (to_user r) as [t|];
    rewrite ?Z.eqb_eq; split; intros [H|H];
    try discriminate; try (inversion H; subst); auto; try (left; congruence);
    try (right; congruence).
Qed.

(** C9.  When its SELECT does not fail, the history route answers 200 with
    rows that are, up to order, exactly the rows of [transactions] in which
    the given account is [from_user] or [to_user] (all rows without a
    filter), each paired with the usernames its two references resolve to;
    the rows come newest first by [created_at]; the database is untouched. *)
Theorem history_newest_first (e : env) (userId : option Z) (w : world) :
  quiet e -> primary_key (live (db w)) ->
  let t := live (db w) in
  exists rows,
    run e (Tx.list_transactions userId) w =
      (Returned (mkResponse 200 (Rows rows)),
       mkWorld (db w) (trace w ++ [(KSelect, true)])) /\
    Permutation rows
      (map (enrich (users t)) (filter (appears userId) (transactions t))) /\
    Sorted newer_or_same rows /\
    (forall i r, userId = Some i ->
       (appears userId r = true <-> from_user r = Some i \/ to_user r = Some i)) /\
    (userId = None -> Permutation rows (map (enrich (users t)) (transactions t))).
Proof.
  intros Hq Hkey. unfold quiet in Hq. unfold primary_key in Hkey.
  destruct w as [[t sv] tr]. cbn [db live trace] in *. cbv zeta.
  exists (select_transactions userId t).
  assert (Hrows :
    select_transactions userId t =
    order_by_created_at_desc
      (map (enrich (users t)) (filter (appears userId) (transactions t)))).
  { unfold select_transactions. rewrite (flat_map_joined _ _ Hkey).
    destruct userId as [i|]; cbn [appears]; [reflexivity|].
    rewrite filter_all. reflexivity. }
  split; [|split; [|split; [|split]]].
  - unfold Tx.list_transactions. run_quiet. reflexivity.
  - rewrite Hrows. apply order_by_perm.
  - rewrite Hrows. apply order_by_sorted.
  - intros i r ->. cbn [appears]. apply participates_iff.
  - intros ->. rewrite Hrows. cbn [appears]. rewrite filter_all.
    apply order_by_perm.
Qed.

Lemma history_newest_first_witness :
  let w :=
    Tx.serve calm
      [Tx.Transfer 1 (Some "bob"%string) (JNum (of_Z 200));
       Tx.Deposit 1 (JNum (of_Z 50))]
      initial_world in
  let t := live (db w) in
  exists rows,
    run calm (Tx.list_transactions (Some 2)) w =
      (Returned (mkResponse 200 (Rows rows)),
       mkWorld (db w) (trace w ++ [(KSelect, true)])) /\
    Permutation rows
      (map (enrich (users t)) (filter (appears (Some 2)) (transactions t))) /\
    Sorted newer_or_same rows /\
    (forall i r, Some 2 = Some i ->
       (appears (Some 2) r = true <-> from_user r = Some i \/ to_user r = Some i)) /\
    (Some 2 = None -> Permutation rows (map (enrich (users t)) (transactions t))).
Proof.
  apply (history_newest_first calm (Some 2)).
  - exact calm_quiet.
  - unfold primary_key. vm_compute.
    constructor.
    + intros [H|[]]. discriminate H.
    + constructor; [intros []|constructor].
Defined.

(** ** Two requests in flight *)

(** C10 fails.  Two transfers of 200 from alice to bob are in flight
    together.  The first handler opens its transaction; the BEGIN of the
    second does not wait, it is refused ("cannot start a transaction within a
    transaction"); the second handler's ROLLBACK then closes the first
    handler's transaction; the first handler's UPDATEs commit one by one and
    its COMMIT and ROLLBACK are refused in turn.  Both calls answer 500
    "Transfer failed, rolled back", yet alice holds 800 and bob 700, which no
    order of the two transfers served one after the other produces
    (600 and 900). *)
Theorem interleaved_transfers_not_serialized :
  let r := Tx.Transfer 1 (Some "bob"%string) (JNum (of_Z 200)) in
  let schedule := [0; 0; 1; 1; 1; 1; 0; 0; 0; 0; 0; 0; 0]%nat in
  let res := run_schedule calm schedule (map Tx.handle [r; r]) initial_world in
  let failure := mkResponse 500 (Error "Transfer failed, rolled back") in
  fst res = [Ret failure; Ret failure] /\
  trace (snd res) =
    [(KSelect, true); (KBegin, true); (KSelect, true); (KBegin, false);
     (KRollback, true); (KInsert, true); (KSelect, true); (KSelect, true);
     (KUpdate, true); (KUpdate, true); (KInsert, true); (KCommit, false);
     (KRollback, false)] /\
  balance_of 1 (live (db (snd res))) = of_Z 800 /\
  balance_of 2 (live (db (snd res))) = of_Z 700 /\
  balance_of 1 (live (db (Tx.serve calm [r; r] initial_world))) = of_Z 600 /\
  balance_of 2 (live (db (Tx.serve calm [r; r] initial_world))) = of_Z 900 /\
  ~ serializable calm [r; r] initial_world.
Proof.
  cbv zeta.
  split; [vm_compute; reflexivity|].
  split; [vm_compute; reflexivity|].
  split; [vm_compute; reflexivity|].
  split; [vm_compute; reflexivity|].
  split; [vm_compute; reflexivity|].
  split; [vm_compute; reflexivity|].
  intros H.
  destruct (run_schedule calm [0; 0; 1; 1; 1; 1; 0; 0; 0; 0; 0; 0; 0]%nat
              (map Tx.handle
                 [Tx.Transfer 1 (Some "bob"%string) (JNum (of_Z 200));
                  Tx.Transfer 1 (Some "bob"%string) (JNum (of_Z 200))])
              initial_world) as [ps' w'] eqn:E.
  specialize (H _ _ _ E).
  vm_compute in E. inversion E; subst ps' w'; clear E.
  destruct (H eq_refl) as [order [Hperm Hus]].
  apply Permutation_sym in Hperm. apply Permutation_length_2_inv in Hperm.
  destruct Hperm as [-> | ->]; vm_compute in Hus; discriminate Hus.
Qed.

(** * Further properties of the routes *)

(** ** What no statement can do *)

Lemma perform_keeps (I : conn -> Prop) :
  kept_by_statements I ->
  forall (X : Type) (e : env) (s : stmt X) (w : world),
    I (db w) -> I (db (snd (perform e s w))).
Proof.
  intros HI X e s w Hw. unfold perform.
  destruct (negb (is_rollback (kind_of s)) && fault e (List.length (trace w)));
    [exact Hw|].
  specialize (HI X s (clock e (List.length (trace w))) (db w) Hw).
  destruct (sql (clock e (List.length (trace w))) s (db w)) as [r c].
  exact HI.
Qed.

Lemma run_keeps (I : conn -> Prop) (R : Type) (p : prog R) :
  kept_by_statements I ->
  forall (e : env) (w : world), I (db w) -> I (db (snd (run e p w))).
Proof.
  intros HI. induction p as [r|m|X s k IH]; intros e w Hw; cbn [run].
  - exact Hw.
  - exact Hw.
  - pose proof (perform_keeps I HI X e s w Hw) as Hstep.
    destruct (perform e s w) as [r w1]. apply IH. exact Hstep.
Qed.

Lemma advance_keeps (I : conn -> Prop) (e : env) (p : prog response) (w : world) :
  kept_by_statements I -> I (db w) -> I (db (snd (advance e p w))).
Proof.
  intros HI Hw. destruct p as [r|m|X s k]; cbn [advance]; try exact Hw.
  pose proof (perform_keeps I HI X e s w Hw) as Hstep.
  destruct (perform e s w) as [r w1]. exact Hstep.
Qed.

Lemma run_schedule_keeps (I : conn -> Prop) (e : env) (schedule : list nat) :
  kept_by_statements I ->
  forall (ps : list (prog response)) (w : world),
    I (db w) -> I (db (snd (run_schedule e schedule ps w))).
Proof.
  intros HI. induction schedule as [|i rest IH]; intros ps w Hw; cbn [run_schedule].
  - exact Hw.
  - destruct (nth_error ps i) as [p|]; [|apply IH; exact Hw].
    pose proof (advance_keeps I e p w HI Hw) as Hstep.
    destruct (advance e p w) as [p' w1]. apply IH. exact Hstep.
Qed.

Lemma accounts_update (b : num) (i : Z) (t : tables) :
  accounts (update_balance b i t) = accounts t.
Proof.
  unfold accounts, update_balance; cbn [users].
  rewrite map_map. apply map_ext. intros u.
  destruct (has_id i u); reflexivity.
Qed.

Lemma accounts_insert (now : Z) (p : tx_params) (t : tables) :
  accounts (snd (insert_tx now p t)) = accounts t.
Proof.
  destruct (insert_tx_cases now p t) as [[m H]|H]; rewrite H; reflexivity.
Qed.

Lemma accounts_kept (U : list (Z * string * string)) :
  kept_by_statements (accounts_are U).
Proof.
  intros X s now [t sv] [Hl Hs]. cbn [live saved] in *.
  assert (Hsame : accounts_are U (mkConn t sv)) by (split; assumption).
  destruct s as [[| |]| | | | |]; cbn [sql live saved].
  - destruct sv as [s|]; cbn [snd]; [exact Hsame|].
    split; cbn [live saved]; [exact Hl|].
    intros s' E. injection E as <-. exact Hl.
  - destruct sv as [s|]; cbn [snd]; [|exact Hsame].
    split; cbn [live saved]; [exact Hl|discriminate].
  - destruct sv as [s|]; cbn [snd]; [|exact Hsame].
    split; cbn [live saved]; [apply Hs; reflexivity|discriminate].
  - exact Hsame.
  - exact Hsame.
  - cbn [snd]. unfold modify. split; cbn [live saved]; [|exact Hs].
    rewrite accounts_update. exact Hl.
  - pose proof (accounts_insert now p t) as Hi.
    destruct (insert_tx now p t) as [r t']. cbn [snd] in *.
    split; cbn [live saved]; [congruence|exact Hs].
  - exact Hsame.
Qed.

Lemma ids_of_accounts (t : tables) :
  map user_id (users t) = map (fun a => fst (fst a)) (accounts t).
Proof. unfold accounts. rewrite map_map. reflexivity. Qed.

(** However the handlers are interleaved on the connection and whichever
    statements fail, the rows of [users] keep their number, order, ids,
    usernames and password hashes: only balances can change.  In particular
    [id] stays a key. *)
Theorem accounts_never_change (e : env) (schedule : list nat)
    (ps : list (prog response)) (w : world) :
  idle w ->
  let w' := snd (run_schedule e schedule ps w) in
  accounts (live (db w')) = accounts (live (db w)) /\
  (primary_key (live (db w)) -> primary_key (live (db w'))).
Proof.
  intros Hidle. cbv zeta.
  assert (H : accounts_are (accounts (live (db w)))
                (db (snd (run_schedule e schedule ps w)))).
  { apply run_schedule_keeps; [apply accounts_kept|].
    split; [reflexivity|]. unfold idle in Hidle. rewrite Hidle. discriminate. }
  destruct H as [H _]. split; [exact H|].
  unfold primary_key. rewrite !ids_of_accounts, H. auto.
Qed.

Lemma accounts_never_change_witness :
  let r := Tx.Transfer 1 (Some "bob"%string) (JNum (of_Z 200)) in
  let ps := [Tx.handle r; Simple.transfer 2 (Some "alice"%string) (JNum (of_Z 5))] in
  let w' := snd (run_schedule calm [0; 1; 0; 1; 1; 0; 0; 1; 0; 0; 0]%nat ps
                   initial_world) in
  accounts (live (db w')) = accounts (live (db initial_world)) /\
  (primary_key (live (db initial_world)) -> primary_key (live (db w'))).
Proof.
  apply (accounts_never_change calm). reflexivity.
Defined.

(** ** Row ids of the history *)

Lemma sorted_snoc (l : list Z) (n : Z) :
  StronglySorted Z.lt l -> Forall (fun i => i < n) l ->
  StronglySorted Z.lt (l ++ [n]).
Proof.
  induction 1 as [|x l Hs IH Hx]; intros Hn; cbn.
  - repeat constructor.
  - inversion Hn; subst. constructor; [apply IH; assumption|].
    apply Forall_app. split; [exact Hx|]. constructor; [assumption|constructor].
Qed.

Lemma ids_increase_insert (now : Z) (p : tx_params) (t : tables) :
  ids_increase t -> ids_increase (snd (insert_tx now p t)).
Proof.
  intros [Hs Hb].
  destruct (insert_tx_cases now p t) as [[m H]|H]; rewrite H; cbn [snd].
  - split; assumption.
  - unfold ids_increase, appended, new_row; cbn [transactions tx_seq tx_id].
    rewrite map_app; cbn [map tx_id]. split.
    + apply sorted_snoc; [exact Hs|].
      eapply Forall_impl; [|exact Hb]. cbn. intros i Hi. lia.
    + apply Forall_app. split.
      * eapply Forall_impl; [|exact Hb]. cbn. intros i Hi. lia.
      * constructor; [lia|constructor].
Qed.

Lemma log_order_kept : kept_by_statements log_in_order.
Proof.
  intros X s now [t sv] [Hl Hs]. cbn [live saved] in *.
  assert (Hsame : log_in_order (mkConn t sv)) by (split; assumption).
  destruct s as [[| |]| | | | |]; cbn [sql live saved].
  - destruct sv as [s|]; cbn [snd]; [exact Hsame|].
    split; cbn [live saved]; [exact Hl|].
    intros s' E. injection E as <-. exact Hl.
  - destruct sv as [s|]; cbn [snd]; [|exact Hsame].
    split; cbn [live saved]; [exact Hl|discriminate].
  - destruct sv as [s|]; cbn [snd]; [|exact Hsame].
    split; cbn [live saved]; [apply Hs; reflexivity|discriminate].
  - exact Hsame.
  - exact Hsame.
  - cbn [snd]. unfold modify. split; cbn [live saved]; [|exact Hs]. exact Hl.
  - pose proof (ids_increase_insert now p t Hl) as Hi.
    destruct (insert_tx now p t) as [r t']. cbn [snd] in *.
    split; cbn [live saved]; [exact Hi|exact Hs].
  - exact Hsame.
Qed.

Lemma sorted_nodup (l : list Z) : StronglySorted Z.lt l -> NoDup l.
Proof.
  induction 1 as [|x l Hs IH Hx]; constructor; [|exact IH].
  intros Hin. rewrite Forall_forall in Hx. specialize (Hx x Hin). lia.
Qed.

(** However the handlers are interleaved and whichever statements fail, the
    ids of the history rows grow strictly along the table: no two rows carry
    the same id (a ROLLBACK gives the counter back together with the rows it
    removes), and the row added last carries the largest id. *)
Theorem history_ids_increase (e : env) (schedule : list nat)
    (ps : list (prog response)) (w : world) :
  idle w -> ids_increase (live (db w)) ->
  let t' := live (db (snd (run_schedule e schedule ps w))) in
  StronglySorted Z.lt (map tx_id (transactions t')) /\
  NoDup (map tx_id (transactions t')).
Proof.
  intros Hidle Hids. cbv zeta.
  assert (H : log_in_order (db (snd (run_schedule e schedule ps w)))).
  { apply run_schedule_keeps; [apply log_order_kept|].
    split; [exact Hids|]. unfold idle in Hidle. rewrite Hidle. discriminate. }
  destruct H as [[H _] _]. split; [exact H|]. apply sorted_nodup. exact H.
Qed.

Lemma history_ids_increase_witness :
  let r := Tx.Transfer 1 (Some "bob"%string) (JNum (of_Z 200)) in
  let t' :=
    live (db (snd (run_schedule calm [0; 0; 1; 1; 1; 1; 0; 0; 0; 0; 0; 0; 0]%nat
                     (map Tx.handle [r; r]) initial_world))) in
  StronglySorted Z.lt (map tx_id (transactions t')) /\
  NoDup (map tx_id (transactions t')).
Proof.
  apply (history_ids_increase calm).
  - reflexivity.
  - split; constructor.
Defined.

(** ** The history between requests *)

Lemma request_applied_row (r : Tx.request) (t : tables)
    (o : outcome response) (w' : world) :
  request_applied r t (o, w') ->
  saved (db w') = None /\
  exists row,
    transactions (live (db w')) = transactions t ++ [row] /\
    status row = Committed /\ type row = type_of r.
Proof.
  destruct r; cbn [request_applied type_of].
  - destruct (select_user_by_id _ _); [|contradiction].
    intros [_ H]. inversion H; subst. eauto.
  - destruct (select_user_by_id _ _); [|contradiction].
    intros [_ [_ H]]. inversion H; subst. eauto.
  - destruct (select_user_by_name _ _); [|contradiction].
    destruct (select_user_by_id _ _); [|contradiction].
    destruct (select_user_by_id _ _); [|contradiction].
    intros [_ [_ H]]. inversion H; subst. eauto.
Qed.

Lemma handle_appends (e : env) (r : Tx.request) (w : world) :
  idle w ->
  idle (snd (run e (Tx.handle r) w)) /\
  exists l,
    transactions (live (db (snd (run e (Tx.handle r) w)))) =
      transactions (live (db w)) ++ l /\
    (List.length l <= 1)%nat.
Proof.
  intros Hidle.
  destruct (handle_effect e r w Hidle) as [H|H]; cbv zeta in H;
    destruct (run e (Tx.handle r) w) as [o w'] eqn:Hrun; cbn [snd].
  - inversion H; subst. split; [assumption|]. eauto.
  - apply request_applied_row in H. destruct H as [Hs [row [Ht _]]].
    split; [exact Hs|]. exists [row]. split; [exact Ht|]. cbn. lia.
Qed.

(** Requests served one after the other on an idle connection only ever add
    rows at the end of the history, at most one per request: rows already
    there are never changed, moved or removed, whichever statements fail. *)
Theorem history_append_only (e : env) (rs : list Tx.request) (w : world) :
  idle w ->
  exists l,
    transactions (live (db (Tx.serve e rs w))) = transactions (live (db w)) ++ l /\
    (List.length l <= List.length rs)%nat.
Proof.
  revert w. induction rs as [|r rs IH]; intros w Hidle; cbn [Tx.serve].
  - exists []. rewrite app_nil_r. split; [reflexivity|]. cbn. lia.
  - destruct (handle_appends e r w Hidle) as [Hidle' [l1 [H1 Hn1]]].
    destruct (IH _ Hidle') as [l2 [H2 Hn2]].
    exists (l1 ++ l2). rewrite H2, H1, app_assoc. split; [reflexivity|].
    rewrite length_app. cbn [List.length]. lia.
Qed.

Lemma history_append_only_witness :
  let rs :=
    [Tx.Deposit 1 (JNum (of_Z 10));
     Tx.Withdraw 2 (JNum (of_Z 9000));
     Tx.Transfer 2 (Some "alice"%string) (JNum (of_Z 20))] in
  let w := Tx.serve calm [Tx.Deposit 2 (JNum (of_Z 1))] initial_world in
  exists l,
    transactions (live (db (Tx.serve calm rs w))) = transactions (live (db w)) ++ l /\
    (List.length l <= List.length rs)%nat.
Proof.
  apply (history_append_only calm). reflexivity.
Defined.

(** A deposit, withdrawal or transfer that is answered 200 has added exactly
    one row to the history, with status committed and the type of its route,
    and has left the connection idle; this holds whichever statements
    failed on the way. *)
Theorem success_writes_one_row (e : env) (r : Tx.request) (w w' : world)
    (resp : response) :
  idle w ->
  run e (Tx.handle r) w = (Returned resp, w') ->
  code resp = 200 ->
  idle w' /\
  exists row,
    transactions (live (db w')) = transactions (live (db w)) ++ [row] /\
    status row = Committed /\ type row = type_of r.
Proof.
  intros Hidle Hrun Hcode.
  destruct (handle_effect e r w Hidle) as [H|H]; cbv zeta in H; rewrite Hrun in H.
  - inversion H; subst. cbn in Hcode. contradiction.
  - apply request_applied_row in H. exact H.
Qed.

Lemma success_writes_one_row_witness :
  let r := Tx.Withdraw 2 (JNum (of_Z 120)) in
  let w' := snd (run calm (Tx.handle r) initial_world) in
  idle w' /\
  exists row,
    transactions (live (db w')) = transactions (live (db initial_world)) ++ [row] /\
    status row = Committed /\ type row = type_of r.
Proof.
  apply (success_writes_one_row calm (Tx.Withdraw 2 (JNum (of_Z 120)))
           initial_world _ (mkResponse 200 (Balance (of_Z 380)))).
  - reflexivity.
  - vm_compute. reflexivity.
  - reflexivity.
Defined.

(** ** The routes with [try] always answer *)

Ltac answer :=
  eexists; split; [reflexivity|]; cbn; auto 8.

(** Whatever state the connection is in (idle or inside somebody's
    transaction) and whichever statements fail, deposit-tx, withdraw-tx and
    transfer end with a response, never with an exception, and its status is
    200, 400, 404 or 500. *)
Theorem tx_routes_always_answer (e : env) (r : Tx.request) (w : world) :
  exists resp,
    fst (run e (Tx.handle r) w) = Returned resp /\
    In (code resp) [200; 400; 404; 500].
Proof.
  destruct w as [[t [s|]] tr];
    destruct r as [uid amount|uid amount|fromUserId toUsername amount];
    cbn [Tx.handle];
    [unfold Tx.deposit_tx|unfold Tx.withdraw_tx|unfold Tx.transfer
    |unfold Tx.deposit_tx|unfold Tx.withdraw_tx|unfold Tx.transfer];
    (destruct (_ || _) eqn:Hv; [cbn; answer|]);
    run_handler; answer.
Qed.

(** ** Withdrawal *)

Lemma withdraw_tx_run (e : env) (uid : Z) (amount : jsval) (user : user)
    (t : tables) (tr : list (kind * bool)) :
  quiet e ->
  select_user_by_id uid t = Some user ->
  accepted amount ->
  js_lt (balance user) amount = false ->
  let newBal := num_sub (Number (balance user)) (Number amount) in
  run e (Tx.withdraw_tx uid amount) (mkWorld (mkConn t None) tr) =
  (Returned (mkResponse 200 (Balance newBal)),
   mkWorld
     (mkConn
        (appended
           (mkTx (tx_seq t + 1) TWithdraw (or_null (Some uid)) None (Number amount)
              Committed (clock e (List.length tr + 3))
              (NoteText "withdraw via withdraw-tx"))
           (update_balance newBal uid t))
        None)
     (tr ++ [(KBegin, true); (KSelect, true); (KUpdate, true); (KInsert, true);
             (KCommit, true)])).
Proof.
  intros Hq Hu Ha Hlt. unfold quiet in Hq.
  pose proof Ha as Hv. unfold accepted in Hv.
  destruct (accepted_bind _ Ha) as [Hbind _].
  cbv zeta. unfold Tx.withdraw_tx. rewrite Hv.
  run_quiet. tidy_trace.
  unfold new_row; cbn. rewrite Hbind. reflexivity.
Qed.

(** For an existing account whose balance [b] is not below the accepted
    amount [m], when no statement fails, withdraw-tx answers
    [{ balance: v }] where [v] is the binary64 difference of [b] and [m]:
    the binary64 value nearest to [b - m] (the even one of two), hence
    [b - m] itself whenever that is a binary64 value.  The account's row then holds [v], every other account's
    row is as it was, and the history has gained exactly one row, a committed
    withdrawal with no destination (to_user NULL); all between one BEGIN and
    one COMMIT, which leaves no transaction open. *)
Theorem withdraw_commits (e : env) (uid : Z) (amount : jsval) (user : user)
    (w : world) :
  quiet e -> idle w ->
  select_user_by_id uid (live (db w)) = Some user ->
  positive amount ->
  js_lt (balance user) amount = false ->
  let t := live (db w) in
  let out := run e (Tx.withdraw_tx uid amount) w in
  let v := num_sub (Number (balance user)) (Number amount) in
  (forall b m : Q,
     Number (balance user) = Fin b -> Number amount = Fin m ->
     rounded (b - m) v) /\
  fst out = Returned (mkResponse 200 (Balance v)) /\
  select_user_by_id uid (live (db (snd out))) =
    Some (mkUser (user_id user) (username user) (password user) v) /\
  (forall j : Z,
     j <> uid ->
     select_user_by_id j (live (db (snd out))) = select_user_by_id j t) /\
  transactions (live (db (snd out))) =
    transactions t ++
    [mkTx (tx_seq t + 1) TWithdraw (if uid =? 0 then None else Some uid) None
       (Number amount) Committed (clock e (List.length (trace w) + 3))
       (NoteText "withdraw via withdraw-tx")] /\
  saved (db (snd out)) = None /\
  issued w (snd out) =
    [(KBegin, true); (KSelect, true); (KUpdate, true); (KInsert, true);
     (KCommit, true)].
Proof.
  intros Hq Hidle Hu Hpos Hlt.
  destruct w as [[t sv] tr]. unfold idle in Hidle; cbn in Hidle, Hu; subst sv.
  apply positive_accepted in Hpos.
  cbv zeta. rewrite (withdraw_tx_run e uid amount user t tr Hq Hu Hpos Hlt).
  cbn [fst snd db live trace saved].
  split; [intros b m Hb Hm; apply (num_sub_rounded _ _ b m Hb Hm)|].
  split; [reflexivity|]. split.
  - rewrite select_appended, select_update, Z.eqb_refl, Hu. reflexivity.
  - split; [intros j Hj; rewrite select_appended;
            apply select_update_other; exact Hj|].
    split; [reflexivity|]. split; [reflexivity|]. apply issued_app.
Qed.

Lemma withdraw_commits_witness :
  let out := run calm (Tx.withdraw_tx 2 (JNum (of_Z 120))) initial_world in
  fst out = Returned (mkResponse 200 (Balance (of_Z 380))) /\
  select_user_by_id 2 (live (db (snd out))) =
    Some (mkUser 2 "bob" "$2b$10$bob" (of_Z 380)) /\
  select_user_by_id 1 (live (db (snd out))) =
    Some (mkUser 1 "alice" "$2b$10$alice" (of_Z 1000)) /\
  transactions (live (db (snd out))) =
    [mkTx 1 TWithdraw (Some 2) None (of_Z 120) Committed (clock calm 3)
       (NoteText "withdraw via withdraw-tx")] /\
  saved (db (snd out)) = None /\
  issued initial_world (snd out) =
    [(KBegin, true); (KSelect, true); (KUpdate, true); (KInsert, true);
     (KCommit, true)].
Proof.
  destruct (withdraw_commits calm 2 (JNum (of_Z 120))
              (mkUser 2 "bob" "$2b$10$bob" (of_Z 500)) initial_world
              calm_quiet eq_refl eq_refl eq_refl eq_refl)
    as (_ & Hans & Hrow & Hothers & Hlog & Hsaved & Hissued).
  split; [exact Hans|]. split; [exact Hrow|].
  split; [exact (Hothers 1 ltac:(discriminate))|].
  split; [exact Hlog|]. split; [exact Hsaved|exact Hissued].
Defined.

(** ** Deposit and withdrawal compose *)

Lemma balance_set (b : num) (u : user) :
  balance (set_balance b u) = read_real b.
Proof. reflexivity. Qed.

(** On an account whose balance [b >= 0] is a binary64 value, a deposit of
    a positive amount [m] for which [b + m] is a binary64 value too (whole
    amounts below [2^53], say), followed by a withdrawal of [m] (no statement
    failing): the deposit answers [b + m], the withdrawal answers [b], the
    row is back at [b], and the history holds two more rows, a committed
    deposit and a committed withdrawal.  Where [b + m] is not a binary64
    value the balance need not come back ([deposit_then_withdraw_24_1]). *)
Theorem deposit_then_withdraw (e : env) (uid : Z) (amount : jsval) (user : user)
    (w : world) (b m : Q) :
  quiet e -> idle w ->
  select_user_by_id uid (live (db w)) = Some user ->
  balance_col user = Fin b -> (0 <= b)%Q ->
  Number amount = Fin m -> (0 < m)%Q ->
  binary64 b -> binary64 (b + m) ->
  let w1 := snd (run e (Tx.deposit_tx uid amount) w) in
  let w2 := snd (run e (Tx.withdraw_tx uid amount) w1) in
  exists z1 z2 : Q,
    (z1 == b + m)%Q /\ (z2 == b)%Q /\
    fst (run e (Tx.deposit_tx uid amount) w)
      = Returned (mkResponse 200 (Balance (Fin z1))) /\
    fst (run e (Tx.withdraw_tx uid amount) w1)
      = Returned (mkResponse 200 (Balance (Fin z2))) /\
    option_map balance_col (select_user_by_id uid (live (db w2))) =
      Some (Fin z2) /\
    map (fun r => (type r, status r)) (transactions (live (db w2))) =
      map (fun r => (type r, status r)) (transactions (live (db w)))
        ++ [(TDeposit, Committed); (TWithdraw, Committed)].
Proof.
  intros Hq Hidle Hu Hb Hb0 Hm Hm0 Hrb Hrs.
  destruct w as [[t sv] tr]. unfold idle in Hidle; cbn in Hidle, Hu; subst sv.
  assert (Ha : accepted amount).
  { apply positive_accepted. unfold positive. rewrite Hm. cbn.
    apply Qltb_lt. exact Hm0. }
  assert (Hbal : Number (balance user) = Fin b).
  { unfold balance, read_real. rewrite Hb. reflexivity. }
  destruct (add_exact _ _ b m Hbal Hm Hrs) as (z1 & E1 & Hz1).
  assert (Hr2 : binary64 (z1 - m)).
  { assert (E : (z1 - m == b)%Q) by (rewrite Hz1; ring).
    rewrite E. exact Hrb. }
  destruct (sub_exact (Fin z1) (Number amount) z1 m eq_refl Hm Hr2)
    as (z2 & E2 & Hz2).
  exists z1, z2.
  split; [exact Hz1|]. split; [rewrite Hz2, Hz1; ring|].
  cbv zeta. rewrite (deposit_tx_run e uid amount user t tr Hq Hu Ha).
  cbn [fst snd]. rewrite E1.
  set (t1 := appended _ (update_balance (Fin z1) uid t)).
  assert (Hu1 : select_user_by_id uid t1 = Some (set_balance (Fin z1) user)).
  { unfold t1. rewrite select_appended, select_update, Z.eqb_refl, Hu.
    reflexivity. }
  assert (Hlt : js_lt (balance (set_balance (Fin z1) user)) amount = false).
  { rewrite balance_set. unfold js_lt, read_real. cbn. rewrite Hm. cbn.
    apply Qltb_ge. rewrite Hz1. lra. }
  rewrite (withdraw_tx_run e uid amount _ t1 _ Hq Hu1 Ha Hlt).
  cbn [fst snd db live]. rewrite balance_set. unfold read_real at 1 2.
  cbn [num_is_nan Number]. rewrite E2.
  split; [reflexivity|]. split; [reflexivity|]. split.
  - rewrite select_appended, select_update, Z.eqb_refl, Hu1. reflexivity.
  - unfold appended, t1, appended, update_balance; cbn [transactions].
    rewrite !map_app. cbn [map type status]. rewrite <- app_assoc. reflexivity.
Qed.

Lemma deposit_then_withdraw_witness :
  let amount := JNum (of_Z 150) in
  let w := initial_world in
  let w1 := snd (run calm (Tx.deposit_tx 1 amount) w) in
  let w2 := snd (run calm (Tx.withdraw_tx 1 amount) w1) in
  exists z1 z2 : Q,
    (z1 == inject_Z 1000 + inject_Z 150)%Q /\ (z2 == inject_Z 1000)%Q /\
    fst (run calm (Tx.deposit_tx 1 amount) w)
      = Returned (mkResponse 200 (Balance (Fin z1))) /\
    fst (run calm (Tx.withdraw_tx 1 amount) w1)
      = Returned (mkResponse 200 (Balance (Fin z2))) /\
    option_map balance_col (select_user_by_id 1 (live (db w2))) =
      Some (Fin z2) /\
    map (fun r => (type r, status r)) (transactions (live (db w2))) =
      map (fun r => (type r, status r)) (transactions (live (db w)))
        ++ [(TDeposit, Committed); (TWithdraw, Committed)].
Proof.
  apply (deposit_then_withdraw calm 1 (JNum (of_Z 150))
           (mkUser 1 "alice" "$2b$10$alice" (of_Z 1000)) initial_world
           (inject_Z 1000) (inject_Z 150)).
  - exact calm_quiet.
  - reflexivity.
  - reflexivity.
  - reflexivity.
  - discriminate.
  - reflexivity.
  - reflexivity.
  - exists 1000, 0. split; [reflexivity|]. split; [lia|reflexivity].
  - exists 1150, 0. split; [reflexivity|]. split; [lia|reflexivity].
Defined.

(** Depositing 24.1 on a balance of 1000 and withdrawing it again leaves
    [999.9999999999999], the binary64 value [8796093022207999 / 2^43]. *)
Example deposit_then_withdraw_24_1 :
  let amount := JNum (round64 (241 # 10)) in
  let w1 := snd (run calm (Tx.deposit_tx 1 amount) initial_world) in
  let out := run calm (Tx.withdraw_tx 1 amount) w1 in
  fst out =
    Returned
      (mkResponse 200 (Balance (Fin (8796093022207999 # 8796093022208)))) /\
  balance_of 1 (live (db (snd out))) = Fin (8796093022207999 # 8796093022208).
Proof. vm_compute. split; reflexivity. Qed.

(** ** A transaction already open on the connection *)

(** deposit-tx and withdraw-tx reached with an accepted amount while a
    transaction is open on the shared connection: their BEGIN is refused,
    their handler answers 500 and its ROLLBACK closes the transaction that
    was open, so the contents go back to what they were when that
    transaction began.  A transfer whose recipient exists does the same to
    the users table.  This holds whichever statements fail. *)
Theorem open_transaction_rolled_back (e : env) (uid : Z)
    (toUsername : option string) (amount : jsval) (toUser : user)
    (t s : tables) (tr : list (kind * bool)) :
  accepted amount ->
  truthy_str toUsername = true ->
  select_user_by_name toUsername t = Some toUser ->
  let w := mkWorld (mkConn t (Some s)) tr in
  run e (Tx.deposit_tx uid amount) w =
    (Returned (mkResponse 500 (Error "Deposit failed, rolled back")),
     mkWorld (mkConn s None) (tr ++ [(KBegin, false); (KRollback, true)])) /\
  run e (Tx.withdraw_tx uid amount) w =
    (Returned (mkResponse 500 (Error "Withdraw failed, rolled back")),
     mkWorld (mkConn s None) (tr ++ [(KBegin, false); (KRollback, true)])) /\
  fst (run e (Tx.transfer uid toUsername amount) w) =
    Returned (mkResponse 500 (Error "Transfer failed, rolled back")) /\
  saved (db (snd (run e (Tx.transfer uid toUsername amount) w))) = None /\
  users (live (db (snd (run e (Tx.transfer uid toUsername amount) w)))) = users s.
Proof.
  intros Ha Hto Hname. pose proof Ha as Hv. unfold accepted in Hv. cbv zeta.
  split; [|split].
  - unfold Tx.deposit_tx. rewrite Hv. run_handler; tidy_trace; reflexivity.
  - unfold Tx.withdraw_tx. rewrite Hv. run_handler; tidy_trace; reflexivity.
  - unfold Tx.transfer. rewrite Hto. cbn [negb orb]. rewrite Hv.
    run_handler; repeat split; reflexivity.
Qed.

Lemma open_transaction_rolled_back_witness :
  let amount := JNum (of_Z 10) in
  let t := update_balance (of_Z 1) 1 initial_tables in
  let w := mkWorld (mkConn t (Some initial_tables)) [] in
  run calm (Tx.deposit_tx 2 amount) w =
    (Returned (mkResponse 500 (Error "Deposit failed, rolled back")),
     mkWorld (mkConn initial_tables None) ([] ++ [(KBegin, false); (KRollback, true)])) /\
  run calm (Tx.withdraw_tx 2 amount) w =
    (Returned (mkResponse 500 (Error "Withdraw failed, rolled back")),
     mkWorld (mkConn initial_tables None) ([] ++ [(KBegin, false); (KRollback, true)])) /\
  fst (run calm (Tx.transfer 2 (Some "alice"%string) amount) w) =
    Returned (mkResponse 500 (Error "Transfer failed, rolled back")) /\
  saved (db (snd (run calm (Tx.transfer 2 (Some "alice"%string) amount) w))) = None /\
  users (live (db (snd (run calm (Tx.transfer 2 (Some "alice"%string) amount) w))))
    = users initial_tables.
Proof.
  apply (open_transaction_rolled_back calm 2 (Some "alice"%string) (JNum (of_Z 10))
           (mkUser 1 "alice" "$2b$10$alice" (of_Z 1))
           (update_balance (of_Z 1) 1 initial_tables) initial_tables []).
  - reflexivity.
  - reflexivity.
  - reflexivity.
Defined.

(** ** The demonstration route *)

(** On an idle connection transfer-fail never changes the database: whatever
    its arguments and whichever statements fail, balances, history and
    AUTOINCREMENT counter are afterwards exactly what they were, no
    transaction is left open, and the answer is 400, 404 or 500, never 200. *)
Theorem transfer_fail_changes_nothing (e : env) (fromUserId : Z)
    (toUsername : option string) (amount : jsval) (w : world) :
  idle w ->
  let res := run e (Demo.transfer_fail fromUserId toUsername amount) w in
  db (snd res) = db w /\
  exists resp, fst res = Returned resp /\ In (code resp) [400; 404; 500].
Proof.
  intros Hidle. destruct w as [[t sv] tr].
  unfold idle in Hidle; cbn in Hidle; subst sv. cbv zeta.
  unfold Demo.transfer_fail.
  destruct (_ || _) eqn:Hv; [cbn; split; [reflexivity|answer]|].
  run_handler; (split; [reflexivity|answer]).
Qed.

Lemma transfer_fail_changes_nothing_witness :
  let res :=
    run calm (Demo.transfer_fail 1 (Some "bob"%string) (JNum (of_Z 200)))
      initial_world in
  db (snd res) = db initial_world /\
  exists resp, fst res = Returned resp /\ In (code resp) [400; 404; 500].
Proof.
  apply (transfer_fail_changes_nothing calm 1 (Some "bob"%string)
           (JNum (of_Z 200)) initial_world).
  reflexivity.
Defined.

(** ** The server without transactions *)

Lemma simple_accepted_iff (amount : jsval) :
  simple_accepted amount <-> accepted amount.
Proof.
  unfold simple_accepted, accepted, isNaN, js_le.
  destruct amount as [| |[|]|[| | |q]]; cbn; split; intros H;
    try discriminate; try reflexivity; try exact H.
  - rewrite orb_false_r. exact H.
  - rewrite orb_false_r in H. exact H.
Qed.

Lemma simple_transfer_half_run (e : env) (uid : Z) (toUsername : option string)
    (amount : jsval) (toUser fromUser : user) (t : tables) (sv : option tables)
    (tr : list (kind * bool)) :
  fault e (List.length tr) = false ->
  fault e (List.length tr + 1) = false ->
  fault e (List.length tr + 2) = false ->
  fault e (List.length tr + 3) = true ->
  truthy_str toUsername = true ->
  simple_accepted amount ->
  select_user_by_name toUsername t = Some toUser ->
  select_user_by_id uid t = Some fromUser ->
  js_lt (balance fromUser) amount = false ->
  run e (Simple.transfer uid toUsername amount) (mkWorld (mkConn t sv) tr) =
  (Unhandled "SQLITE_IOERR: disk I/O error",
   mkWorld
     (mkConn
        (update_balance (num_sub (Number (balance fromUser)) (Number amount))
           (user_id fromUser) t)
        sv)
     (tr ++ [(KSelect, true); (KSelect, true); (KUpdate, true); (KUpdate, false)])).
Proof.
  intros H0 H1 H2 H3 Hto Ha Hname Hfrom Hlt.
  unfold simple_accepted in Ha.
  unfold Simple.transfer. rewrite Hto. cbn [negb orb]. rewrite Ha.
  run_handler;
    repeat match goal with
           | H : fault _ (List.length _) = _ |- _ =>
               rewrite ?length_app in H; cbn [List.length] in H;
               rewrite <- ?Nat.add_assoc in H; cbn [Nat.add] in H
           end;
    try congruence.
  unfold modify; cbn [live saved]. tidy_trace. reflexivity.
Qed.

(** A transfer between two different accounts on the server without
    transactions, for an amount whose numeric value [m] is positive (a JSON
    number or [true]; an amount sent as a string is outside [jsval]), whose
    second UPDATE fails: the handler ends with an exception nobody catches
    (no response is sent); the sender's row already carries [d], the
    binary64 difference of its balance [b] and [m] (the binary64 value
    nearest to [b - m], the even one of two, hence [b - m] itself whenever
    that is a binary64 value), and
    the recipient's row is as before.  The amount has left the sender and
    reached nobody. *)
Theorem simple_transfer_half_done (e : env) (uid : Z) (toUsername : option string)
    (amount : jsval) (toUser fromUser : user) (c : conn)
    (tr : list (kind * bool)) :
  fault e (List.length tr) = false ->
  fault e (List.length tr + 1) = false ->
  fault e (List.length tr + 2) = false ->
  fault e (List.length tr + 3) = true ->
  truthy_str toUsername = true ->
  positive amount ->
  select_user_by_name toUsername (live c) = Some toUser ->
  select_user_by_id uid (live c) = Some fromUser ->
  user_id toUser <> uid ->
  js_lt (balance fromUser) amount = false ->
  let res := run e (Simple.transfer uid toUsername amount) (mkWorld c tr) in
  let d := num_sub (Number (balance fromUser)) (Number amount) in
  (forall b m : Q,
     Number (balance fromUser) = Fin b -> Number amount = Fin m ->
     rounded (b - m) d) /\
  fst res = Unhandled "SQLITE_IOERR: disk I/O error" /\
  select_user_by_id uid (live (db (snd res))) =
    Some (mkUser (user_id fromUser) (username fromUser) (password fromUser) d) /\
  select_user_by_id (user_id toUser) (live (db (snd res))) =
    select_user_by_id (user_id toUser) (live c).
Proof.
  intros H0 H1 H2 H3 Hto Hpos Hname Hfrom Hne Hlt.
  assert (Ha : simple_accepted amount)
    by (apply simple_accepted_iff, positive_accepted; exact Hpos).
  assert (Hf : user_id fromUser = uid) by (apply find_has_id in Hfrom; tauto).
  assert (Hn : Z.eqb (user_id toUser) uid = false) by (apply Z.eqb_neq; exact Hne).
  destruct c as [t sv]. cbn [live] in *. cbv zeta.
  rewrite (simple_transfer_half_run e uid toUsername amount toUser fromUser t sv tr
             H0 H1 H2 H3 Hto Ha Hname Hfrom Hlt).
  cbn [fst snd db live]. rewrite Hf.
  split; [intros b m Hb Hm; apply (num_sub_rounded _ _ b m Hb Hm)|].
  split; [reflexivity|]. split.
  - rewrite select_update, Z.eqb_refl, Hfrom. cbn [option_map].
    unfold set_balance. rewrite Hf. reflexivity.
  - rewrite select_update, Hn. reflexivity.
Qed.

Lemma simple_transfer_half_done_witness :
  let e := mkEnv (fun n => Nat.eqb n 3) (fun n => Z.of_nat n) in
  let res :=
    run e (Simple.transfer 1 (Some "bob"%string) (JNum (of_Z 200))) initial_world in
  fst res = Unhandled "SQLITE_IOERR: disk I/O error" /\
  select_user_by_id 1 (live (db (snd res))) =
    Some (mkUser 1 "alice" "$2b$10$alice" (of_Z 800)) /\
  select_user_by_id 2 (live (db (snd res))) =
    Some (mkUser 2 "bob" "$2b$10$bob" (of_Z 500)).
Proof.
  exact (proj2
           (simple_transfer_half_done
              (mkEnv (fun n => Nat.eqb n 3) (fun n => Z.of_nat n)) 1
              (Some "bob"%string) (JNum (of_Z 200))
              (mkUser 2 "bob" "$2b$10$bob" (of_Z 500))
              (mkUser 1 "alice" "$2b$10$alice" (of_Z 1000))
              (mkConn initial_tables None) []
              eq_refl eq_refl eq_refl eq_refl eq_refl eq_refl eq_refl eq_refl
              ltac:(discriminate) eq_refl)).
Defined.

(** A request to the server without transactions whose caller has no row in
    [users] (and that passes the input test and, for a transfer, names an
    existing recipient) ends with a TypeError nobody catches: no response is
    sent, and the database is untouched.  The routes read
    [user.balance] without testing [user]. *)
Theorem simple_unknown_caller_throws (e : env) (r : simple_request) (w : world) :
  quiet e -> caller_missing r (live (db w)) ->
  fst (run e (simple_handle r) w) = Unhandled TypeError_balance /\
  db (snd (run e (simple_handle r) w)) = db w.
Proof.
  intros Hq Hmiss. unfold quiet in Hq. destruct w as [[t sv] tr].
  destruct r as [uid amount|uid amount|uid toUsername amount];
    cbn [caller_missing simple_handle db live] in *.
  - destruct Hmiss as [Ha Hu]. unfold simple_accepted in Ha.
    unfold Simple.deposit. rewrite Ha. run_quiet. split; reflexivity.
  - destruct Hmiss as [Ha Hu]. unfold simple_accepted in Ha.
    unfold Simple.withdraw. rewrite Ha. run_quiet. split; reflexivity.
  - destruct Hmiss as [Hto [Ha [Hu Hname]]]. unfold simple_accepted in Ha.
    unfold Simple.transfer. rewrite Hto. cbn [negb orb]. rewrite Ha.
    destruct (select_user_by_name toUsername t) as [toUser|] eqn:Hn;
      [|contradiction].
    run_quiet. split; reflexivity.
Qed.

Lemma simple_unknown_caller_throws_witness :
  let r := STransfer 9 (Some "bob"%string) (JNum (of_Z 5)) in
  fst (run calm (simple_handle r) initial_world) = Unhandled TypeError_balance /\
  db (snd (run calm (simple_handle r) initial_world)) = db initial_world.
Proof.
  apply (simple_unknown_caller_throws calm
           (STransfer 9 (Some "bob"%string) (JNum (of_Z 5))) initial_world).
  - exact calm_quiet.
  - repeat split; try reflexivity. discriminate.
Defined.

(** The server without transactions keeps no history and never touches a
    transaction: whatever the request, the state of the connection and
    whichever statements fail, the [transactions] table, its counter and the
    open transaction (if any) are afterwards what they were, and only SELECT
    and UPDATE statements were sent. *)
Theorem simple_routes_keep_no_history (e : env) (r : simple_request) (w : world) :
  let w' := snd (run e (simple_handle r) w) in
  transactions (live (db w')) = transactions (live (db w)) /\
  tx_seq (live (db w')) = tx_seq (live (db w)) /\
  saved (db w') = saved (db w) /\
  Forall (fun x => fst x = KSelect \/ fst x = KUpdate) (issued w w').
Proof.
  destruct w as [[t sv] tr]. cbv zeta.
  destruct r as [uid amount|uid amount|uid toUsername amount];
    cbn [simple_handle];
    [unfold Simple.deposit|unfold Simple.withdraw|unfold Simple.transfer];
    (destruct (_ || _) eqn:Hv;
     [cbn; repeat (split; [reflexivity|]);
      rewrite <- (app_nil_r tr) at 2; rewrite issued_app; constructor|]);
    run_handler; repeat (split; [reflexivity|]);
    tidy_trace; rewrite issued_app;
    repeat first [apply Forall_nil | apply Forall_cons; [cbn; auto|]].
Qed.

(** ** Reading *)

(** The two read routes, balance and history, never change the database and
    always answer, whatever state the connection is in and whichever
    statements fail. *)
Theorem read_routes_change_nothing (e : env) (uid : Z) (userId : option Z)
    (w : world) :
  (db (snd (run e (Tx.get_balance uid) w)) = db w /\
   exists resp, fst (run e (Tx.get_balance uid) w) = Returned resp) /\
  (db (snd (run e (Tx.list_transactions userId) w)) = db w /\
   exists resp, fst (run e (Tx.list_transactions userId) w) = Returned resp).
Proof.
  destruct w as [c tr]. split.
  - unfold Tx.get_balance. run_handler; (split; [reflexivity|eexists; reflexivity]).
  - unfold Tx.list_transactions.
    run_handler; (split; [reflexivity|eexists; reflexivity]).
Qed.

Lemma get_balance_run (e : env) (uid : Z) (u : user) (c : conn)
    (tr : list (kind * bool)) :
  quiet e ->
  select_user_by_id uid (live c) = Some u ->
  run e (Tx.get_balance uid) (mkWorld c tr) =
  (Returned (mkResponse 200 (Balance (balance_col u))),
   mkWorld c (tr ++ [(KSelect, true)])).
Proof.
  intros Hq Hu. unfold quiet in Hq. unfold Tx.get_balance.
  run_quiet. reflexivity.
Qed.

(** After a deposit that went through, the balance route answers what the
    deposit answered, a 200 with the new balance; and so after a withdrawal
    that went through. *)
Theorem balance_after_mutation (e : env) (uid : Z) (amount : jsval) (user : user)
    (w : world) :
  quiet e -> idle w ->
  select_user_by_id uid (live (db w)) = Some user ->
  positive amount ->
  let d := run e (Tx.deposit_tx uid amount) w in
  let x := run e (Tx.withdraw_tx uid amount) w in
  (fst (run e (Tx.get_balance uid) (snd d)) = fst d /\
   exists v : num, fst d = Returned (mkResponse 200 (Balance v))) /\
  (js_lt (balance user) amount = false ->
   fst (run e (Tx.get_balance uid) (snd x)) = fst x /\
   exists v : num, fst x = Returned (mkResponse 200 (Balance v))).
Proof.
  intros Hq Hidle Hu Hpos.
  destruct w as [[t sv] tr]. unfold idle in Hidle; cbn in Hidle, Hu; subst sv.
  apply positive_accepted in Hpos. cbv zeta. split.
  - rewrite (deposit_tx_run e uid amount user t tr Hq Hu Hpos). cbn [fst snd].
    split; [|eexists; reflexivity].
    rewrite (get_balance_run e uid
               (set_balance (num_add (Number (balance user)) (Number amount)) user));
      [reflexivity|exact Hq|].
    cbn [live]. rewrite select_appended, select_update, Z.eqb_refl, Hu.
    reflexivity.
  - intros Hlt.
    rewrite (withdraw_tx_run e uid amount user t tr Hq Hu Hpos Hlt).
    cbn [fst snd]. split; [|eexists; reflexivity].
    rewrite (get_balance_run e uid
               (set_balance (num_sub (Number (balance user)) (Number amount)) user));
      [reflexivity|exact Hq|].
    cbn [live]. rewrite select_appended, select_update, Z.eqb_refl, Hu.
    reflexivity.
Qed.

Lemma balance_after_mutation_witness :
  let d := run calm (Tx.deposit_tx 2 (JNum (of_Z 40))) initial_world in
  let x := run calm (Tx.withdraw_tx 2 (JNum (of_Z 40))) initial_world in
  (fst (run calm (Tx.get_balance 2) (snd d)) = fst d /\
   fst d = Returned (mkResponse 200 (Balance (of_Z 540)))) /\
  (fst (run calm (Tx.get_balance 2) (snd x)) = fst x /\
   fst x = Returned (mkResponse 200 (Balance (of_Z 460)))).
Proof.
  destruct (balance_after_mutation calm 2 (JNum (of_Z 40))
              (mkUser 2 "bob" "$2b$10$bob" (of_Z 500)) initial_world
              calm_quiet eq_refl eq_refl eq_refl) as [[Hd _] Hx].
  destruct (Hx eq_refl) as [Hx' _].
  split; (split; [assumption|reflexivity]).
Defined.

(** ** An infinite amount *)

Arguments js_lt : simpl never.

(** Nothing tests that an amount is finite.  On an account with a finite
    balance, a deposit of Infinity followed by a withdrawal of Infinity both
    go through (no statement failing): the first answers Infinity, the second
    answers Infinity - Infinity, which is NaN and is stored as NULL.  From
    then on the balance reads [null] and every withdrawal of an accepted
    amount is refused for insufficient funds. *)
Theorem infinite_amount_nulls_balance (e : env) (uid : Z) (user : user)
    (w : world) (b : Q) :
  quiet e -> idle w ->
  select_user_by_id uid (live (db w)) = Some user ->
  balance_col user = Fin b ->
  let w1 := snd (run e (Tx.deposit_tx uid (JNum PInf)) w) in
  let w2 := snd (run e (Tx.withdraw_tx uid (JNum PInf)) w1) in
  fst (run e (Tx.deposit_tx uid (JNum PInf)) w)
    = Returned (mkResponse 200 (Balance PInf)) /\
  fst (run e (Tx.withdraw_tx uid (JNum PInf)) w1)
    = Returned (mkResponse 200 (Balance NaN)) /\
  option_map balance (select_user_by_id uid (live (db w2))) = Some JNull /\
  idle w2 /\
  forall amount,
    accepted amount ->
    fst (run e (Tx.withdraw_tx uid amount) w2)
      = Returned (mkResponse 400 (Error "Insufficient funds")).
Proof.
  intros Hq Hidle Hu Hb.
  destruct w as [[t sv] tr]. unfold idle in Hidle; cbn in Hidle, Hu; subst sv.
  assert (Hbal : Number (balance user) = Fin b).
  { unfold balance, read_real. rewrite Hb. reflexivity. }
  cbv zeta.
  rewrite (deposit_tx_run e uid (JNum PInf) user t tr Hq Hu eq_refl).
  cbn [fst snd]. rewrite Hbal. cbn [Number num_add].
  set (t1 := appended _ (update_balance PInf uid t)).
  assert (Hu1 : select_user_by_id uid t1 = Some (set_balance PInf user)).
  { unfold t1. rewrite select_appended, select_update, Z.eqb_refl, Hu.
    reflexivity. }
  rewrite (withdraw_tx_run e uid (JNum PInf) _ t1 _ Hq Hu1 eq_refl eq_refl).
  cbn [fst snd db live]. rewrite balance_set. cbn [read_real num_is_nan Number num_sub].
  set (t2 := appended _ (update_balance NaN uid t1)).
  assert (Hu2 : select_user_by_id uid t2 = Some (set_balance NaN (set_balance PInf user))).
  { unfold t2. rewrite select_appended, select_update, Z.eqb_refl, Hu1.
    reflexivity. }
  split; [reflexivity|]. split; [reflexivity|]. split.
  { rewrite Hu2. reflexivity. }
  split; [reflexivity|].
  intros amount Ha.
  assert (Hfk : fk_ok (or_null (Some uid)) t2 = true)
    by (eapply fk_ok_found; exact Hu2).
  assert (Hlt : js_lt JNull amount = true).
  { apply positive_accepted in Ha. exact Ha. }
  pose proof Ha as Hv. unfold accepted in Hv. unfold quiet in Hq.
  unfold Tx.withdraw_tx. rewrite Hv.
  run_quiet. reflexivity.
Qed.

Lemma infinite_amount_nulls_balance_witness :
  let w := initial_world in
  let w1 := snd (run calm (Tx.deposit_tx 1 (JNum PInf)) w) in
  let w2 := snd (run calm (Tx.withdraw_tx 1 (JNum PInf)) w1) in
  fst (run calm (Tx.deposit_tx 1 (JNum PInf)) w)
    = Returned (mkResponse 200 (Balance PInf)) /\
  fst (run calm (Tx.withdraw_tx 1 (JNum PInf)) w1)
    = Returned (mkResponse 200 (Balance NaN)) /\
  option_map balance (select_user_by_id 1 (live (db w2))) = Some JNull /\
  idle w2 /\
  forall amount,
    accepted amount ->
    fst (run calm (Tx.withdraw_tx 1 amount) w2)
      = Returned (mkResponse 400 (Error "Insufficient funds")).
Proof.
  apply (infinite_amount_nulls_balance calm 1
           (mkUser 1 "alice" "$2b$10$alice" (of_Z 1000)) initial_world
           (inject_Z 1000)).
  - exact calm_quiet.
  - reflexivity.
  - reflexivity.
  - reflexivity.
Defined.

Lemma transfer_between_accounts_conserves_witness :
  let out :=
    run calm (Tx.transfer 1 (Some "bob"%string) (JNum (of_Z 200)))
      (mkWorld (mkConn initial_tables None) []) in
  exists z1 z2 : Q,
    fst out = Returned (mkResponse 200 (Balances (Fin z1) (Fin z2))) /\
    option_map balance_col (select_user_by_id 1 (live (db (snd out)))) =
      Some (Fin z1) /\
    option_map balance_col (select_user_by_id 2 (live (db (snd out)))) =
      Some (Fin z2) /\
    (z1 == inject_Z 1000 - inject_Z 200)%Q /\
    (z2 == inject_Z 500 + inject_Z 200)%Q /\
    (z1 + z2 == inject_Z 1000 + inject_Z 500)%Q.
Proof.
  apply (transfer_between_accounts_conserves calm 1 (Some "bob"%string)
           (JNum (of_Z 200))
           (mkUser 2 "bob" "$2b$10$bob" (of_Z 500))
           (mkUser 1 "alice" "$2b$10$alice" (of_Z 1000))
           (mkUser 2 "bob" "$2b$10$bob" (of_Z 500))
           initial_tables []).
  - exact calm_quiet.
  - reflexivity.
  - reflexivity.
  - reflexivity.
  - reflexivity.
  - reflexivity.
  - discriminate.
  - reflexivity.
  - reflexivity.
  - reflexivity.
  - reflexivity.
  - exists 800, 0. split; [reflexivity|]. split; [lia|reflexivity].
  - exists 700, 0. split; [reflexivity|]. split; [lia|reflexivity].
Defined.

(** * Accounts and sessions *)

(** ** Splitting the Authorization header *)

Lemma split_not_nil (sep : Ascii.ascii) (s : string) : Auth.split sep s <> [].
Proof.
  destruct s as [|c s]; cbn; [discriminate|].
  destruct (Ascii.eqb c sep); [discriminate|].
  destruct (Auth.split sep s); discriminate.
Qed.

Lemma join_cons (sep : Ascii.ascii) (p : string) (rest : list string) :
  rest <> [] -> join sep (p :: rest) = (p ++ String sep (join sep rest))%string.
Proof. destruct rest; [contradiction|reflexivity]. Qed.

Lemma join_split (sep : Ascii.ascii) (s : string) :
  join sep (Auth.split sep s) = s.
Proof.
  induction s as [|c s IH]; cbn; [reflexivity|].
  destruct (Ascii.eqb_spec c sep) as [->|Hne].
  - rewrite join_cons by apply split_not_nil. rewrite IH. reflexivity.
  - pose proof (split_not_nil sep s) as Hnil.
    destruct (Auth.split sep s) as [|h l]; [contradiction|].
    destruct l as [|h' l'].
    + cbn in *. rewrite IH. reflexivity.
    + rewrite join_cons by discriminate. rewrite join_cons in IH by discriminate.
      rewrite <- IH. reflexivity.
Qed.

Lemma split_free (sep : Ascii.ascii) (s : string) :
  Forall (fun p => free_of sep p = true) (Auth.split sep s).
Proof.
  induction s as [|c s IH]; cbn; [repeat constructor|].
  destruct (Ascii.eqb c sep) eqn:E.
  - constructor; [reflexivity|exact IH].
  - destruct (Auth.split sep s) as [|h l]; [repeat constructor; cbn; rewrite E; reflexivity|].
    inversion IH; subst. constructor; [|assumption].
    cbn. rewrite E. assumption.
Qed.

Lemma split_free_piece (sep : Ascii.ascii) (a : string) :
  free_of sep a = true -> Auth.split sep a = [a].
Proof.
  induction a as [|c a IH]; cbn; [reflexivity|].
  intros H. apply andb_true_iff in H. destruct H as [Hc Ha].
  apply negb_true_iff in Hc. rewrite Hc, (IH Ha). reflexivity.
Qed.

Lemma split_app (sep : Ascii.ascii) (a b : string) :
  free_of sep a = true ->
  Auth.split sep (a ++ String sep b) = a :: Auth.split sep b.
Proof.
  induction a as [|c a IH]; cbn.
  - intros _. rewrite Ascii.eqb_refl. reflexivity.
  - intros H. apply andb_true_iff in H. destruct H as [Hc Ha].
    apply negb_true_iff in Hc. rewrite Hc, (IH Ha). reflexivity.
Qed.

Lemma truthy_with_space (a b : string) :
  truthy_str (Some (a ++ String Auth.space b)%string) = true.
Proof. destruct a; reflexivity. Qed.

Lemma auth_next_inv (lib : Auth.library) (authorization : option string)
    (decoded : Auth.payload) :
  Auth.authMiddleware lib authorization = Auth.Next decoded ->
  exists scheme token,
    authorization = Some (scheme ++ String Auth.space token)%string /\
    free_of Auth.space scheme = true /\
    free_of Auth.space token = true /\
    Auth.verify lib token = Some decoded.
Proof.
  unfold Auth.authMiddleware.
  destruct (truthy_str authorization) eqn:Htr; cbn [negb]; [|discriminate].
  destruct authorization as [auth|]; [|discriminate]. cbn [Auth.header].
  pose proof (join_split Auth.space auth) as Hjoin.
  pose proof (split_free Auth.space auth) as Hfree.
  destruct (Auth.split Auth.space auth) as [|a [|b [|c l]]]; cbn; try discriminate.
  destruct (Auth.verify lib b) as [d|] eqn:Hv; [|discriminate].
  intros H. injection H as <-.
  apply Forall_cons_iff in Hfree. destruct Hfree as [Ha Hrest].
  apply Forall_cons_iff in Hrest. destruct Hrest as [Hb _].
  exists a, b. cbn in Hjoin. rewrite Hjoin. auto.
Qed.

(** The transactional server lets a request through, with [req.user] the
    decoded payload, exactly when its Authorization header is two pieces
    without spaces joined by one space and [jwt.verify] accepts the second
    piece.  The first piece, the scheme, is never looked at. *)
Theorem auth_accepts_iff (lib : Auth.library) (authorization : option string)
    (decoded : Auth.payload) :
  Auth.authMiddleware lib authorization = Auth.Next decoded <->
  exists scheme token,
    authorization = Some (scheme ++ String Auth.space token)%string /\
    free_of Auth.space scheme = true /\
    free_of Auth.space token = true /\
    Auth.verify lib token = Some decoded.
Proof.
  split; [apply auth_next_inv|].
  intros [scheme [token [-> [Hs [Ht Hv]]]]].
  unfold Auth.authMiddleware.
  rewrite truthy_with_space. cbn [negb Auth.header].
  rewrite (split_app _ _ _ Hs), (split_free_piece _ _ Ht). cbn.
  rewrite Hv. reflexivity.
Qed.

Lemma auth_accepts_iff_witness :
  let lib :=
    Auth.mkLibrary "h" (fun _ _ => true) (fun _ => "t"%string)
      (fun tok => if String.eqb tok "abc" then Some (Auth.mkPayload 1 "alice") else None)
      (fun _ => false) in
  Auth.authMiddleware lib (Some "Basic abc"%string)
  = Auth.Next (Auth.mkPayload 1 "alice").
Proof.
  apply (proj2 (auth_accepts_iff _ (Some "Basic abc"%string) (Auth.mkPayload 1 "alice"))).
  exists "Basic"%string, "abc"%string. repeat split; reflexivity.
Defined.

(** Whatever the transactional server lets through, the server without
    transactions lets through with the same payload; but it also takes a
    header with further pieces after the token, which the transactional
    server refuses with 401. *)
Theorem simple_auth_is_laxer (lib : Auth.library) (authorization : option string)
    (decoded : Auth.payload) (scheme token rest : string) :
  (Auth.authMiddleware lib authorization = Auth.Next decoded ->
   Auth.authMiddleware_simple lib authorization = Auth.Next decoded) /\
  (free_of Auth.space scheme = true ->
   free_of Auth.space token = true ->
   Auth.verify lib token = Some decoded ->
   let long :=
     Some (scheme ++ String Auth.space (token ++ String Auth.space rest))%string in
   Auth.authMiddleware_simple lib long = Auth.Next decoded /\
   Auth.authMiddleware lib long
   = Auth.Deny (mkResponse 401 (Error "Invalid Authorization header"))).
Proof.
  split.
  - intros H. apply auth_next_inv in H.
    destruct H as [a [b [-> [Ha [Hb Hv]]]]].
    unfold Auth.authMiddleware_simple. rewrite truthy_with_space.
    cbn [negb Auth.header].
    rewrite (split_app _ _ _ Ha), (split_free_piece _ _ Hb). cbn.
    rewrite Hv. reflexivity.
  - intros Hs Ht Hv. cbv zeta.
    unfold Auth.authMiddleware_simple, Auth.authMiddleware.
    rewrite truthy_with_space. cbn [negb Auth.header].
    rewrite (split_app _ _ _ Hs), (split_app _ _ _ Ht).
    pose proof (split_not_nil Auth.space rest) as Hnil.
    destruct (Auth.split Auth.space rest) as [|r l]; [contradiction|].
    cbn. rewrite Hv. split; reflexivity.
Qed.

Lemma simple_auth_is_laxer_witness :
  let lib :=
    Auth.mkLibrary "h" (fun _ _ => true) (fun _ => "t"%string)
      (fun tok => if String.eqb tok "abc" then Some (Auth.mkPayload 1 "alice") else None)
      (fun _ => false) in
  let long := Some ("Bearer" ++ String Auth.space ("abc" ++ String Auth.space "x y"))%string in
  Auth.authMiddleware_simple lib long = Auth.Next (Auth.mkPayload 1 "alice") /\
  Auth.authMiddleware lib long
  = Auth.Deny (mkResponse 401 (Error "Invalid Authorization header")).
Proof.
  apply (proj2 (simple_auth_is_laxer _ None (Auth.mkPayload 1 "alice")
                  "Bearer" "abc" "x y")).
  - reflexivity.
  - reflexivity.
  - reflexivity.
Defined.

(** ** Creating accounts *)

Lemma max_id_bound (us : list user) (u : user) :
  In u us -> user_id u <= fold_right Z.max 0 (map user_id us).
Proof.
  induction us as [|v us IH]; cbn; [contradiction|].
  intros [->|Hin]; [lia|]. specialize (IH Hin). lia.
Qed.

Lemma next_user_id_fresh (t : tables) :
  ~ In (Auth.next_user_id t) (map user_id (users t)).
Proof.
  intros Hin. apply in_map_iff in Hin. destruct Hin as [u [Hid Hin]].
  apply max_id_bound in Hin. unfold Auth.next_user_id in Hid. lia.
Qed.

Lemma existsb_has_name (n : string) (us : list user) :
  existsb (has_name n) us = false -> ~ In n (map username us).
Proof.
  intros H Hin. apply in_map_iff in Hin. destruct Hin as [u [Hn Hin]].
  assert (Ht : existsb (has_name n) us = true).
  { apply existsb_exists. exists u. split; [exact Hin|].
    unfold has_name. apply String.eqb_eq. exact Hn. }
  congruence.
Qed.

Lemma existsb_has_id (i : Z) (us : list user) :
  existsb (has_id i) us = false -> ~ In i (map user_id us).
Proof.
  intros H Hin. apply in_map_iff in Hin. destruct Hin as [u [Hn Hin]].
  assert (Ht : existsb (has_id i) us = true).
  { apply existsb_exists. exists u. split; [exact Hin|].
    unfold has_id. apply Z.eqb_eq. exact Hn. }
  congruence.
Qed.

Lemma nodup_snoc {A : Type} (l : list A) (x : A) :
  NoDup l -> ~ In x l -> NoDup (l ++ [x]).
Proof.
  intros Hl Hx. apply NoDup_app; [exact Hl|repeat constructor; intros []|].
  intros a Ha [<-|[]]. contradiction.
Qed.

Lemma find_name_none (n : string) (us : list user) :
  find (has_name n) us = None -> existsb (has_name n) us = false.
Proof.
  intros H. destruct (existsb (has_name n) us) eqn:E; [|reflexivity].
  apply existsb_exists in E. destruct E as [u [Hin Hu]].
  rewrite (find_none _ _ H u Hin) in Hu. discriminate.
Qed.

Lemma find_app_none {A : Type} (f : A -> bool) (l : list A) (x : A) :
  find f l = None -> find f (l ++ [x]) = if f x then Some x else None.
Proof.
  induction l as [|a l IH]; cbn; [reflexivity|].
  destruct (f a); [discriminate|exact IH].
Qed.

Lemma find_app_other {A : Type} (f : A -> bool) (l : list A) (x : A) :
  f x = false -> find f (l ++ [x]) = find f l.
Proof.
  intros Hx. induction l as [|a l IH]; cbn; [rewrite Hx; reflexivity|].
  destruct (f a); [reflexivity|exact IH].
Qed.

Lemma register_run (lib : Auth.library) (username password : option string)
    (t : tables) :
  Auth.fails lib 0%nat = false -> Auth.fails lib 1%nat = false ->
  Auth.fails lib 2%nat = false ->
  truthy_str username = true -> truthy_str password = true ->
  select_user_by_name username t = None ->
  let name := Auth.text username in
  let i := Auth.next_user_id t in
  Auth.register lib username password t =
  (Auth.mkSession 200 (Auth.Session (Auth.signToken lib i name) i name (JNum zero)),
   mkTables (users t ++ [mkUser i name (Auth.hashed lib) zero])
     (transactions t) (tx_seq t)).
Proof.
  intros H0 H1 H2 Hu Hp Hfree. cbv zeta.
  destruct username as [name|]; [|discriminate]. cbn [Auth.text] in *.
  unfold Auth.register. rewrite Hu, Hp, H0, H1, H2. cbn [negb orb].
  rewrite Hfree. cbn [select_user_by_name] in Hfree.
  unfold Auth.insert_user. cbn [Auth.text].
  rewrite (find_name_none _ _ Hfree). reflexivity.
Qed.

Lemma select_registered (name pass : string) (i : Z) (t : tables) :
  select_user_by_name (Some name) t = None ->
  select_user_by_name (Some name)
    (mkTables (users t ++ [mkUser i name pass zero]) (transactions t) (tx_seq t))
  = Some (mkUser i name pass zero).
Proof.
  unfold select_user_by_name; cbn [users]. intros Hfree.
  rewrite (find_app_none _ _ _ Hfree).
  unfold has_name; cbn [username]. rewrite String.eqb_refl. reflexivity.
Qed.

(** Registration with a username nobody has, a password, and no call
    failing: the answer is 200 with the new id and balance 0; the table gains
    exactly one row at its end, with a fresh id, the hash bcrypt returned and
    balance 0; the new name now resolves to that row and every other name
    resolves as before; the history is untouched. *)
Theorem register_adds_account (lib : Auth.library) (username password : option string)
    (t : tables) :
  Auth.fails lib 0%nat = false -> Auth.fails lib 1%nat = false ->
  Auth.fails lib 2%nat = false ->
  truthy_str username = true -> truthy_str password = true ->
  select_user_by_name username t = None ->
  let name := Auth.text username in
  let i := Auth.next_user_id t in
  let row := mkUser i name (Auth.hashed lib) zero in
  let t' := snd (Auth.register lib username password t) in
  fst (Auth.register lib username password t) =
    Auth.mkSession 200 (Auth.Session (Auth.signToken lib i name) i name (JNum zero)) /\
  users t' = users t ++ [row] /\
  transactions t' = transactions t /\
  ~ In i (map user_id (users t)) /\
  select_user_by_name username t' = Some row /\
  (forall other, other <> name ->
     select_user_by_name (Some other) t' = select_user_by_name (Some other) t).
Proof.
  intros H0 H1 H2 Hu Hp Hfree. cbv zeta.
  rewrite (register_run lib username password t H0 H1 H2 Hu Hp Hfree).
  destruct username as [name|]; [|discriminate]. cbn [Auth.text fst snd] in *.
  cbn [users transactions].
  split; [reflexivity|]. split; [reflexivity|]. split; [reflexivity|].
  split; [apply next_user_id_fresh|]. split.
  - apply select_registered. exact Hfree.
  - intros other Hne. unfold select_user_by_name; cbn [users].
    apply find_app_other. unfold has_name; cbn [username].
    apply String.eqb_neq. congruence.
Qed.

Lemma register_adds_account_witness :
  let lib :=
    Auth.mkLibrary "$2b$10$carol" (fun _ _ => true) (fun _ => "t"%string)
      (fun _ => None) (fun _ => false) in
  let username := Some "carol"%string in
  let password := Some "secret"%string in
  let t := initial_tables in
  let name := Auth.text username in
  let i := Auth.next_user_id t in
  let row := mkUser i name (Auth.hashed lib) zero in
  let t' := snd (Auth.register lib username password t) in
  fst (Auth.register lib username password t) =
    Auth.mkSession 200 (Auth.Session (Auth.signToken lib i name) i name (JNum zero)) /\
  users t' = users t ++ [row] /\
  transactions t' = transactions t /\
  ~ In i (map user_id (users t)) /\
  select_user_by_name username t' = Some row /\
  (forall other, other <> name ->
     select_user_by_name (Some other) t' = select_user_by_name (Some other) t).
Proof.
  apply (register_adds_account
           (Auth.mkLibrary "$2b$10$carol" (fun _ _ => true) (fun _ => "t"%string)
              (fun _ => None) (fun _ => false))
           (Some "carol"%string) (Some "secret"%string) initial_tables).
  - reflexivity.
  - reflexivity.
  - reflexivity.
  - reflexivity.
  - reflexivity.
  - reflexivity.
Defined.

Lemma insert_user_cases (name pass : string) (t : tables) :
  (exists m, Auth.insert_user name pass t = (inr m, t) /\
             existsb (has_name name) (users t) = true) \/
  (Auth.insert_user name pass t =
     (inl (Auth.next_user_id t),
      mkTables (users t ++ [mkUser (Auth.next_user_id t) name pass zero])
        (transactions t) (tx_seq t)) /\
   existsb (has_name name) (users t) = false).
Proof.
  unfold Auth.insert_user. destruct (existsb (has_name name) (users t)); eauto.
Qed.

(** Whatever the request and whichever call fails, registration leaves every
    existing row of [users] as it was and in place, adds at most one row, and
    keeps both keys of the table: ids stay pairwise different and so do
    usernames. *)
Theorem register_keeps_keys (lib : Auth.library) (username password : option string)
    (t : tables) :
  primary_key t -> usernames_unique t ->
  let t' := snd (Auth.register lib username password t) in
  (exists l, users t' = users t ++ l /\ (List.length l <= 1)%nat) /\
  primary_key t' /\ usernames_unique t'.
Proof.
  intros Hpk Hun. cbv zeta.
  assert (Hsame : (exists l, users t = users t ++ l /\ (List.length l <= 1)%nat) /\
                  primary_key t /\ usernames_unique t).
  { split; [exists []; rewrite app_nil_r; cbn; split; [reflexivity|lia]|].
    split; assumption. }
  unfold Auth.register.
  destruct (negb (truthy_str username) || negb (truthy_str password));
    [exact Hsame|].
  destruct (Auth.fails lib 0); [exact Hsame|].
  destruct (select_user_by_name username t); [exact Hsame|].
  destruct (Auth.fails lib 1); [exact Hsame|].
  destruct (Auth.fails lib 2); [exact Hsame|].
  destruct (insert_user_cases (Auth.text username) (Auth.hashed lib) t)
    as [[m [H _]]|[H Hfree]]; rewrite H; cbn [snd]; [exact Hsame|].
  cbn [users]. split; [eexists; split; [reflexivity|cbn; lia]|].
  unfold primary_key, usernames_unique in *. cbn [users].
  rewrite !map_app. cbn [map].
  split.
  - apply nodup_snoc; [exact Hpk|apply next_user_id_fresh].
  - apply nodup_snoc; [exact Hun|]. cbn. apply existsb_has_name. exact Hfree.
Qed.

Lemma register_keeps_keys_witness :
  let lib :=
    Auth.mkLibrary "$2b$10$carol" (fun _ _ => true) (fun _ => "t"%string)
      (fun _ => None) (fun _ => false) in
  let t' := snd (Auth.register lib (Some "carol"%string) (Some "pw"%string)
                   initial_tables) in
  (exists l, users t' = users initial_tables ++ l /\ (List.length l <= 1)%nat) /\
  primary_key t' /\ usernames_unique t'.
Proof.
  apply (register_keeps_keys
           (Auth.mkLibrary "$2b$10$carol" (fun _ _ => true) (fun _ => "t"%string)
              (fun _ => None) (fun _ => false))
           (Some "carol"%string) (Some "pw"%string) initial_tables).
  - unfold primary_key. cbn. constructor.
    + intros [H|[]]. discriminate H.
    + constructor; [intros []|constructor].
  - unfold usernames_unique. cbn. constructor.
    + intros [H|[]]. discriminate H.
    + constructor; [intros []|constructor].
Defined.

(** ** Logging in *)

(** Register, then log in.  After a registration that went through, logging
    in with the same username and a password bcrypt matches against the
    stored hash answers 200 with the id registration returned and balance 0;
    a password bcrypt does not match is answered 401; and registering the
    same username again is answered 409 and changes nothing. *)
Theorem register_then_login (lib : Auth.library) (username password : option string)
    (pass other : string) (t : tables) :
  Auth.fails lib 0%nat = false -> Auth.fails lib 1%nat = false ->
  Auth.fails lib 2%nat = false ->
  truthy_str username = true ->
  password = Some pass -> truthy_str password = true ->
  select_user_by_name username t = None ->
  Auth.compare lib pass (Auth.hashed lib) = true ->
  Auth.compare lib other (Auth.hashed lib) = false ->
  let name := Auth.text username in
  let i := Auth.next_user_id t in
  let t' := snd (Auth.register lib username password t) in
  Auth.login lib username password t' =
    Auth.mkSession 200 (Auth.Session (Auth.signToken lib i name) i name (JNum zero)) /\
  Auth.login lib username (Some other) t' =
    Auth.mkSession 401 (Auth.Failure "Invalid credentials") /\
  Auth.register lib username password t' =
    (Auth.mkSession 409 (Auth.Failure "username taken"), t').
Proof.
  intros H0 H1 H2 Hu -> Hp Hfree Hok Hbad. cbv zeta.
  rewrite (register_run lib username (Some pass) t H0 H1 H2 Hu Hp Hfree).
  cbn [snd].
  set (t' := mkTables _ (transactions t) (tx_seq t)).
  assert (Hsel : select_user_by_name username t' =
                 Some (mkUser (Auth.next_user_id t) (Auth.text username)
                         (Auth.hashed lib) zero)).
  { destruct username as [name|]; [|discriminate].
    apply select_registered. exact Hfree. }
  split; [|split].
  - unfold Auth.login. rewrite H0, Hsel, H1. cbn [Auth.row_password password].
    rewrite Hok. reflexivity.
  - unfold Auth.login. rewrite H0, Hsel, H1. cbn [Auth.row_password password].
    rewrite Hbad. reflexivity.
  - unfold Auth.register. rewrite Hu, Hp, H0, Hsel. reflexivity.
Qed.

Lemma register_then_login_witness :
  let lib :=
    Auth.mkLibrary "$2b$10$carol" (fun p _ => String.eqb p "secret")
      (fun _ => "t"%string) (fun _ => None) (fun _ => false) in
  let username := Some "carol"%string in
  let password := Some "secret"%string in
  let t := initial_tables in
  let name := Auth.text username in
  let i := Auth.next_user_id t in
  let t' := snd (Auth.register lib username password t) in
  Auth.login lib username password t' =
    Auth.mkSession 200 (Auth.Session (Auth.signToken lib i name) i name (JNum zero)) /\
  Auth.login lib username (Some "guess"%string) t' =
    Auth.mkSession 401 (Auth.Failure "Invalid credentials") /\
  Auth.register lib username password t' =
    (Auth.mkSession 409 (Auth.Failure "username taken"), t').
Proof.
  apply (register_then_login
           (Auth.mkLibrary "$2b$10$carol" (fun p _ => String.eqb p "secret")
              (fun _ => "t"%string) (fun _ => None) (fun _ => false))
           (Some "carol"%string) (Some "secret"%string) "secret" "guess"
           initial_tables).
  - reflexivity.
  - reflexivity.
  - reflexivity.
  - reflexivity.
  - reflexivity.
  - reflexivity.
  - reflexivity.
  - reflexivity.
  - reflexivity.
Defined.

(** ** Starting the server *)

Lemma insert_or_ignore_taken (u v : user) (t : tables) :
  user_id v = user_id u -> username v = username u ->
  taken v (Auth.insert_or_ignore u t) = true.
Proof.
  intros Hid Hname. unfold Auth.insert_or_ignore, taken, Auth.row_username.
  rewrite Hid, Hname.
  destruct (existsb (has_id (user_id u)) (users t)
            || existsb (has_name (username u)) (users t)) eqn:E; [exact E|].
  cbn [users]. rewrite !existsb_app. cbn [existsb].
  unfold has_id at 2. rewrite Z.eqb_refl. cbn. rewrite orb_true_r. reflexivity.
Qed.

Lemma taken_insert_or_ignore (u v : user) (t : tables) :
  taken v t = true -> taken v (Auth.insert_or_ignore u t) = true.
Proof.
  unfold Auth.insert_or_ignore, taken. intros H.
  destruct (existsb (has_id (user_id u)) (users t)
            || existsb (has_name (Auth.row_username u)) (users t)); [exact H|].
  cbn [users]. rewrite !existsb_app.
  apply orb_true_iff in H. destruct H as [H|H]; rewrite H; cbn;
    rewrite ?orb_true_r; reflexivity.
Qed.

Lemma insert_or_ignore_when_taken (u : user) (t : tables) :
  taken u t = true -> Auth.insert_or_ignore u t = t.
Proof.
  unfold Auth.insert_or_ignore, taken. intros ->. reflexivity.
Qed.

Lemma insert_or_ignore_extends (u : user) (t : tables) :
  exists l, users (Auth.insert_or_ignore u t) = users t ++ l /\
            transactions (Auth.insert_or_ignore u t) = transactions t.
Proof.
  unfold Auth.insert_or_ignore.
  destruct (_ || _); [exists []; rewrite app_nil_r; auto|].
  eexists. split; reflexivity.
Qed.

(** [initDb] only ever adds: on any database it leaves every existing row of
    [users] as it was and in place (a restart never resets a balance or a
    password) and does not touch the history; and running it again, even
    with the different hashes a new bcrypt salt produces, changes nothing. *)
Theorem initDb_only_adds (aliceHash bobHash aliceHash' bobHash' : string)
    (t : tables) :
  (exists l, users (Auth.initDb aliceHash bobHash t) = users t ++ l) /\
  transactions (Auth.initDb aliceHash bobHash t) = transactions t /\
  Auth.initDb aliceHash' bobHash' (Auth.initDb aliceHash bobHash t)
  = Auth.initDb aliceHash bobHash t.
Proof.
  unfold Auth.initDb.
  set (alice := mkUser 1 "alice" aliceHash (of_Z 1000)).
  set (bob := mkUser 2 "bob" bobHash (of_Z 500)).
  set (alice' := mkUser 1 "alice" aliceHash' (of_Z 1000)).
  set (bob' := mkUser 2 "bob" bobHash' (of_Z 500)).
  destruct (insert_or_ignore_extends alice t) as [l1 [Hu1 Ht1]].
  destruct (insert_or_ignore_extends bob (Auth.insert_or_ignore alice t))
    as [l2 [Hu2 Ht2]].
  split; [|split].
  - exists (l1 ++ l2). rewrite Hu2, Hu1, app_assoc. reflexivity.
  - rewrite Ht2, Ht1. reflexivity.
  - rewrite (insert_or_ignore_when_taken alice').
    + apply insert_or_ignore_when_taken.
      apply insert_or_ignore_taken; reflexivity.
    + apply taken_insert_or_ignore.
      apply insert_or_ignore_taken; reflexivity.
Qed.

(** ** Balances on the server without transactions *)

Lemma named_nonneg (n : option string) (t : tables) (u : user) :
  Forall (fun u => nonneg (balance_col u)) (users t) ->
  select_user_by_name n t = Some u -> nonneg (balance_col u).
Proof.
  intros Hall Hsel. unfold select_user_by_name in Hsel.
  destruct n as [n|]; [|discriminate].
  apply find_some in Hsel. destruct Hsel as [Hin _].
  rewrite Forall_forall in Hall. apply Hall. exact Hin.
Qed.

Ltac keep_nonneg :=
  cbn [snd db live]; unfold modify; cbn [live];
  repeat first
    [ assumption
    | apply update_keeps_nonneg
    | apply nonneg_deposit
    | apply nonneg_withdraw
    | eapply selected_nonneg; eassumption
    | eapply named_nonneg; eassumption ].

Lemma simple_handle_keeps_nonneg (e : env) (r : simple_request) (w : world) :
  balances_nonneg w -> balances_nonneg (snd (run e (simple_handle r) w)).
Proof.
  unfold balances_nonneg. destruct w as [[t sv] tr]. cbn [db live]. intros Hnn.
  destruct r as [uid amount|uid amount|uid toUsername amount];
    cbn [simple_handle];
    [unfold Simple.deposit|unfold Simple.withdraw|unfold Simple.transfer].
  - destruct (_ || _) eqn:Hv; [exact Hnn|].
    apply simple_accepted_iff in Hv. run_handler; keep_nonneg.
  - destruct (_ || _) eqn:Hv; [exact Hnn|].
    apply simple_accepted_iff in Hv. run_handler; keep_nonneg.
  - destruct (truthy_str toUsername); cbn [negb orb]; [|exact Hnn].
    destruct (_ || _) eqn:Hv; [exact Hnn|].
    apply simple_accepted_iff in Hv. run_handler; keep_nonneg.
Qed.

(** On the server without transactions too, starting from balances that
    satisfy [balance >= 0], no sequence of deposit, withdraw and transfer
    requests served one after the other makes a balance negative, whichever
    statements fail and whichever handlers end with an exception. *)
Theorem simple_balances_stay_nonneg (e : env) (rs : list simple_request)
    (w : world) :
  balances_nonneg w ->
  balances_nonneg (simple_serve e rs w) /\
  Forall (fun u => ~ negative (balance_col u))
    (users (live (db (simple_serve e rs w)))).
Proof.
  revert w. induction rs as [|r rs IH]; intros w Hnn; cbn [simple_serve].
  - split; [exact Hnn|].
    eapply Forall_impl; [|exact Hnn]. intros u. apply nonneg_not_negative.
  - apply IH. apply simple_handle_keeps_nonneg. exact Hnn.
Qed.

Lemma simple_balances_stay_nonneg_witness :
  let e := mkEnv (fun n => Nat.eqb n 3) (fun n => Z.of_nat n) in
  let rs :=
    [STransfer 1 (Some "bob"%string) (JNum (of_Z 900));
     SWithdraw 1 (JNum (of_Z 500));
     SDeposit 2 (JNum (of_Z 1))] in
  balances_nonneg (simple_serve e rs initial_world) /\
  Forall (fun u => ~ negative (balance_col u))
    (users (live (db (simple_serve e rs initial_world)))).
Proof.
  apply (simple_balances_stay_nonneg
           (mkEnv (fun n => Nat.eqb n 3) (fun n => Z.of_nat n))).
  unfold balances_nonneg; cbn. repeat constructor.
Defined.

(** [initDb] on an empty database. *)
Example initDb_fresh :
  Auth.initDb "$2b$10$alice" "$2b$10$bob" empty_tables = initial_tables.
Proof. reflexivity. Qed.

(** ** Deposit and withdrawal without transactions *)

Lemma simple_deposit_run (e : env) (uid : Z) (amount : jsval) (user : user)
    (c : conn) (tr : list (kind * bool)) :
  quiet e -> simple_accepted amount ->
  select_user_by_id uid (live c) = Some user ->
  run e (Simple.deposit uid amount) (mkWorld c tr) =
  (Returned
     (mkResponse 200 (Balance (num_add (Number (balance user)) (Number amount)))),
   mkWorld
     (modify (update_balance (num_add (Number (balance user)) (Number amount))
                (user_id user)) c)
     (tr ++ [(KSelect, true); (KUpdate, true)])).
Proof.
  intros Hq Ha Hu. unfold quiet in Hq. unfold simple_accepted in Ha.
  unfold Simple.deposit. rewrite Ha. destruct c as [t sv]. cbn [live] in Hu.
  run_quiet. tidy_trace. reflexivity.
Qed.

Lemma simple_withdraw_run (e : env) (uid : Z) (amount : jsval) (user : user)
    (c : conn) (tr : list (kind * bool)) :
  quiet e -> simple_accepted amount ->
  select_user_by_id uid (live c) = Some user ->
  run e (Simple.withdraw uid amount) (mkWorld c tr) =
  if js_lt (balance user) amount then
    (Returned (mkResponse 400 (Error "Insufficient funds")),
     mkWorld c (tr ++ [(KSelect, true)]))
  else
    (Returned
       (mkResponse 200 (Balance (num_sub (Number (balance user)) (Number amount)))),
     mkWorld
       (modify (update_balance (num_sub (Number (balance user)) (Number amount))
                  (user_id user)) c)
       (tr ++ [(KSelect, true); (KUpdate, true)])).
Proof.
  intros Hq Ha Hu. unfold quiet in Hq. unfold simple_accepted in Ha.
  unfold Simple.withdraw. rewrite Ha. destruct c as [t sv]. cbn [live] in Hu.
  destruct (js_lt (balance user) amount) eqn:Hlt; run_quiet; tidy_trace; reflexivity.
Qed.

(** On the server without transactions, for an existing account with balance
    [b] and an amount whose numeric value [m] is positive (a JSON number or
    [true]; an amount sent as a string is outside [jsval]), when no statement
    fails: deposit answers [{ balance: s }] and leaves [s] in the row, where
    [s] is the binary64 sum of [b] and [m]; withdraw is refused with 400 and
    changes nothing when [b < m], and otherwise answers [{ balance: d }] and
    leaves [d] in the row, where [d] is the binary64 difference (so the whole
    balance can be withdrawn).  [s] and [d] are the binary64 values nearest
    to [b + m] and [b - m] (the even one of two), hence these themselves
    whenever they are binary64 values. *)
Theorem simple_deposit_and_withdraw (e : env) (uid : Z) (amount : jsval)
    (user : user) (w : world) :
  quiet e -> positive amount ->
  select_user_by_id uid (live (db w)) = Some user ->
  let s := num_add (Number (balance user)) (Number amount) in
  let d := num_sub (Number (balance user)) (Number amount) in
  let dep := run e (Simple.deposit uid amount) w in
  let wd := run e (Simple.withdraw uid amount) w in
  let row := mkUser (user_id user) (username user) (password user) in
  (forall b m : Q,
     Number (balance user) = Fin b -> Number amount = Fin m ->
     rounded (b + m) s /\ rounded (b - m) d) /\
  (fst dep = Returned (mkResponse 200 (Balance s)) /\
   select_user_by_id uid (live (db (snd dep))) = Some (row s)) /\
  (js_lt (balance user) amount = true ->
   fst wd = Returned (mkResponse 400 (Error "Insufficient funds")) /\
   db (snd wd) = db w) /\
  (js_lt (balance user) amount = false ->
   fst wd = Returned (mkResponse 200 (Balance d)) /\
   select_user_by_id uid (live (db (snd wd))) = Some (row d)).
Proof.
  intros Hq Hpos Hu. destruct w as [[t sv] tr]. cbn [db live] in Hu. cbv zeta.
  assert (Ha : simple_accepted amount)
    by (apply simple_accepted_iff, positive_accepted; exact Hpos).
  assert (Hid : user_id user = uid) by (apply find_has_id in Hu; tauto).
  rewrite (simple_deposit_run e uid amount user (mkConn t sv) tr Hq Ha Hu).
  rewrite (simple_withdraw_run e uid amount user (mkConn t sv) tr Hq Ha Hu).
  cbn [fst snd db]. unfold modify; cbn [live]. rewrite Hid.
  split; [|split; [|split]].
  - intros b m Hb Hm. split.
    + apply (num_add_rounded _ _ b m Hb Hm).
    + apply (num_sub_rounded _ _ b m Hb Hm).
  - split; [reflexivity|].
    rewrite select_update, Z.eqb_refl, Hu. cbn [option_map].
    unfold set_balance. rewrite Hid. reflexivity.
  - intros ->. split; reflexivity.
  - intros ->. cbn [fst snd db live]. split; [reflexivity|].
    rewrite select_update, Z.eqb_refl, Hu. cbn [option_map].
    unfold set_balance. rewrite Hid. reflexivity.
Qed.

Lemma simple_deposit_and_withdraw_witness :
  let dep := run calm (Simple.deposit 2 (JNum (of_Z 500))) initial_world in
  let wd := run calm (Simple.withdraw 2 (JNum (of_Z 500))) initial_world in
  (fst dep = Returned (mkResponse 200 (Balance (of_Z 1000))) /\
   select_user_by_id 2 (live (db (snd dep))) =
     Some (mkUser 2 "bob" "$2b$10$bob" (of_Z 1000))) /\
  (fst wd = Returned (mkResponse 200 (Balance (of_Z 0))) /\
   select_user_by_id 2 (live (db (snd wd))) =
     Some (mkUser 2 "bob" "$2b$10$bob" (of_Z 0))).
Proof.
  destruct (simple_deposit_and_withdraw calm 2 (JNum (of_Z 500))
              (mkUser 2 "bob" "$2b$10$bob" (of_Z 500)) initial_world
              calm_quiet eq_refl eq_refl) as (_ & Hdep & _ & Hwd).
  split; [exact Hdep|exact (Hwd eq_refl)].
Defined.
